(** * movienightgpt: the daily row filler of [scripts/generate_today.py]

    A shallow embedding of the script and the properties its specification
    states about it.

    Python [str] values are modelled as [string]; a character stands for the
    code point of the same number, so the development covers text whose code
    points are below 256.  The character classes below are those of Python 3
    on that range ([str.isspace], [str.isdigit], and [\s], [\w], [\d] of the
    [re] module on [str] patterns).  Python [int] is [Z]. *)

From Stdlib Require Import ZArith Ascii DecimalString.
From stdpp Require Import gmap strings list sorting.

#[local] Set Warnings "-clear-no-such-hyp".

Local Open Scope Z_scope.

(** ** Python text primitives *)

Module Py.

Definition LF : ascii := "010"%char.

Definition code (c : ascii) : N := N_of_ascii c.

Definition in_range (lo hi : N) (c : ascii) : bool :=
  ((lo <=? code c) && (code c <=? hi))%N.

(** [str.isspace] on one character; also the class [\s]. *)
Definition isspace (c : ascii) : bool :=
  in_range 9 13 c || in_range 28 32 c || (code c =? 133)%N || (code c =? 160)%N.

(** The class [\d]. *)
Definition isdecimal (c : ascii) : bool := in_range 48 57 c.

(** [str.isdigit] on one character: the decimal digits and the superscript
    digits of the Latin-1 block. *)
Definition isdigit_char (c : ascii) : bool :=
  isdecimal c || in_range 178 179 c || (code c =? 185)%N.

Definition is_ascii_alnum (c : ascii) : bool :=
  in_range 48 57 c || in_range 65 90 c || in_range 97 122 c.

(** The class [\w]: alphanumeric characters and the underscore. *)
Definition is_word (c : ascii) : bool :=
  is_ascii_alnum c || (code c =? 95)%N
  || (code c =? 170)%N || in_range 178 179 c || (code c =? 181)%N
  || in_range 185 186 c || in_range 188 190 c
  || in_range 192 214 c || in_range 216 246 c || in_range 248 255 c.

Definition ascii_lower (c : ascii) : ascii :=
  if in_range 65 90 c then ascii_of_N (code c + 32) else c.

(** A literal pattern character [p] against a subject character [c] under
    [re.IGNORECASE]. *)
Definition eq_nocase (p c : ascii) : bool :=
  bool_decide (ascii_lower p = ascii_lower c).

(** Truth value of a [str]. *)
Definition truthy (s : string) : bool :=
  match s with EmptyString => false | String _ _ => true end.

Definition first_char (s : string) : option ascii :=
  match s with EmptyString => None | String c _ => Some c end.

Fixpoint lstrip (s : string) : string :=
  match s with
  | EmptyString => EmptyString
  | String c s' => if isspace c then lstrip s' else s
  end.

Fixpoint rstrip (s : string) : string :=
  match s with
  | EmptyString => EmptyString
  | String c s' =>
      match rstrip s' with
      | EmptyString => if isspace c then EmptyString else String c EmptyString
      | r => String c r
      end
  end.

(** [s.strip()] *)
Definition strip (s : string) : string := rstrip (lstrip s).

(** [s[:n]] *)
Fixpoint slice_to (n : nat) (s : string) : string :=
  match n, s with
  | S n', String c s' => String c (slice_to n' s')
  | _, _ => EmptyString
  end.

Fixpoint all_chars (p : ascii → bool) (s : string) : bool :=
  match s with
  | EmptyString => true
  | String c s' => p c && all_chars p s'
  end.

(** [s.isdigit()]: at least one character and digits only. *)
Definition isdigit (s : string) : bool := truthy s && all_chars isdigit_char s.

Definition digit_value (c : ascii) : Z := Z.of_N (code c) - 48.

Fixpoint int_acc (acc : Z) (ds : string) : Z :=
  match ds with
  | EmptyString => acc
  | String c ds' => int_acc (acc * 10 + digit_value c) ds'
  end.

(** [int(ds)] for a run of decimal digits: its value.  Python's [int]
    refuses a run of more than 4300 digits with [ValueError] (the default
    limit of its string conversion); the value of such a run is not what the
    script computes, and a statement about values carries the bound. *)
Definition int (ds : string) : Z := int_acc 0 ds.

(** [str(n)] for a length. *)
Definition str_of_nat (n : nat) : string := NilZero.string_of_uint (Nat.to_uint n).

Fixpoint after_last (sep : ascii) (s : string) : option string :=
  match s with
  | EmptyString => None
  | String c s' =>
      match after_last sep s' with
      | Some r => Some r
      | None => if bool_decide (c = sep) then Some s' else None
      end
  end.

(** [s.rsplit(sep, 1)[-1]]: what follows the last separator, the whole
    string when there is none. *)
Definition rsplit_last (sep : ascii) (s : string) : string :=
  default s (after_last sep s).

(** [list(dict.fromkeys(l))]: the distinct elements in order of first
    occurrence. *)
Fixpoint fromkeys_acc (seen : list string) (l : list string) : list string :=
  match l with
  | [] => []
  | x :: l' =>
      if bool_decide (x ∈ seen) then fromkeys_acc seen l'
      else x :: fromkeys_acc (x :: seen) l'
  end.

Definition fromkeys (l : list string) : list string := fromkeys_acc [] l.

(** [sorted(l)] on strings: ascending by code points. *)
Definition sorted (l : list string) : list string := merge_sort String.le l.

End Py.

(** ** The compiled patterns *)

Module Re.
Import Py.

(** [$] without [re.MULTILINE]: the end of the string, or just before a
    newline that ends the string. *)
Definition at_end (s : string) : bool :=
  match s with
  | EmptyString => true
  | String c EmptyString => bool_decide (c = LF)
  | _ => false
  end.

(** [\b] between the characters [prev] and [next]. *)
Definition boundary (prev next : option ascii) : bool :=
  xorb (from_option is_word false prev) (from_option is_word false next).

(** The maximal run of [\d] at the front of [s], and what follows it. *)
Fixpoint span_digits (s : string) : string * string :=
  match s with
  | EmptyString => (EmptyString, EmptyString)
  | String c s' =>
      if isdecimal c
      then let '(ds, rest) := span_digits s' in (String c ds, rest)
      else (EmptyString, s)
  end.

(** One optional group [(?:(\d+)X)?] at the front of [s]: the captured
    digits, if the group takes part in the match, and what follows. *)
Definition opt_group (unit : ascii) (s : string) : option string * string :=
  match span_digits s with
  | (String d ds, String c rest) =>
      if bool_decide (c = unit) then (Some (String d ds), rest) else (None, s)
  | _ => (None, s)
  end.

(** [re.match(r"^PT(?:(\d+)H)?(?:(\d+)M)?(?:(\d+)S)?$", d)]: groups 1 to 3. *)
Definition DURATION_RE_match (d : string)
  : option (option string * option string * option string) :=
  match d with
  | String "P" (String "T" r0) =>
      let '(h, r1) := opt_group "H" r0 in
      let '(m, r2) := opt_group "M" r1 in
      let '(s, r3) := opt_group "S" r2 in
      if at_end r3 then Some (h, m, s) else None
  | _ => None
  end.

(** The class [[A-Za-z0-9_-]]. *)
Definition is_id_char (c : ascii) : bool :=
  is_ascii_alnum c || (code c =? 95)%N || (code c =? 45)%N.

Fixpoint id_chars (n : nat) (s : string) : option string :=
  match n with
  | O => Some s
  | S n' =>
      match s with
      | String c s' => if is_id_char c then id_chars n' s' else None
      | EmptyString => None
      end
  end.

(** [YT_ID_RE.match(vid)] for [^[A-Za-z0-9_-]{11}$]. *)
Definition YT_ID_RE_match (vid : string) : bool :=
  match id_chars 11 vid with
  | Some rest => at_end rest
  | None => false
  end.

(** A literal [p] matched at the front of [s] under [re.IGNORECASE]: the
    last character consumed ([prev] when [p] is empty) and what follows. *)
Fixpoint prefix_nocase (p : string) (prev : option ascii) (s : string)
  : option (option ascii * string) :=
  match p with
  | EmptyString => Some (prev, s)
  | String a p' =>
      match s with
      | String c s' => if eq_nocase a c then prefix_nocase p' (Some c) s' else None
      | EmptyString => None
      end
  end.

(** [\bw\b] matched at the front of [s], [prev] being the character before
    it: what follows the match. *)
Definition word_at (w : string) (prev : option ascii) (s : string) : option string :=
  if boundary prev (first_char s) then
    match prefix_nocase w prev s with
    | Some (last, rest) => if boundary last (first_char rest) then Some rest else None
    | None => None
    end
  else None.

Fixpoint search_word (w : string) (prev : option ascii) (s : string) : bool :=
  match word_at w prev s with
  | Some _ => true
  | None =>
      match s with
      | EmptyString => false
      | String c s' => search_word w (Some c) s'
      end
  end.

(** [EXCLUDE_TITLE_RE.search(title)] for [\bdocumentary\b], ignoring case. *)
Definition EXCLUDE_TITLE_RE_search (title : string) : bool :=
  search_word "documentary" None title.

(** The alternatives of the first substitution of [clean_title_for_tmdb],
    in the order of the pattern. *)
Definition JUNK : list string :=
  ["full movie"; "full-film"; "full film"; "hd"; "4k"; "1080p"; "720p"; "english"].

(** Length of the first alternative [a] such that [\ba\b] matches here. *)
Fixpoint first_alt (alts : list string) (prev : option ascii) (s : string) : option nat :=
  match alts with
  | [] => None
  | a :: alts' =>
      match word_at a prev s with
      | Some _ => Some (String.length a)
      | None => first_alt alts' prev s
      end
  end.

(** [re.sub(r"\b(full movie|...|english)\b", "", t, flags=re.I)]; [skip]
    counts the characters of the current match still to be dropped. *)
Fixpoint sub_junk (skip : nat) (prev : option ascii) (s : string) : string :=
  match s with
  | EmptyString => EmptyString
  | String c s' =>
      match skip with
      | S k => sub_junk k (Some c) s'
      | O =>
          match first_alt JUNK prev s with
          | Some (S k) => sub_junk k (Some c) s'
          | _ => String c (sub_junk O (Some c) s')
          end
      end
  end.

(** The class [[\[\]\(\)\|]]. *)
Definition is_delim (c : ascii) : bool :=
  bool_decide (c ∈ ["["; "]"; "("; ")"; "|"]%char).

(** [.*?] followed by a delimiter, at the front of [s]: the number of
    characters matched.  The dot does not cross a newline. *)
Fixpoint lazy_close (s : string) : option nat :=
  match s with
  | EmptyString => None
  | String c s' =>
      if is_delim c then Some 1%nat
      else if bool_decide (c = LF) then None
      else S <$> lazy_close s'
  end.

(** [re.sub(r"[\[\]\(\)\|].*?[\[\]\(\)\|]", " ", t)] *)
Fixpoint sub_brackets (skip : nat) (s : string) : string :=
  match s with
  | EmptyString => EmptyString
  | String c s' =>
      match skip with
      | S k => sub_brackets k s'
      | O =>
          if is_delim c then
            match lazy_close s' with
            | Some k => String " " (sub_brackets k s')
            | None => String c (sub_brackets O s')
            end
          else String c (sub_brackets O s')
      end
  end.

(** [re.sub(r"\s+", " ", t)]; [in_run] tells that the previous character
    was a space of the run being replaced. *)
Fixpoint sub_spaces (in_run : bool) (s : string) : string :=
  match s with
  | EmptyString => EmptyString
  | String c s' =>
      if isspace c
      then (if in_run then sub_spaces true s' else String " " (sub_spaces true s'))
      else String c (sub_spaces false s')
  end.

End Re.

Import Py Re.

(** ** Constants of the script *)

Definition OUT_PATH : string := "data/today.json".

Definition MIN_MINUTES : Z := 75.

(** ** Pure helpers *)

Definition iso8601_duration_to_minutes (d : string) : Z :=
  match DURATION_RE_match d with
  | None => 0
  | Some (g1, g2, g3) =>
      let h := from_option int 0 g1 in
      let m := from_option int 0 g2 in
      let s := from_option int 0 g3 in
      h * 60 + m + (if bool_decide (30 ≤ s) then 1 else 0)
  end.

Definition clean_title_for_tmdb (title : string) : string :=
  let t := sub_junk O None title in
  let t := sub_brackets O t in
  let t := strip (sub_spaces false t) in
  slice_to 120 t.

(** ** Data model

    The JSON documents the script reads are records whose fields are [option]s:
    [None] stands for a key that is absent or null, which the script treats
    alike through [x.get(k) or default].  A thumbnail variant that is present
    is an object, as in the resource of the detail service. *)

(** One entry of a search page, [it["id"]["videoId"]]. *)
Record search_id := { videoId : option string }.
Record search_item := { si_id : option search_id }.
Record search_page := {
  sp_items : option (list search_item);
  nextPageToken : option string;
}.

(** A record of the batch detail service. *)
Record thumbnail := { url : option string }.
Record snippet := {
  sn_title : option string;
  thumbnails : option (gmap string thumbnail);
}.
Record content_details := { duration : option string }.
Record video := {
  v_id : option string;
  v_snippet : option snippet;
  v_contentDetails : option content_details;
}.

(** Movie-metadata search and detail documents. *)
Record tmdb_hit := { hit_id : option Z }.
Record crew_member := { job : option string; crew_name : option string }.
Record cast_member := { cast_name : option string }.
Record credits := {
  crew : option (list crew_member);
  cast : option (list cast_member);
}.
Record external_ids := { imdb_id : option string }.
Record details := {
  release_date : option string;
  d_credits : option credits;
  poster_path : option string;
  d_external_ids : option external_ids;
  d_title : option string;
}.

(** The knowledge-graph answer: the HTTP status and, for each binding of
    [results.bindings], its [award.value]. *)
Record binding := { award_value : option string }.
Record sparql_response := {
  status_code : Z;
  bindings : list binding;
}.

(** The output unit. *)
Record item := {
  title : string;
  year : string;
  director : string;
  leads : list string;
  posterUrl : string;
  youtubeId : string;
  awards : list string;
}.

Record payload := {
  date : string;
  criteria : string;
  row_titles : list string;
  items : list item;
}.

(** [poster_url = ...] on an item under construction. *)
Definition set_posterUrl (it : item) (poster_url : string) : item :=
  {| title := title it; year := year it; director := director it;
     leads := leads it; posterUrl := poster_url;
     youtubeId := youtubeId it; awards := awards it |}.

Definition empty_snippet : snippet := {| sn_title := None; thumbnails := None |}.
Definition empty_content_details : content_details := {| duration := None |}.
Definition empty_credits : credits := {| crew := None; cast := None |}.
Definition empty_external_ids : external_ids := {| imdb_id := None |}.

(** ** Effects

    Every interaction of the script with its environment is an [event] of the
    run's trace, most recent first.  The environment is a [world]: it answers
    a request from the trace so far; [None] is a request that raises
    (transport failure, or a status that [raise_for_status] refuses). *)

Inductive event :=
  | EvMakedirs (path : string)
  | EvRandBelow (n : nat)
  | EvSearch (q order : string) (page_token : option string) (max_results : Z)
  | EvVideos (ids : list string)
  | EvTmdbSearch (query : string)
  | EvTmdbDetails (movie_id : Z)
  | EvWikidata (film : string)
  | EvSleep
  | EvSeenAdd (vid : string)
  | EvWrite (path : string) (p : payload)
  | EvPrint (line : string).

Record world := {
  search_api : list event → string → string → option string → Z → option search_page;
  videos_api : list event → list string → option (list video);
  tmdb_search_api : list event → string → option (list tmdb_hit);
  tmdb_details_api : list event → Z → option details;
  wikidata_api : list event → string → option sparql_response;
  randbelow_api : list event → nat → nat;
  utc_today : list event → string;
}.

Inductive exn :=
  | RequestException
  | KeyError (key : string)
  | SystemExit (msg : string).

Inductive outcome (A : Type) :=
  | Ok (a : A)
  | Raise (e : exn).
Arguments Ok {A} a.
Arguments Raise {A} e.

(** The state of a run: the seen set shared by all rows, and the trace. *)
Record run := {
  seen_ids : gset string;
  trace : list event;
}.

Definition M (A : Type) : Type := run → outcome A * run.

Definition ret {A} (a : A) : M A := λ st, (Ok a, st).

Definition raise {A} (e : exn) : M A := λ st, (Raise e, st).

Definition bind {A B} (m : M A) (k : A → M B) : M B :=
  λ st, match m st with
        | (Ok a, st') => k a st'
        | (Raise e, st') => (Raise e, st')
        end.

Notation "'let*' x ':=' m 'in' k" := (bind m (λ x, k))
  (at level 10, x name, m at level 100, k at level 200).

Definition emit (e : event) : M unit :=
  λ st, (Ok tt, {| seen_ids := seen_ids st; trace := e :: trace st |}).

(** A request: record it, then let the world answer from the trace before it. *)
Definition request {A} (e : event) (answer : list event → option A) : M A :=
  λ st, let st' := {| seen_ids := seen_ids st; trace := e :: trace st |} in
        match answer (trace st) with
        | Some a => (Ok a, st')
        | None => (Raise RequestException, st')
        end.

Definition get_seen : M (gset string) := λ st, (Ok (seen_ids st), st).

(** [seen_ids.add(vid)] *)
Definition seen_add (vid : string) : M unit :=
  λ st, (Ok tt, {| seen_ids := {[ vid ]} ∪ seen_ids st; trace := EvSeenAdd vid :: trace st |}).

(** [seen_ids = set()] *)
Definition seen_reset : M unit :=
  λ st, (Ok tt, {| seen_ids := ∅; trace := trace st |}).

(** Truth value of an optional string, and the string when it is true. *)
Definition nonempty (o : option string) : option string :=
  match o with
  | Some s => if truthy s then Some s else None
  | None => None
  end.

Section Script.

Variable w : world.

Definition yt_search (query order : string) (page_token : option string)
    (max_results : Z) : M search_page :=
  let sent := nonempty page_token in
  request (EvSearch query order sent max_results)
          (λ h, search_api w h query order sent max_results).

Definition yt_videos (video_ids : list string) : M (list video) :=
  request (EvVideos video_ids) (λ h, videos_api w h video_ids).

Definition tmdb_search_movie (query : string) : M (option tmdb_hit) :=
  let* results := request (EvTmdbSearch query) (λ h, tmdb_search_api w h query) in
  ret (head results).

Definition tmdb_movie_details (movie_id : Z) : M details :=
  request (EvTmdbDetails movie_id) (λ h, tmdb_details_api w h movie_id).

Definition wikidata_get (film : string) : M sparql_response :=
  request (EvWikidata film) (λ h, wikidata_api w h film).

(** [randbelow(n)] of [random]: a number below [n]. *)
Definition randbelow (n : nat) : M nat :=
  λ st, (Ok (randbelow_api w (trace st) n `mod` n)%nat,
         {| seen_ids := seen_ids st; trace := EvRandBelow n :: trace st |}).

Definition sleep : M unit := emit EvSleep.

End Script.

Definition ROW_TITLES : list string :=
  ["Recently Uploaded"; "Popular"; "Political"; "War"; "History"].

Definition ROW_QUERIES : gmap string (list string) :=
  list_to_map
    [("Recently Uploaded",
      ["political thriller full movie"; "war full movie";
       "historical drama full movie"; "history war full movie"]);
     ("Popular",
      ["political thriller full movie"; "war full movie";
       "historical drama full movie"; "history war full movie"]);
     ("Political",
      ["political thriller full movie"; "political drama full movie";
       "conspiracy thriller full movie"; "spy political thriller full movie"]);
     ("War",
      ["war full movie"; "ww2 full movie"; "vietnam war full movie";
       "military thriller full movie"]);
     ("History",
      ["historical drama full movie"; "based on true events full movie";
       "period drama full movie"; "history war drama full movie"])].

Definition WIKIDATA_AWARD_QIDS : gmap string string :=
  list_to_map
    [("Q103360", "Oscar Best Picture");
     ("Q106291", "Oscar Best Director");
     ("Q1033603", "Oscar Best Original Screenplay");
     ("Q1033604", "Oscar Best Adapted Screenplay");
     ("Q106301", "Golden Globe Best Motion Picture (Drama)");
     ("Q106295", "Golden Globe Best Motion Picture (Musical/Comedy)");
     ("Q106296", "Golden Globe Best Director");
     ("Q106297", "Golden Globe Best Screenplay")].

Definition THUMBNAIL_KEYS : list string :=
  ["maxres"; "standard"; "high"; "medium"; "default"].

Definition FALLBACK_POOL : list string :=
  ["full movie"; "political thriller full movie"; "war full movie";
   "historical drama full movie"].

Definition CRITERIA : string :=
  "Public daily mix: drama, history, war, political thrillers. Secondary action thrillers.".

Definition POSTER_BASE : string := "https://image.tmdb.org/t/p/w500".

(** The loop of [pick_best_thumbnail] over the keys still to try. *)
Fixpoint first_thumbnail (keys : list string) (thumbs : gmap string thumbnail) : string :=
  match keys with
  | [] => EmptyString
  | k :: keys' =>
      match thumbs !! k with
      | Some t =>
          match nonempty (url t) with
          | Some u => u
          | None => first_thumbnail keys' thumbs
          end
      | None => first_thumbnail keys' thumbs
      end
  end.

Definition pick_best_thumbnail (sn : snippet) : string :=
  first_thumbnail THUMBNAIL_KEYS (default ∅ (thumbnails sn)).

(** The loop of [wikidata_awards_for_film] over the bindings: the label of
    each award whose identifier, the last segment of its URI, is listed. *)
Fixpoint award_labels (bs : list binding) : list string :=
  match bs with
  | [] => []
  | b :: bs' =>
      let uri := default EmptyString (award_value b) in
      let qid := rsplit_last "/" uri in
      match WIKIDATA_AWARD_QIDS !! qid with
      | Some label => label :: award_labels bs'
      | None => award_labels bs'
      end
  end.

(** [tmdb_hit and tmdb_hit.get("id")], then [int(tmdb_hit["id"])]. *)
Definition hit_movie_id (tmdb_hit : option tmdb_hit) : option Z :=
  match tmdb_hit with
  | Some hit =>
      match hit_id hit with
      | Some i => if bool_decide (i = 0) then None else Some i
      | None => None
      end
  | None => None
  end.

Definition year_of (d : details) : string :=
  let release_date := default EmptyString (release_date d) in
  if isdigit (slice_to 4 release_date) then slice_to 4 release_date else EmptyString.

Definition is_director (c : crew_member) : bool :=
  bool_decide (job c = Some "Director") && bool_decide (is_Some (nonempty (crew_name c))).

Definition director_of (d : details) : string :=
  let crew := default [] (crew (default empty_credits (d_credits d))) in
  match List.filter is_director crew with
  | c :: _ => default EmptyString (crew_name c)
  | [] => EmptyString
  end.

(** [[c.get("name") for c in cast[:2] if c.get("name")]], then [leads[:2]]. *)
Definition leads_of (d : details) : list string :=
  let cast := default [] (cast (default empty_credits (d_credits d))) in
  let leads := omap (λ c, nonempty (cast_name c)) (take 2 cast) in
  take 2 leads.

Definition poster_of (d : details) : string :=
  match nonempty (poster_path d) with
  | Some poster_path => POSTER_BASE +:+ poster_path
  | None => EmptyString
  end.

Definition imdb_of (d : details) : string :=
  strip (default EmptyString (imdb_id (default empty_external_ids (d_external_ids d)))).

Definition shortfall_message (row : string) (found : nat) : string :=
  "Could not fill row '" +:+ row +:+ "' with 4 valid movies. Found "
    +:+ str_of_nat found +:+ ".".

Definition order_of (row : string) : string :=
  if bool_decide (row = "Recently Uploaded") then "date"
  else if bool_decide (row = "Popular") then "viewCount"
  else "relevance".

(** [((it.get("id") or {}).get("videoId") or "").strip()] *)
Definition candidate_id (it : search_item) : string :=
  strip (default EmptyString (videoId (default {| videoId := None |} (si_id it)))).

(** The identifiers of a page that are not empty and not seen yet. *)
Definition new_ids (seen : gset string) (data : search_page) : list string :=
  filter (λ vid, truthy vid ∧ vid ∉ seen) (candidate_id <$> default [] (sp_items data)).

(** [x[i], x[j] = x[j], x[i]] *)
Definition swap (x : list string) (i j : nat) : list string :=
  match x !! i, x !! j with
  | Some a, Some b => <[j := a]> (<[i := b]> x)
  | _, _ => x
  end.

(** How a loop body ends: the loop goes on ([Next]), or the function has
    returned ([Return]). *)
Inductive flow (A : Type) :=
  | Next (a : A)
  | Return (a : A).
Arguments Next {A} a.
Arguments Return {A} a.

Definition flow_value {A} (r : flow A) : A :=
  match r with Next a => a | Return a => a end.

(** The fields of a record as [build_item_from_video] reads them. *)
Definition candidate_vid (v : video) : string := default EmptyString (v_id v).

Definition candidate_snippet (v : video) : snippet :=
  default empty_snippet (v_snippet v).

Definition candidate_title (v : video) : string :=
  strip (default EmptyString (sn_title (candidate_snippet v))).

Definition candidate_minutes (v : video) : Z :=
  iso8601_duration_to_minutes
    (default EmptyString
       (duration (default empty_content_details (v_contentDetails v)))).

Section Pipeline.

Variable w : world.

Definition wikidata_awards_for_film (imdb_id : string) : M (list string) :=
  if truthy imdb_id then
    let* r := wikidata_get w imdb_id in
    if bool_decide (status_code r = 200)
    then ret (sorted (fromkeys (award_labels (bindings r))))
    else ret []
  else ret [].

Definition build_item_from_video (v : video) : M (option item) :=
  let vid := candidate_vid v in
  if negb (YT_ID_RE_match vid) then ret None else
  let snippet := candidate_snippet v in
  let title := candidate_title v in
  if negb (truthy title) || EXCLUDE_TITLE_RE_search title then ret None else
  let minutes := candidate_minutes v in
  if bool_decide (minutes < MIN_MINUTES) then ret None else
  let tmdb_title := clean_title_for_tmdb title in
  let* tmdb_hit :=
    (if truthy tmdb_title then tmdb_search_movie w tmdb_title else ret None) in
  let* draft :=
    match hit_movie_id tmdb_hit with
    | Some movie_id =>
        let* details := tmdb_movie_details w movie_id in
        let* awards := wikidata_awards_for_film (imdb_of details) in
        ret {| title := default title (nonempty (d_title details));
               year := year_of details;
               director := director_of details;
               leads := leads_of details;
               posterUrl := poster_of details;
               youtubeId := vid;
               awards := awards |}
    | None =>
        ret {| title := title; year := EmptyString; director := EmptyString;
               leads := []; posterUrl := EmptyString; youtubeId := vid;
               awards := [] |}
    end in
  if truthy (posterUrl draft) then ret (Some draft)
  else ret (Some (set_posterUrl draft (pick_best_thumbnail snippet))).

(** [random.shuffle(x)]: for [i] from [len(x) - 1] down to 1, exchange
    [x[i]] with [x[randbelow(i + 1)]]. *)
Fixpoint shuffle_from (i : nat) (x : list string) : M (list string) :=
  match i with
  | O => ret x
  | S i' =>
      let* j := randbelow w (S i) in
      shuffle_from i' (swap x i j)
  end.

Definition shuffle (x : list string) : M (list string) :=
  shuffle_from (length x - 1) x.

(** The loop [for v in vids] of [fill_row]. *)
Fixpoint scan_videos (vids : list video) (items : list item) : M (flow (list item)) :=
  match vids with
  | [] => ret (Next items)
  | v :: vids' =>
      let vid := candidate_vid v in
      let* seen := get_seen in
      if bool_decide (vid ∈ seen) then scan_videos vids' items else
      let* item := build_item_from_video v in
      match item with
      | None => scan_videos vids' items
      | Some it =>
          let* _ := seen_add vid in
          let items := items ++ [it] in
          if bool_decide (4 ≤ length items)%nat then ret (Return items)
          else scan_videos vids' items
      end
  end.

(** The loop [for _ in range(4)] of [fill_row], with [n] rounds left. *)
Fixpoint paginate (n : nat) (q order : string) (page_token : option string)
    (items : list item) : M (flow (list item)) :=
  match n with
  | O => ret (Next items)
  | S n' =>
      let* data := yt_search w q order page_token 25 in
      let* seen := get_seen in
      let ids := take 50 (new_ids seen data) in
      match ids with
      | [] =>
          match nonempty (nextPageToken data) with
          | None => ret (Next items)
          | Some _ => paginate n' q order (nextPageToken data) items
          end
      | _ :: _ =>
          let* vids := yt_videos w ids in
          let* r := scan_videos vids items in
          match r with
          | Return items => ret (Return items)
          | Next items =>
              match nonempty (nextPageToken data) with
              | None => ret (Next items)
              | Some _ =>
                  let* _ := sleep in
                  paginate n' q order (nextPageToken data) items
              end
          end
      end
  end.

(** The loop [for q in queries] of [fill_row]. *)
Fixpoint each_query (queries : list string) (order : string) (items : list item)
    : M (flow (list item)) :=
  match queries with
  | [] => ret (Next items)
  | q :: queries' =>
      let* r := paginate 4 q order None items in
      match r with
      | Return items => ret (Return items)
      | Next items =>
          if bool_decide (4 ≤ length items)%nat then ret (Next items)
          else each_query queries' order items
      end
  end.

(** The script shuffles the row's list of [ROW_QUERIES] in place.  [main]
    fills each row once and the lists of two rows are distinct objects, so
    the shuffle is made here on the list as declared. *)
Definition fill_row (row_name order : string) : M (list item) :=
  match ROW_QUERIES !! row_name with
  | None => raise (KeyError row_name)
  | Some queries =>
      let* queries := shuffle queries in
      let* r := each_query queries order [] in
      ret (flow_value r)
  end.

(** The loop [for v in vids] of the fallback pass of [main]. *)
Fixpoint fallback_scan (vids : list video) (row_items : list item) : M (list item) :=
  match vids with
  | [] => ret row_items
  | v :: vids' =>
      if bool_decide (4 ≤ length row_items)%nat then ret row_items else
      let vid := candidate_vid v in
      let* seen := get_seen in
      if bool_decide (vid ∈ seen) then fallback_scan vids' row_items else
      let* item := build_item_from_video v in
      match item with
      | None => fallback_scan vids' row_items
      | Some it =>
          let* _ := seen_add vid in
          fallback_scan vids' (row_items ++ [it])
      end
  end.

(** The loop [for fb in fallback_pool] of [main]. *)
Fixpoint fallback_fill (pool : list string) (order : string) (row_items : list item)
    : M (list item) :=
  match pool with
  | [] => ret row_items
  | fb :: pool' =>
      if bool_decide (4 ≤ length row_items)%nat then ret row_items else
      let* data := yt_search w fb order None 25 in
      let* seen := get_seen in
      let ids := new_ids seen data in
      let* vids := yt_videos w (take 50 ids) in
      let* row_items := fallback_scan vids row_items in
      fallback_fill pool' order row_items
  end.

(** The primary fill of a row followed, when it is short, by the fallback
    pass. *)
Definition fill_with_fallback (row : string) : M (list item) :=
  let order := order_of row in
  let* row_items := fill_row row order in
  if bool_decide (length row_items < 4)%nat
  then fallback_fill FALLBACK_POOL order row_items
  else ret row_items.

(** The loop [for row in ROW_TITLES] of [main]. *)
Fixpoint each_row (rows : list string) (all_items : list item) : M (list item) :=
  match rows with
  | [] => ret all_items
  | row :: rows' =>
      let* row_items := fill_with_fallback row in
      if bool_decide (length row_items < 4)%nat
      then raise (SystemExit (shortfall_message row (length row_items)))
      else each_row rows' (all_items ++ row_items)
  end.

Definition main : M unit :=
  let* _ := emit (EvMakedirs "data") in
  let* _ := seen_reset in
  let* all_items := each_row ROW_TITLES [] in
  let* today := (λ st, (Ok (utc_today w (trace st)), st)) in
  let payload :=
    {| date := today; criteria := CRITERIA; row_titles := ROW_TITLES;
       items := all_items |} in
  let* _ := emit (EvWrite OUT_PATH payload) in
  emit (EvPrint ("Wrote " +:+ OUT_PATH +:+ " with "
                   +:+ str_of_nat (length all_items) +:+ " items.")).

End Pipeline.

(** ** Vocabulary of the specification *)

(** "Exactly 11 characters, alphanumeric plus [_] and [-]." *)
Definition well_formed_id (vid : string) : Prop :=
  String.length vid = 11%nat ∧ all_chars is_id_char vid = true.

(** The compact duration form [PT[nH][nM][nS]]: each part that is present is
    a run of decimal digits followed by its unit. *)
Definition digits (n : string) : Prop :=
  n ≠ EmptyString ∧ all_chars isdecimal n = true.

Definition duration_part (n : option string) (unit : string) : string :=
  match n with
  | Some ds => ds +:+ unit
  | None => EmptyString
  end.

Definition compact_duration (h m s : option string) : string :=
  "PT" +:+ duration_part h "H" +:+ duration_part m "M" +:+ duration_part s "S".

Definition digit_parts (h m s : option string) : Prop :=
  ∀ n, h = Some n ∨ m = Some n ∨ s = Some n → digits n.

Definition duration_form (d : string) : Prop :=
  ∃ h m s : option string, digit_parts h m s ∧ d = compact_duration h m s.

(** What the end anchor of the patterns lets follow a match: nothing, or
    one line feed. *)
Definition end_tail (tail : string) : Prop :=
  tail = EmptyString ∨ tail = String LF EmptyString.

(** "hours * 60 + minutes + (1 if seconds >= 30 else 0)" *)
Definition minutes_of_parts (h m s : option string) : Z :=
  from_option int 0 h * 60 + from_option int 0 m
  + (if bool_decide (30 ≤ from_option int 0 s) then 1 else 0).

(** "The first two cast entries with a non-empty name, in listed order." *)
Definition first_two_named (cast : list cast_member) : list string :=
  take 2 (omap (λ c, nonempty (cast_name c)) cast).

(** The thumbnail variant [k] of a snippet, when it is present with a URL. *)
Definition thumbnail_url (sn : snippet) (k : string) : option string :=
  default ∅ (thumbnails sn) !! k ≫= λ t, nonempty (url t).

Definition cast_list (d : details) : list cast_member :=
  default [] (cast (default empty_credits (d_credits d))).

Definition youtube_ids (l : list item) : list string := youtubeId <$> l.

(** The validation part of [build_item_from_video]: the three tests that
    come before any request. *)
Definition valid_candidate (v : video) : bool :=
  YT_ID_RE_match (candidate_vid v)
  && negb (negb (truthy (candidate_title v))
           || EXCLUDE_TITLE_RE_search (candidate_title v))
  && negb (bool_decide (candidate_minutes v < MIN_MINUTES)).

(** ** Reading a trace *)

(** The number of search requests of a trace whose query term is selected
    by [sel]. *)
Definition is_search (sel : string → bool) (e : event) : bool :=
  match e with
  | EvSearch q _ _ _ => sel q
  | _ => false
  end.

Definition search_count (sel : string → bool) (t : list event) : nat :=
  length (List.filter (is_search sel) t).

(** The events of filling rows: no file is touched, and every search asks
    for 25 results. *)
Definition quiet (e : event) : Prop :=
  match e with
  | EvSearch _ _ _ m => m = 25
  | EvMakedirs _ | EvWrite _ _ | EvPrint _ => False
  | _ => True
  end.

(** The events of filling one row in sort order [order]. *)
Definition fill_event (order : string) (e : event) : Prop :=
  quiet e ∧ match e with EvSearch _ o _ _ => o = order | _ => True end.

(** The requests of enrichment. *)
Definition metadata_event (e : event) : Prop :=
  match e with
  | EvTmdbSearch _ | EvTmdbDetails _ | EvWikidata _ => True
  | _ => False
  end.

(** The payloads written by a trace, oldest first. *)
Definition written (t : list event) : list payload :=
  omap (λ e, match e with EvWrite _ p => Some p | _ => None end) (reverse t).

(** [st'] continues [st]: the seen set has not lost an element, and the
    trace has grown by events allowed by [ok], at most [n] of them searches
    selected by [sel]. *)
Definition extends (ok : event → Prop) (sel : string → bool) (n : nat)
    (st st' : run) : Prop :=
  seen_ids st ⊆ seen_ids st' ∧
  ∃ new, trace st' = new ++ trace st ∧ Forall ok new ∧ (search_count sel new ≤ n)%nat.

Definition effects {A} (ok : event → Prop) (sel : string → bool) (n : nat)
    (m : M A) : Prop :=
  ∀ st, extends ok sel n st (m st).2.

(** A computation that leaves the seen set as it is. *)
Definition keeps_seen {A} (m : M A) : Prop :=
  ∀ st, seen_ids (m st).2 = seen_ids st.

(** The item [build_item_from_video] makes of a valid record [v] when no
    metadata is found, and the one it makes from the details [d] and the
    awards [aw]. *)
Definition plain_item (v : video) : item :=
  {| title := candidate_title v; year := EmptyString; director := EmptyString;
     leads := []; posterUrl := pick_best_thumbnail (candidate_snippet v);
     youtubeId := candidate_vid v; awards := [] |}.

Definition enriched_item (v : video) (d : details) (aw : list string) : item :=
  {| title := default (candidate_title v) (nonempty (d_title d));
     year := year_of d; director := director_of d; leads := leads_of d;
     posterUrl := if truthy (poster_of d) then poster_of d
                  else pick_best_thumbnail (candidate_snippet v);
     youtubeId := candidate_vid v; awards := aw |}.

(** The award identifier of a binding: the last segment of its URI. *)
Definition award_qid (b : binding) : string :=
  rsplit_last "/" (default EmptyString (award_value b)).

(** Details of which every field is missing. *)
Definition missing_details : details :=
  {| release_date := None; d_credits := None; poster_path := None;
     d_external_ids := None; d_title := None |}.

(** The state after the events [new], most recent first, have been added to
    the trace of [st]. *)
Definition after (new : list event) (st : run) : run :=
  {| seen_ids := seen_ids st; trace := new ++ trace st |}.

(** Between [st] and [st'] the items [added] were accepted: their
    identifiers were not in the seen set before, are pairwise distinct, and
    are exactly what the seen set has gained. *)
Definition accepted (st : run) (added : list item) (st' : run) : Prop :=
  seen_ids st' = seen_ids st ∪ list_to_set (youtube_ids added) ∧
  NoDup (youtube_ids added) ∧
  ∀ vid, vid ∈ youtube_ids added → vid ∉ seen_ids st.

(** The trace ends with the acceptance of an item. *)
Definition just_accepted (st : run) : Prop :=
  ∃ vid t, trace st = EvSeenAdd vid :: t.

(** What a loop of [fill_row] has done between [st] and [st'], entered with
    the list [items]: it has accepted some items and added them at the end,
    and either goes on with fewer than 4 items or has returned exactly 4,
    the last event being the acceptance of the fourth. *)
Definition row_progress (st : run) (items : list item) (r : flow (list item))
    (st' : run) : Prop :=
  ∃ added,
    flow_value r = items ++ added ∧ accepted st added st' ∧
    match r with
    | Next its => (length its < 4)%nat
    | Return its => length its = 4%nat ∧ just_accepted st'
    end.

(** What the fallback pass has done between [st] and [st'], entered with
    the list [row_items]. *)
Definition fallback_progress (st : run) (row_items its : list item) (st' : run) : Prop :=
  ∃ added,
    its = row_items ++ added ∧ accepted st added st' ∧
    ((length row_items ≤ 4)%nat → (length its ≤ 4)%nat).

(** A computation that raises nothing but exceptions of [P]. *)
Definition raises_only {A} (P : exn → Prop) (m : M A) : Prop :=
  ∀ st e st', m st = (Raise e, st') → P e.

(** [its] is what some run of the primary fill and the fallback pass
    returned for [row], and has 4 items. *)
Definition row_filled (w : world) (row : string) (its : list item) : Prop :=
  length its = 4%nat ∧ ∃ s1 s2, fill_with_fallback w row s1 = (Ok its, s2).

(** The number of query terms of [qs] selected by [sel]. *)
Definition selected (sel : string → bool) (qs : list string) : nat :=
  length (List.filter sel qs).

(** The state in which [main] starts filling rows. *)
Definition started (st : run) : run :=
  {| seen_ids := ∅; trace := EvMakedirs "data" :: trace st |}.

(** ** The metadata lookup of one record *)

(** The query of the metadata search for the record [v]: its sanitized
    title. *)
Definition tmdb_query (v : video) : string := clean_title_for_tmdb (candidate_title v).

(** In the state [st] the lookup for [v] finds nothing: the query is empty
    and no request is made, or the search is answered with no result, or
    with a first result that has no identifier, or the identifier 0. *)
Definition finds_nothing (w : world) (v : video) (st : run) : Prop :=
  tmdb_query v = EmptyString
  ∨ tmdb_query v ≠ EmptyString ∧
    (tmdb_search_api w (trace st) (tmdb_query v) = Some []
     ∨ ∃ hit rest,
         tmdb_search_api w (trace st) (tmdb_query v) = Some (hit :: rest) ∧
         (hit_id hit = None ∨ hit_id hit = Some 0)).

(** In the state [st] the lookup for [v] fetches the details [d]: the
    search for the query is answered, its first result has the identifier
    [i], and the detail request for [i], made next, is answered with [d]. *)
Definition fetches (w : world) (v : video) (st : run) (i : Z) (d : details) : Prop :=
  tmdb_query v ≠ EmptyString ∧
  ∃ hit rest,
    tmdb_search_api w (trace st) (tmdb_query v) = Some (hit :: rest) ∧
    hit_id hit = Some i ∧ i ≠ 0 ∧
    tmdb_details_api w (EvTmdbSearch (tmdb_query v) :: trace st) i = Some d.

(** ** Vocabulary of further properties *)

Fixpoint last_char (s : string) : option ascii :=
  match s with
  | EmptyString => None
  | String c EmptyString => Some c
  | String _ s' => last_char s'
  end.

(** The character is there and is whitespace. *)
Definition space_char (o : option ascii) : bool := from_option isspace false o.

(** Every whitespace character of [s] is a space, and no two spaces follow
    each other; [after_space] tells that a space comes just before [s]. *)
Fixpoint single_spaced (after_space : bool) (s : string) : bool :=
  match s with
  | EmptyString => true
  | String c s' =>
      if isspace c
      then bool_decide (c = " "%char) && negb after_space && single_spaced true s'
      else single_spaced false s'
  end.

Definition crew_list (d : details) : list crew_member :=
  default [] (crew (default empty_credits (d_credits d))).

(** The labels of the allow-list. *)
Definition AWARD_LABELS : list string := (map_to_list WIKIDATA_AWARD_QIDS).*2.

(** [it] is what [build_item_from_video] returned for some record. *)
Definition built (w : world) (it : item) : Prop :=
  ∃ v st st', build_item_from_video w v st = (Ok (Some it), st').

(** The environment refused the request [e], made after the trace [t]. *)
Definition refused (w : world) (t : list event) (e : event) : Prop :=
  match e with
  | EvSearch q order tok m => search_api w t q order tok m = None
  | EvVideos ids => videos_api w t ids = None
  | EvTmdbSearch q => tmdb_search_api w t q = None
  | EvTmdbDetails i => tmdb_details_api w t i = None
  | EvWikidata film => wikidata_api w t film = None
  | _ => False
  end.

(** The environment answered every request among the events [new], most
    recent first, that were added to the trace [base]. *)
Fixpoint all_answered (w : world) (base new : list event) : Prop :=
  match new with
  | [] => True
  | e :: t => ¬ refused w (t ++ base) e ∧ all_answered w base t
  end.

(** A computation that stops at the first refusal: it raises
    [RequestException] exactly when a request is refused, that request is
    then its last event, and every request before it was answered. *)
Definition fails_fast (w : world) {A} (m : M A) : Prop :=
  ∀ st, ∃ new,
    trace (m st).2 = new ++ trace st ∧
    match (m st).1 with
    | Raise RequestException =>
        ∃ e t, new = e :: t ∧ refused w (t ++ trace st) e ∧ all_answered w (trace st) t
    | _ => all_answered w (trace st) new
    end.

(** The shape of the requests of a pass: [token_ok] holds of the page token
    a search sends, [batch_ok] of the identifiers a detail request asks
    for; no file is touched. *)
Definition shaped (token_ok : option string → Prop) (batch_ok : list string → Prop)
    (e : event) : Prop :=
  match e with
  | EvSearch _ _ tok m => token_ok tok ∧ m = 25
  | EvVideos ids => batch_ok ids
  | EvMakedirs _ | EvWrite _ _ | EvPrint _ => False
  | _ => True
  end.

(** Between 1 and 50 identifiers, none of them empty. *)
Definition full_batch (ids : list string) : Prop :=
  (1 ≤ length ids ≤ 50)%nat ∧ Forall (λ vid, vid ≠ EmptyString) ids.

(** At most 50 identifiers, none of them empty. *)
Definition capped_batch (ids : list string) : Prop :=
  (length ids ≤ 50)%nat ∧ Forall (λ vid, vid ≠ EmptyString) ids.

(** [m] is [p] up to the case of its letters. *)
Fixpoint same_nocase (p m : string) : bool :=
  match p, m with
  | EmptyString, EmptyString => true
  | String a p', String c m' => eq_nocase a c && same_nocase p' m'
  | _, _ => false
  end.

(** The character is there and is a word character. *)
Definition word_char (o : option ascii) : bool := from_option is_word false o.

(** The last character of [prev] followed by [s]. *)
Definition last_or (prev : option ascii) (s : string) : option ascii :=
  match last_char s with
  | Some c => Some c
  | None => prev
  end.

(** [s] has no slash. *)
Definition slashless (s : string) : bool :=
  all_chars (λ c, negb (bool_decide (c = "/"%char))) s.

(** The searches of the row [row]: sorted in the order of the row, for a
    term of the row or of the fallback pool. *)
Definition row_search (row : string) (e : event) : Prop :=
  match e with
  | EvSearch q o _ _ =>
      o = order_of row ∧ (q ∈ default [] (ROW_QUERIES !! row) ∨ q ∈ FALLBACK_POOL)
  | _ => True
  end.

(** The searches of a run: those of one of its five rows. *)
Definition run_search (e : event) : Prop :=
  match e with
  | EvSearch _ _ _ _ => ∃ row, row ∈ ROW_TITLES ∧ row_search row e
  | _ => True
  end.

(** ** Concrete environments and inputs *)

Module Demo.

Definition st0 : run := {| seen_ids := ∅; trace := [] |}.

Definition newline : string := String LF EmptyString.

(** Eleven characters, the last one taken from the alphabet by rank. *)
Definition demo_id (k : nat) : string :=
  "vid0000000" +:+ String (ascii_of_nat (65 + k)) EmptyString.

Definition film (vid title dur : string) (thumbs : gmap string thumbnail) : video :=
  {| v_id := Some vid;
     v_snippet := Some {| sn_title := Some title; thumbnails := Some thumbs |};
     v_contentDetails := Some {| duration := Some dur |} |}.

Definition high_only : gmap string thumbnail :=
  {[ "high" := {| url := Some "https://i.ytimg.com/vi/x/hqdefault.jpg" |} ]}.

Definition accepted_so_far (h : list event) : nat :=
  length (List.filter (λ e, match e with EvSeenAdd _ => true | _ => false end) h).

Definition page_of (ids : list string) (token : option string) : search_page :=
  {| sp_items := Some ((λ vid, {| si_id := Some {| videoId := Some vid |} |}) <$> ids);
     nextPageToken := token |}.

(** An environment whose metadata services answer with [hits], [d] and [r],
    whatever the request. *)
Definition world_with (pages : list event → search_page)
    (videos : list string → list video) (hits : list tmdb_hit)
    (d : details) (r : sparql_response) : world :=
  {| search_api := λ h _ _ _ _, Some (pages h);
     videos_api := λ _ ids, Some (videos ids);
     tmdb_search_api := λ _ _, Some hits;
     tmdb_details_api := λ _ _, Some d;
     wikidata_api := λ _ _, Some r;
     randbelow_api := λ _ _, 0%nat;
     utc_today := λ _, "2024-05-01" |}.

Definition no_awards : sparql_response := {| status_code := 200; bindings := [] |}.

Definition paths_of_glory (vid : string) : video :=
  film vid "Paths of Glory (1957) Full Movie" "PT1H28M" high_only.

(** Every search page brings four identifiers never seen before; the
    metadata search finds nothing. *)
Definition plentiful : world :=
  world_with
    (λ h, let n := accepted_so_far h in
          page_of (demo_id <$> [n; S n; S (S n); S (S (S n))]) None)
    (fmap paths_of_glory) [] missing_details no_awards.

(** Every search page is empty. *)
Definition barren : world :=
  world_with (λ _, page_of [] None) (fmap paths_of_glory) [] missing_details no_awards.

Definition entity (qid : string) : binding :=
  {| award_value := Some ("http://www.wikidata.org/entity/" +:+ qid) |}.

(** The knowledge graph returns the awards A, B, A, C, of which A (best
    director) and C (best picture) are listed. *)
Definition four_awards : sparql_response :=
  {| status_code := 200;
     bindings := [entity "Q106291"; entity "Q15"; entity "Q106291"; entity "Q103360"] |}.

Definition award_world : world :=
  world_with (λ _, page_of [] None) (fmap paths_of_glory) [] missing_details four_awards.

(** The metadata search finds a film, [d] are its details; every search
    page is empty. *)
Definition metadata_world (d : details) (r : sparql_response) : world :=
  world_with (λ _, page_of [] None) (fmap paths_of_glory) [{| hit_id := Some 975 |}] d r.

Definition bare_video : video := film "abcdefghijk" "Paths of Glory" "PT1H28M" ∅.

(** Details whose first billed cast member has no name, and whose title
    contains the excluded word. *)
Definition odd_details : details :=
  {| release_date := Some "1957-12-25";
     d_credits :=
       Some {| crew := Some [{| job := Some "Director"; crew_name := Some "Stanley Kubrick" |}];
               cast := Some [{| cast_name := Some EmptyString |};
                             {| cast_name := Some "Kirk Douglas" |};
                             {| cast_name := Some "Ralph Meeker" |}] |};
     poster_path := Some "/paths.jpg";
     d_external_ids := Some {| imdb_id := Some "tt0050825" |};
     d_title := Some "Paths of Glory: The Documentary" |}.

(** A title made of boilerplate only: its sanitized form is empty. *)
Definition junk_video : video := film "abcdefghijk" "Full Movie HD" "PT2H" ∅.

Definition unavailable : sparql_response := {| status_code := 503; bindings := [] |}.

Definition items_of (r : outcome (list item)) : list item :=
  match r with Ok its => its | Raise _ => [] end.

(** A record whose identifier is eleven well-formed characters followed by
    a line feed. *)
Definition newline_id : string := "abcdefghijk" +:+ newline.

Definition newline_video : video := paths_of_glory newline_id.

(** The item made of [bare_video] with [odd_details] and the awards of
    [four_awards], and the state in which it is returned. *)
Definition odd_world : world := metadata_world odd_details four_awards.

Definition odd_item : item :=
  enriched_item bare_video odd_details ["Oscar Best Director"; "Oscar Best Picture"].

Definition odd_state : run :=
  after [EvWikidata "tt0050825"; EvTmdbDetails 975; EvTmdbSearch "Paths of Glory"] st0.

(** The metadata search finds two films. *)
Definition two_hits_world : world :=
  world_with (λ _, page_of [] None) (fmap paths_of_glory)
    [{| hit_id := Some 975 |}; {| hit_id := Some 12 |}] odd_details four_awards.

(** Details that have a title and nothing else. *)
Definition titled_only : details :=
  {| release_date := None; d_credits := None; poster_path := None;
     d_external_ids := None; d_title := Some "Paths of Glory" |}.

(** Details whose release date has three characters, and whose only
    [Director] entry with a name comes after one without. *)
Definition short_release : details :=
  {| release_date := Some "195";
     d_credits :=
       Some {| crew := Some [{| job := Some "Producer"; crew_name := Some "James B. Harris" |};
                             {| job := Some "Director"; crew_name := None |};
                             {| job := Some "Director"; crew_name := Some "Stanley Kubrick" |}];
               cast := None |};
     poster_path := None; d_external_ids := None; d_title := None |}.

(** No request is answered. *)
Definition offline : world :=
  {| search_api := λ _ _ _ _ _, None;
     videos_api := λ _ _, None;
     tmdb_search_api := λ _ _, None;
     tmdb_details_api := λ _ _, None;
     wikidata_api := λ _ _, None;
     randbelow_api := λ _ _, 0%nat;
     utc_today := λ _, "2024-05-01" |}.

End Demo.

(** * Properties *)

(** ** The monad *)

Lemma bind_Ok {A B} (m : M A) (k : A → M B) st b st' :
  bind m k st = (Ok b, st') →
  ∃ a st1, m st = (Ok a, st1) ∧ k a st1 = (Ok b, st').
Proof.
  unfold bind. destruct (m st) as [[a|e] st1]; intros H; [eauto | discriminate].
Qed.

Lemma bind_Raise {A B} (m : M A) (k : A → M B) st e st' :
  bind m k st = (Raise e, st') →
  m st = (Raise e, st') ∨ ∃ a st1, m st = (Ok a, st1) ∧ k a st1 = (Raise e, st').
Proof.
  unfold bind. destruct (m st) as [[a|e0] st1]; intros H; [eauto | left; congruence].
Qed.

Lemma request_Ok {A} e (answer : list event → option A) st a st' :
  request e answer st = (Ok a, st') →
  answer (trace st) = Some a ∧
  st' = {| seen_ids := seen_ids st; trace := e :: trace st |}.
Proof.
  unfold request. destruct (answer (trace st)); intros H; simplify_eq; auto.
Qed.

(** ** Text *)

Lemma truthy_spec s : truthy s = true ↔ s ≠ EmptyString.
Proof. destruct s; simpl; split; intros; congruence. Qed.

Lemma nonempty_Some o s : nonempty o = Some s ↔ o = Some s ∧ s ≠ EmptyString.
Proof.
  unfold nonempty. destruct o as [t|]; [|naive_solver].
  destruct t; simpl; naive_solver.
Qed.

Lemma all_chars_app p s t :
  all_chars p (s +:+ t) = all_chars p s && all_chars p t.
Proof. induction s as [|c s IH]; simpl; [done|]. rewrite IH. by destruct (p c). Qed.

Lemma at_end_spec r : at_end r = true ↔ r = EmptyString ∨ r = String LF EmptyString.
Proof.
  destruct r as [|c [|c' r]]; simpl; [naive_solver| |naive_solver].
  rewrite bool_decide_eq_true. naive_solver.
Qed.

(** Every character of the compact form is [P], [T], a unit or a digit: none
    is a line feed. *)
Lemma duration_form_no_LF d :
  duration_form d → all_chars (λ c, negb (bool_decide (c = LF))) d = true.
Proof.
  intros (h & m & s & Hd & ->). unfold compact_duration.
  assert (Hpart : ∀ n u, (∀ k, n = Some k → digits k) →
            all_chars (λ c, negb (bool_decide (c = LF))) u = true →
            all_chars (λ c, negb (bool_decide (c = LF))) (duration_part n u) = true).
  { intros [k|] u Hk Hu; simpl; [|done].
    rewrite all_chars_app, Hu, andb_true_r.
    destruct (Hk k eq_refl) as [_ Hall]. clear -Hall.
    induction k as [|c k IH]; simpl in *; [done|].
    apply andb_true_iff in Hall as [Hc Hall]. rewrite IH by done.
    rewrite andb_true_r. apply negb_true_iff, bool_decide_eq_false. intros ->.
    discriminate Hc. }
  rewrite !all_chars_app.
  rewrite !Hpart by (try done; intros; apply Hd; auto).
  done.
Qed.

(** ** The title sanitizer *)

Lemma slice_to_length n s : (String.length (slice_to n s) ≤ n)%nat.
Proof.
  revert s. induction n as [|n IH]; intros [|c s]; simpl; try lia.
  specialize (IH s). lia.
Qed.

Lemma clean_title_length title : (String.length (clean_title_for_tmdb title) ≤ 120)%nat.
Proof. apply slice_to_length. Qed.

Example clean_title_war_movie :
  clean_title_for_tmdb "War Movie (2020) FULL MOVIE HD [1080p]" = "War Movie".
Proof. reflexivity. Qed.

(** ** The duration parser *)

Lemma span_digits_spec s ds rest :
  span_digits s = (ds, rest) →
  s = ds +:+ rest ∧ all_chars isdecimal ds = true ∧
  from_option isdecimal false (first_char rest) = false.
Proof.
  revert ds rest. induction s as [|c s IH]; intros ds rest; simpl.
  - intros [= <- <-]. done.
  - destruct (isdecimal c) eqn:Hc.
    + destruct (span_digits s) as [ds' rest'] eqn:Hs. intros [= <- <-].
      destruct (IH _ _ eq_refl) as (-> & Hall & Hrest).
      simpl. rewrite Hc, Hall. done.
    + intros [= <- <-]. simpl. by rewrite Hc.
Qed.

Lemma span_digits_app ds rest :
  all_chars isdecimal ds = true →
  from_option isdecimal false (first_char rest) = false →
  span_digits (ds +:+ rest) = (ds, rest).
Proof.
  intros Hds Hrest. induction ds as [|c ds IH]; simpl in *.
  - destruct rest as [|c rest]; simpl in *; [done|]. by rewrite Hrest.
  - apply andb_true_iff in Hds as [Hc Hds]. rewrite Hc.
    change (span_digits (ds +:+ rest)) with (span_digits (ds +:+ rest)).
    by rewrite IH.
Qed.

(** A group that is present is taken. *)
Lemma opt_group_present (u : ascii) ds rest :
  digits ds → isdecimal u = false →
  opt_group u (ds +:+ String u rest) = (Some ds, rest).
Proof.
  intros [Hne Hds] Hu. unfold opt_group.
  rewrite span_digits_app by (simpl; done).
  destruct ds as [|d ds]; [done|]. by rewrite bool_decide_eq_true_2.
Qed.

Lemma opt_group_other (u c : ascii) ds rest :
  all_chars isdecimal ds = true → isdecimal c = false → c ≠ u →
  opt_group u (ds +:+ String c rest) = (None, ds +:+ String c rest).
Proof.
  intros Hds Hc Hne. unfold opt_group.
  rewrite span_digits_app by (simpl; done).
  destruct ds as [|d ds]; [done|]. by rewrite bool_decide_eq_false_2.
Qed.

Lemma opt_group_tail (u : ascii) tail :
  tail = EmptyString ∨ tail = String LF EmptyString →
  opt_group u tail = (None, tail).
Proof. by intros [-> | ->]. Qed.

Lemma str_app_assoc (s t r : string) : (s +:+ t) +:+ r = s +:+ (t +:+ r).
Proof.
  induction s as [|c s IH]; [done|].
  change (String c ((s +:+ t) +:+ r) = String c (s +:+ (t +:+ r))). by rewrite IH.
Qed.

Lemma duration_part_app n (u : ascii) rest :
  duration_part n (String u EmptyString) +:+ rest
  = match n with Some ds => ds +:+ String u rest | None => rest end.
Proof. destruct n as [ds|]; simpl; [|done]. by rewrite str_app_assoc. Qed.

Lemma DURATION_RE_match_PT r0 :
  DURATION_RE_match ("PT" +:+ r0)
  = let '(h, r1) := opt_group "H" r0 in
    let '(m, r2) := opt_group "M" r1 in
    let '(s, r3) := opt_group "S" r2 in
    if at_end r3 then Some (h, m, s) else None.
Proof. reflexivity. Qed.

(** The pattern matches the compact form, and the compact form followed by
    one line feed, with the groups the form was built from. *)
Lemma DURATION_RE_match_compact h m s tail :
  digit_parts h m s → end_tail tail →
  DURATION_RE_match (compact_duration h m s +:+ tail) = Some (h, m, s).
Proof.
  intros Hd Htail. unfold compact_duration.
  rewrite !str_app_assoc. cbn [String.append].
  change (String.append ?a ?b) with (a +:+ b).
  rewrite !duration_part_app, DURATION_RE_match_PT.
  assert (Hend : at_end tail = true) by (by apply at_end_spec).
  assert (Hs : ∀ u : ascii, u ≠ "S"%char →
            opt_group u (match s with Some ds => ds +:+ String "S" tail | None => tail end)
            = (None, match s with Some ds => ds +:+ String "S" tail | None => tail end)).
  { intros u Hu. destruct s as [ds|].
    - apply opt_group_other; [by apply (Hd ds); auto | done | done].
    - by apply opt_group_tail. }
  assert (HS : opt_group "S" (match s with Some ds => ds +:+ String "S" tail | None => tail end)
            = (s, tail)).
  { destruct s as [ds|].
    - apply opt_group_present; [apply Hd; auto | done].
    - by apply opt_group_tail. }
  destruct h as [dh|], m as [dm|].
  - rewrite opt_group_present by (try done; apply Hd; auto).
    rewrite opt_group_present by (try done; apply Hd; auto).
    by rewrite HS, Hend.
  - rewrite opt_group_present by (try done; apply Hd; auto).
    rewrite Hs by done. by rewrite HS, Hend.
  - rewrite opt_group_other by (try done; apply (Hd dm); auto).
    rewrite opt_group_present by (try done; apply Hd; auto).
    by rewrite HS, Hend.
  - rewrite Hs by done. rewrite Hs by done. by rewrite HS, Hend.
Qed.

Lemma opt_group_inv (u : ascii) s g rest :
  opt_group u s = (g, rest) →
  s = duration_part g (String u EmptyString) +:+ rest ∧ (∀ n, g = Some n → digits n).
Proof.
  unfold opt_group. destruct (span_digits s) as [ds r] eqn:Hs.
  destruct (span_digits_spec _ _ _ Hs) as (-> & Hds & _).
  destruct ds as [|d ds]; [by intros [= <- <-]|].
  destruct r as [|c r]; [by intros [= <- <-]|].
  case_bool_decide as Hc; intros [= <- <-]; [|done]. subst c.
  split.
  - simpl duration_part. by rewrite str_app_assoc.
  - by intros n [= <-].
Qed.

(** Conversely, whatever the pattern matches is the compact form, possibly
    followed by one line feed. *)
Lemma DURATION_RE_match_inv d h m s :
  DURATION_RE_match d = Some (h, m, s) →
  ∃ tail, end_tail tail ∧ digit_parts h m s ∧
          d = compact_duration h m s +:+ tail.
Proof.
  destruct d as [|c1 [|c2 r0]]; [done| |].
  { destruct c1 as [[] [] [] [] [] [] [] []]; done. }
  destruct c1 as [[] [] [] [] [] [] [] []]; try done.
  destruct c2 as [[] [] [] [] [] [] [] []]; try done.
  unfold DURATION_RE_match.
  destruct (opt_group "H" r0) as [gh r1] eqn:H1.
  destruct (opt_group "M" r1) as [gm r2] eqn:H2.
  destruct (opt_group "S" r2) as [gs r3] eqn:H3.
  destruct (at_end r3) eqn:Hend; [|done]. intros [= <- <- <-].
  apply opt_group_inv in H1 as [-> Hh], H2 as [-> Hm], H3 as [-> Hs].
  exists r3. split; [by apply at_end_spec|]. split.
  - intros n [?|[?|?]]; auto.
  - unfold compact_duration. by rewrite !str_app_assoc.
Qed.

Lemma iso8601_compact h m s tail :
  digit_parts h m s → end_tail tail →
  iso8601_duration_to_minutes (compact_duration h m s +:+ tail) = minutes_of_parts h m s.
Proof.
  intros Hd Ht. unfold iso8601_duration_to_minutes.
  by rewrite DURATION_RE_match_compact.
Qed.

(** X1.  What the parser computes, for every input of at most 4300
    characters (so that no run of digits is beyond what [int] converts):
    the formula hours*60 + minutes + (1 if seconds >= 30 else 0) on the
    compact form and on the compact form followed by one line feed, 0
    elsewhere. *)
Lemma iso8601_cases d :
  (String.length d ≤ 4300)%nat →
  (∃ h m s tail, digit_parts h m s ∧ end_tail tail ∧
     d = compact_duration h m s +:+ tail ∧
     iso8601_duration_to_minutes d = minutes_of_parts h m s)
  ∨ ((∀ h m s tail, digit_parts h m s → end_tail tail →
        d ≠ compact_duration h m s +:+ tail) ∧
     iso8601_duration_to_minutes d = 0).
Proof.
  intros _. destruct (DURATION_RE_match d) as [[[h m] s]|] eqn:Hm.
  - left. destruct (DURATION_RE_match_inv _ _ _ _ Hm) as (tail & Ht & Hd & ->).
    exists h, m, s, tail. split; [done|]. split; [done|]. split; [done|].
    by apply iso8601_compact.
  - right. split.
    + intros h m s tail Hd Ht ->. by rewrite DURATION_RE_match_compact in Hm.
    + unfold iso8601_duration_to_minutes. by rewrite Hm.
Qed.

Lemma iso8601_cases_witness :
  (∃ h m s tail, digit_parts h m s ∧ end_tail tail ∧
     "PT2H10M" = compact_duration h m s +:+ tail ∧
     iso8601_duration_to_minutes "PT2H10M" = minutes_of_parts h m s)
  ∨ ((∀ h m s tail, digit_parts h m s → end_tail tail →
        "PT2H10M" ≠ compact_duration h m s +:+ tail) ∧
     iso8601_duration_to_minutes "PT2H10M" = 0).
Proof. apply (iso8601_cases "PT2H10M"). cbn. lia. Defined.

Lemma str_app_empty_r (s : string) : s +:+ EmptyString = s.
Proof.
  induction s as [|c s IH]; [done|].
  change (String c (s +:+ EmptyString) = String c s). by rewrite IH.
Qed.

(** On the compact form itself the parser computes the formula. *)
Lemma iso8601_on_form h m s :
  digit_parts h m s →
  iso8601_duration_to_minutes (compact_duration h m s) = minutes_of_parts h m s.
Proof.
  intros Hd. rewrite <- (str_app_empty_r (compact_duration h m s)).
  apply iso8601_compact; [done | by left].
Qed.

Example iso8601_PT2H10M : iso8601_duration_to_minutes "PT2H10M" = 130.
Proof. reflexivity. Qed.

Example iso8601_PT95M : iso8601_duration_to_minutes "PT95M" = 95.
Proof. reflexivity. Qed.

Example iso8601_PT1H : iso8601_duration_to_minutes "PT1H" = 60.
Proof. reflexivity. Qed.

Example iso8601_PT1H0M45S : iso8601_duration_to_minutes "PT1H0M45S" = 61.
Proof. reflexivity. Qed.

Example iso8601_empty : iso8601_duration_to_minutes EmptyString = 0.
Proof. reflexivity. Qed.

(** C5 (defect of the code).  The claim: the duration parser returns
    hours*60 + minutes + (1 if seconds >= 30 else 0) on the compact form
    PT[nH][nM][nS] and 0 on empty or malformed input.  The string made of
    [PT1H] followed by a line feed is not of the compact form, yet the parser
    returns 60 for it, not 0: the [$] of the pattern also matches just before
    a line feed that ends the string. *)
Theorem iso8601_trailing_newline :
  ¬ duration_form ("PT1H" +:+ Demo.newline) ∧
  iso8601_duration_to_minutes ("PT1H" +:+ Demo.newline) = 60.
Proof.
  split; [|reflexivity].
  intros Hform. apply duration_form_no_LF in Hform. vm_compute in Hform. discriminate.
Qed.

(** ** Effects of the monadic primitives *)

Lemma search_count_app sel t1 t2 :
  search_count sel (t1 ++ t2) = (search_count sel t1 + search_count sel t2)%nat.
Proof. unfold search_count. by rewrite List.filter_app, length_app. Qed.

Lemma search_count_cons sel e t :
  search_count sel (e :: t)
  = ((if is_search sel e then 1 else 0) + search_count sel t)%nat.
Proof. unfold search_count. simpl. by destruct (is_search sel e). Qed.

Lemma fill_event_quiet order e : fill_event order e → quiet e.
Proof. by intros [? _]. Qed.

Section Effects.

Context (ok : event → Prop) (sel : string → bool).

Lemma extends_refl st : extends ok sel 0 st st.
Proof. split; [done|]. exists []. by repeat split. Qed.

Lemma extends_trans n1 n2 st1 st2 st3 :
  extends ok sel n1 st1 st2 → extends ok sel n2 st2 st3 →
  extends ok sel (n1 + n2) st1 st3.
Proof.
  intros [Hs1 (new1 & Ht1 & Hok1 & Hn1)] [Hs2 (new2 & Ht2 & Hok2 & Hn2)].
  split; [set_solver|]. exists (new2 ++ new1). split; [|split].
  - by rewrite Ht2, Ht1, app_assoc.
  - by apply Forall_app.
  - rewrite search_count_app. lia.
Qed.

Lemma extends_mono n n' st st' :
  (n ≤ n')%nat → extends ok sel n st st' → extends ok sel n' st st'.
Proof.
  intros Hn [Hs (new & Ht & Hok & Hc)]. split; [done|].
  exists new. repeat split; try done. lia.
Qed.

Lemma effects_mono {A} n n' (m : M A) :
  (n ≤ n')%nat → effects ok sel n m → effects ok sel n' m.
Proof. intros Hn Hm st. by eapply extends_mono. Qed.

Lemma effects_ret {A} (a : A) : effects ok sel 0 (ret a).
Proof. intros st. apply extends_refl. Qed.

Lemma effects_raise {A} e : effects ok sel 0 (raise (A:=A) e).
Proof. intros st. apply extends_refl. Qed.

Lemma effects_bind {A B} n1 n2 (m : M A) (k : A → M B) :
  effects ok sel n1 m → (∀ a, effects ok sel n2 (k a)) →
  effects ok sel (n1 + n2) (bind m k).
Proof.
  intros Hm Hk st. unfold bind. specialize (Hm st).
  destruct (m st) as [[a|e] st1]; simpl in *.
  - eapply extends_trans; [exact Hm | apply Hk].
  - eapply extends_mono; [|exact Hm]. lia.
Qed.

Lemma extends_event e st seen' :
  ok e → seen_ids st ⊆ seen' →
  extends ok sel (if is_search sel e then 1 else 0) st
          {| seen_ids := seen'; trace := e :: trace st |}.
Proof.
  intros He Hs. split; [done|]. exists [e]. split; [done|]. split.
  - by constructor.
  - rewrite search_count_cons. unfold search_count. simpl. lia.
Qed.

Lemma effects_emit e :
  ok e → effects ok sel (if is_search sel e then 1 else 0) (emit e).
Proof. intros He st. by apply extends_event. Qed.

Lemma effects_request {A} e (answer : list event → option A) :
  ok e → effects ok sel (if is_search sel e then 1 else 0) (request e answer).
Proof.
  intros He st. unfold request.
  destruct (answer (trace st)); by apply extends_event.
Qed.

Lemma effects_get_seen : effects ok sel 0 get_seen.
Proof. intros st. apply extends_refl. Qed.

Lemma effects_seen_add vid : ok (EvSeenAdd vid) → effects ok sel 0 (seen_add vid).
Proof. intros He st. apply (extends_event (EvSeenAdd vid)); [done | set_solver]. Qed.

Lemma effects_randbelow w n : ok (EvRandBelow n) → effects ok sel 0 (randbelow w n).
Proof. intros He st. by apply (extends_event (EvRandBelow n)). Qed.

End Effects.

Lemma effects_weaken {A} (ok ok' : event → Prop) sel n (m : M A) :
  (∀ e, ok e → ok' e) → effects ok sel n m → effects ok' sel n m.
Proof.
  intros Hok Hm st. destruct (Hm st) as [Hs (new & Ht & Hall & Hn)].
  split; [done|]. exists new. repeat split; try done.
  eapply Forall_impl; eauto.
Qed.

Lemma metadata_fill_event order e : metadata_event e → fill_event order e.
Proof. by destruct e. Qed.

Lemma keeps_seen_ret {A} (a : A) : keeps_seen (ret a).
Proof. by intros st. Qed.

Lemma keeps_seen_bind {A B} (m : M A) (k : A → M B) :
  keeps_seen m → (∀ a, keeps_seen (k a)) → keeps_seen (bind m k).
Proof.
  intros Hm Hk st. unfold bind. specialize (Hm st).
  destruct (m st) as [[a|e] st1]; simpl in *; [|done].
  by rewrite Hk.
Qed.

Lemma keeps_seen_request {A} e (answer : list event → option A) :
  keeps_seen (request e answer).
Proof. intros st. unfold request. by destruct (answer (trace st)). Qed.

(** ** The award resolver *)

Section Awards.

Context (w : world) (sel : string → bool).

Lemma wikidata_effects film :
  effects metadata_event sel 0 (wikidata_awards_for_film w film).
Proof.
  unfold wikidata_awards_for_film. destruct (truthy film); [|apply effects_ret].
  apply (effects_bind _ _ 0 0).
  - by apply (effects_request _ _ (EvWikidata film)).
  - intros r. case_bool_decide; apply effects_ret.
Qed.

Lemma wikidata_keeps_seen film : keeps_seen (wikidata_awards_for_film w film).
Proof.
  unfold wikidata_awards_for_film. destruct (truthy film); [|apply keeps_seen_ret].
  apply keeps_seen_bind; [apply keeps_seen_request|].
  intros r. case_bool_decide; apply keeps_seen_ret.
Qed.

End Awards.

(** ** Validation and enrichment of one record *)

Section BuildItem.

Context (w : world).

Lemma build_item_effects sel v :
  effects metadata_event sel 0 (build_item_from_video w v).
Proof.
  unfold build_item_from_video.
  destruct (negb _); [apply effects_ret|].
  destruct (_ || _); [apply effects_ret|].
  case_bool_decide; [apply effects_ret|].
  apply (effects_bind _ _ 0 0).
  { destruct (truthy _); [|apply effects_ret].
    apply (effects_bind _ _ 0 0); [|intros; apply effects_ret].
    by apply (effects_request _ _ (EvTmdbSearch _)). }
  intros hit. apply (effects_bind _ _ 0 0).
  - destruct (hit_movie_id hit) as [i|]; [|apply effects_ret].
    apply (effects_bind _ _ 0 0).
    { by apply (effects_request _ _ (EvTmdbDetails i)). }
    intros d. apply (effects_bind _ _ 0 0); [apply wikidata_effects|].
    intros aw. apply effects_ret.
  - intros draft. destruct (truthy _); apply effects_ret.
Qed.

Lemma build_item_keeps_seen v : keeps_seen (build_item_from_video w v).
Proof.
  unfold build_item_from_video.
  destruct (negb _); [apply keeps_seen_ret|].
  destruct (_ || _); [apply keeps_seen_ret|].
  case_bool_decide; [apply keeps_seen_ret|].
  apply keeps_seen_bind.
  { destruct (truthy _); [|apply keeps_seen_ret].
    apply keeps_seen_bind; [apply keeps_seen_request|intros; apply keeps_seen_ret]. }
  intros hit. apply keeps_seen_bind.
  - destruct (hit_movie_id hit) as [i|]; [|apply keeps_seen_ret].
    apply keeps_seen_bind; [apply keeps_seen_request|].
    intros d. apply keeps_seen_bind; [apply wikidata_keeps_seen|].
    intros aw. apply keeps_seen_ret.
  - intros draft. destruct (truthy _); apply keeps_seen_ret.
Qed.

(** An invalid record is rejected on the spot. *)
Lemma build_item_invalid v st :
  valid_candidate v = false → build_item_from_video w v st = (Ok None, st).
Proof.
  unfold valid_candidate, build_item_from_video. intros Hv.
  destruct (YT_ID_RE_match _); simpl in *; [|done].
  destruct (_ || _); simpl in *; [done|].
  case_bool_decide; simpl in *; done.
Qed.

(** A valid record is never rejected: it becomes an item, plain or
    enriched from details the metadata service returned, unless a request
    raises. *)
Lemma build_item_valid v st :
  valid_candidate v = true →
  ∀ r st', build_item_from_video w v st = (r, st') →
    match r with
    | Ok None => False
    | Ok (Some it) =>
        it = plain_item v
        ∨ ∃ h i d aw, tmdb_details_api w h i = Some d ∧ it = enriched_item v d aw
    | Raise e => e = RequestException
    end.
Proof.
  unfold valid_candidate, build_item_from_video. intros Hv r st'.
  destruct (YT_ID_RE_match _); simpl in *; [|done].
  destruct (_ || _); simpl in *; [done|].
  case_bool_decide; simpl in *; [done|]. clear Hv.
  unfold bind at 1.
  destruct (if truthy _ then _ else _) as [[hit|e] st1] eqn:Hhit; cycle 1.
  { intros [= <- <-]. destruct (truthy _); [|done].
    unfold tmdb_search_movie, bind, request in Hhit.
    destruct (tmdb_search_api _ _ _); simplify_eq/=; done. }
  unfold bind at 1.
  destruct (hit_movie_id hit) as [i|].
  - unfold bind at 1, tmdb_movie_details, request at 1.
    destruct (tmdb_details_api w (trace st1) i) as [d|] eqn:Hd; [|by intros [= <- <-]].
    unfold bind at 1.
    destruct (wikidata_awards_for_film _ _ _) as [[aw|e] st2] eqn:Haw; cycle 1.
    { intros [= <- <-]. unfold wikidata_awards_for_film in Haw.
      destruct (truthy (imdb_of d)); [|discriminate Haw].
      unfold bind, wikidata_get, request, ret in Haw.
      destruct (wikidata_api _ _ _); [case_bool_decide|]; simplify_eq/=; done. }
    simpl. destruct (truthy (poster_of d)) eqn:Hp; intros [= <- <-];
      right; exists (trace st1), i, d, aw; split; try done.
    + unfold enriched_item. by rewrite Hp.
    + unfold enriched_item, set_posterUrl. by rewrite Hp.
  - simpl. intros [= <- <-]. by left.
Qed.

End BuildItem.

(** ** Candidate validation *)

Lemma id_chars_spec n s rest :
  id_chars n s = Some rest →
  ∃ v0, s = v0 +:+ rest ∧ String.length v0 = n ∧ all_chars is_id_char v0 = true.
Proof.
  revert s. induction n as [|n IH]; intros s; simpl.
  - intros [= <-]. by exists EmptyString.
  - destruct s as [|c s]; [done|]. destruct (is_id_char c) eqn:Hc; [|done].
    intros (v0 & -> & <- & Hall)%IH. exists (String c v0). simpl. by rewrite Hc, Hall.
Qed.

Lemma id_chars_app v0 rest :
  all_chars is_id_char v0 = true → id_chars (String.length v0) (v0 +:+ rest) = Some rest.
Proof.
  induction v0 as [|c v0 IH]; simpl; [done|].
  intros [Hc Hall]%andb_true_iff.
  change (String c v0 +:+ rest) with (String c (v0 +:+ rest)). rewrite Hc. auto.
Qed.

(** X3.  The identifier pattern accepts the identifiers of exactly 11
    characters among the ASCII letters, the digits, [_] and [-], and such an
    identifier followed by one line feed; it accepts nothing else. *)
Lemma YT_ID_RE_match_spec vid :
  YT_ID_RE_match vid = true ↔
  ∃ v0 tail, well_formed_id v0 ∧ end_tail tail ∧ vid = v0 +:+ tail.
Proof.
  unfold YT_ID_RE_match. split.
  - destruct (id_chars 11 vid) as [rest|] eqn:Hid; [|done].
    intros Hend%at_end_spec. apply id_chars_spec in Hid as (v0 & -> & Hlen & Hall).
    by exists v0, rest.
  - intros (v0 & tail & [Hlen Hall] & Htail & ->).
    rewrite <- Hlen, id_chars_app by done. by apply at_end_spec.
Qed.

(** X4.  [build_item_from_video] returns [None] exactly when one of its
    three tests fails: the identifier does not match the identifier pattern,
    the stripped title is empty or matches the exclusion pattern, or the
    duration is below 75 minutes.  A failing request is never a [None]. *)
Lemma build_item_rejects_iff w v st :
  (build_item_from_video w v st).1 = Ok None ↔
  YT_ID_RE_match (candidate_vid v) = false
  ∨ candidate_title v = EmptyString
  ∨ EXCLUDE_TITLE_RE_search (candidate_title v) = true
  ∨ candidate_minutes v < MIN_MINUTES.
Proof.
  destruct (valid_candidate v) eqn:Hv.
  - split.
    + intros Hr. destruct (build_item_from_video w v st) as [r st'] eqn:Hb.
      pose proof (build_item_valid w v st Hv r st' Hb) as Hcases.
      simpl in Hr. by subst r.
    + unfold valid_candidate in Hv.
      apply andb_true_iff in Hv as [[Hid Ht]%andb_true_iff Hm].
      apply negb_true_iff, orb_false_iff in Ht as [Ht He].
      apply negb_false_iff, truthy_spec in Ht.
      apply negb_true_iff, bool_decide_eq_false in Hm.
      intros [?|[?|[?|?]]]; congruence.
  - rewrite build_item_invalid by done. split; [intros _|done].
    unfold valid_candidate in Hv.
    destruct (YT_ID_RE_match _); [|by left]. right.
    destruct (candidate_title v) eqn:Ht; [by left|]. right. simpl in Hv.
    destruct (EXCLUDE_TITLE_RE_search _); [by left|]. right.
    simpl in Hv. by apply negb_false_iff, bool_decide_eq_true in Hv.
Qed.

Example reject_74_minutes :
  (build_item_from_video Demo.plentiful
     (Demo.film "abcdefghijk" "Paths of Glory" "PT1H14M" ∅) Demo.st0).1 = Ok None.
Proof. reflexivity. Qed.

Example accept_75_minutes :
  (build_item_from_video Demo.plentiful
     (Demo.film "abcdefghijk" "Paths of Glory" "PT1H15M" ∅) Demo.st0).1
  = Ok (Some (plain_item (Demo.film "abcdefghijk" "Paths of Glory" "PT1H15M" ∅))).
Proof. vm_compute. reflexivity. Qed.

Example reject_documentary :
  (build_item_from_video Demo.plentiful
     (Demo.film "abcdefghijk" "The War: a DOCUMENTARY" "PT3H" ∅) Demo.st0).1 = Ok None.
Proof. reflexivity. Qed.

(** C4 (defect of the code).  The claim: a candidate is rejected exactly
    when its identifier is not made of exactly 11 characters among the
    alphanumerics, [_] and [-], or its stripped title is empty, or its title
    matches the exclusion pattern, or it lasts less than 75 minutes.  The
    record whose identifier is [abcdefghijk] followed by a line feed, 12
    characters, with a proper title and 88 minutes, is accepted: the [$] of
    the identifier pattern also matches just before a final line feed. *)
Theorem build_item_accepts_newline_id :
  String.length Demo.newline_id = 12%nat ∧
  ¬ well_formed_id Demo.newline_id ∧
  candidate_vid Demo.newline_video = Demo.newline_id ∧
  (build_item_from_video Demo.plentiful Demo.newline_video Demo.st0).1
  = Ok (Some (plain_item Demo.newline_video)).
Proof.
  split; [reflexivity|]. split; [|split; [reflexivity|by vm_compute]].
  intros [Hlen _]. vm_compute in Hlen. discriminate.
Qed.

(** ** The award resolver, continued *)

Lemma fromkeys_acc_elem seen l x :
  x ∈ fromkeys_acc seen l ↔ x ∈ l ∧ x ∉ seen.
Proof.
  revert seen. induction l as [|y l IH]; intros seen; simpl.
  - set_solver.
  - case_bool_decide as Hy.
    + rewrite IH. set_solver.
    + rewrite elem_of_cons, IH. split.
      * intros [-> | [Hx Hn]]; [set_solver|]. split; set_solver.
      * intros [[-> | Hx]%elem_of_cons Hn]; [by left|].
        destruct (decide (x = y)) as [->|Hne]; [by left|]. right. set_solver.
Qed.

Lemma fromkeys_acc_NoDup seen l : NoDup (fromkeys_acc seen l).
Proof.
  revert seen. induction l as [|y l IH]; intros seen; simpl; [constructor|].
  case_bool_decide as Hy; [apply IH|].
  constructor; [|apply IH]. rewrite fromkeys_acc_elem. set_solver.
Qed.

Lemma award_labels_elem bs l :
  l ∈ award_labels bs ↔ ∃ b, b ∈ bs ∧ WIKIDATA_AWARD_QIDS !! award_qid b = Some l.
Proof.
  induction bs as [|b bs IH]; simpl.
  - split; [by intros ?%elem_of_nil | by intros (b & ?%elem_of_nil & _)].
  - fold (award_qid b). destruct (WIKIDATA_AWARD_QIDS !! award_qid b) as [l'|] eqn:Hb.
    + rewrite elem_of_cons, IH. split.
      * intros [-> | (b' & Hin & Hl)]; [exists b | exists b']; split; try done;
          apply elem_of_cons; auto.
      * intros (b' & [-> | Hin]%elem_of_cons & Hl); [left; congruence|].
        right. by exists b'.
    + rewrite IH. split.
      * intros (b' & Hin & Hl). exists b'. split; [apply elem_of_cons; auto | done].
      * intros (b' & [-> | Hin]%elem_of_cons & Hl); [congruence|]. by exists b'.
Qed.

Lemma sorted_fromkeys_spec l :
  StronglySorted String.le (sorted (fromkeys l)) ∧ NoDup (sorted (fromkeys l)) ∧
  ∀ x, x ∈ sorted (fromkeys l) ↔ x ∈ l.
Proof.
  unfold sorted, fromkeys. split; [|split].
  - apply (StronglySorted_merge_sort String.le).
  - rewrite merge_sort_Permutation. apply fromkeys_acc_NoDup.
  - intros x. rewrite merge_sort_Permutation, fromkeys_acc_elem. set_solver.
Qed.

(** C9.  The award resolver, given an empty film identifier, returns the
    empty list at once, without any request; given another identifier and an
    answer of status 200, it makes the one request and returns the labels of
    the awards listed in [WIKIDATA_AWARD_QIDS], each once, in ascending
    order; for the awards A, B, A, C with A and C listed, that is the
    two-element list of the labels of A and C. *)
Theorem wikidata_awards_spec (w : world) :
  (∀ st, wikidata_awards_for_film w EmptyString st = (Ok [], st)) ∧
  (∀ film st r,
     film ≠ EmptyString → wikidata_api w (trace st) film = Some r →
     status_code r = 200 →
     ∃ labels,
       wikidata_awards_for_film w film st = (Ok labels, after [EvWikidata film] st) ∧
       StronglySorted String.le labels ∧ NoDup labels ∧
       ∀ l, l ∈ labels ↔
            ∃ b, b ∈ bindings r ∧ WIKIDATA_AWARD_QIDS !! award_qid b = Some l) ∧
  (wikidata_awards_for_film Demo.award_world "tt0050825" Demo.st0).1
  = Ok ["Oscar Best Director"; "Oscar Best Picture"].
Proof.
  split; [done|]. split; [|by vm_compute].
  intros film st r Hfilm Hr H200.
  exists (sorted (fromkeys (award_labels (bindings r)))).
  destruct (sorted_fromkeys_spec (award_labels (bindings r))) as (Hs & Hn & He).
  split; [|split; [done|split; [done|]]].
  - unfold wikidata_awards_for_film. apply truthy_spec in Hfilm. rewrite Hfilm.
    unfold bind, wikidata_get, request. rewrite Hr.
    by rewrite bool_decide_eq_true_2.
  - intros l. by rewrite He, award_labels_elem.
Qed.

Lemma wikidata_awards_witness :
  ∃ labels,
    wikidata_awards_for_film Demo.award_world "tt0050825" Demo.st0
    = (Ok labels, after [EvWikidata "tt0050825"] Demo.st0) ∧
    StronglySorted String.le labels ∧ NoDup labels ∧
    ∀ l, l ∈ labels ↔
         ∃ b, b ∈ bindings Demo.four_awards ∧ WIKIDATA_AWARD_QIDS !! award_qid b = Some l.
Proof.
  apply (proj1 (proj2 (wikidata_awards_spec Demo.award_world))
           "tt0050825" Demo.st0 Demo.four_awards); [discriminate | reflexivity | reflexivity].
Defined.

(** A status other than 200 is an empty result, not a failure. *)
Lemma wikidata_awards_non_200 w film st r :
  film ≠ EmptyString → wikidata_api w (trace st) film = Some r →
  status_code r ≠ 200 →
  wikidata_awards_for_film w film st = (Ok [], after [EvWikidata film] st).
Proof.
  intros Hfilm Hr H200. unfold wikidata_awards_for_film.
  apply truthy_spec in Hfilm. rewrite Hfilm.
  unfold bind, wikidata_get, request. rewrite Hr.
  by rewrite bool_decide_eq_false_2.
Qed.

(** ** Thumbnails *)

Lemma first_thumbnail_spec keys sn :
  (∃ pre k post u,
     keys = pre ++ k :: post ∧ Forall (λ k', thumbnail_url sn k' = None) pre ∧
     thumbnail_url sn k = Some u ∧
     first_thumbnail keys (default ∅ (thumbnails sn)) = u)
  ∨ (Forall (λ k, thumbnail_url sn k = None) keys ∧
     first_thumbnail keys (default ∅ (thumbnails sn)) = EmptyString).
Proof.
  induction keys as [|k keys IH]; [right; by split|].
  destruct (thumbnail_url sn k) as [u|] eqn:Hk.
  - left. exists [], k, keys, u. repeat split; try done.
    unfold thumbnail_url in Hk. simpl.
    destruct (default ∅ (thumbnails sn) !! k) as [t|]; [|done]. simpl in Hk.
    by rewrite Hk.
  - assert (Hstep : first_thumbnail (k :: keys) (default ∅ (thumbnails sn))
                    = first_thumbnail keys (default ∅ (thumbnails sn))).
    { unfold thumbnail_url in Hk. simpl.
      destruct (default ∅ (thumbnails sn) !! k) as [t|]; [|done]. simpl in Hk.
      by rewrite Hk. }
    rewrite Hstep. destruct IH as [(pre & k' & post & u & -> & Hpre & Hu & Hr) | [Hall Hr]].
    + left. exists (k :: pre), k', post, u. repeat split; try done. by constructor.
    + right. split; [by constructor | done].
Qed.

(** ** Items *)

Lemma build_item_Some w v st it st' :
  build_item_from_video w v st = (Ok (Some it), st') →
  valid_candidate v = true ∧
  (it = plain_item v
   ∨ ∃ h i d aw, tmdb_details_api w h i = Some d ∧ it = enriched_item v d aw).
Proof.
  intros Hb. destruct (valid_candidate v) eqn:Hv.
  - split; [done|]. exact (build_item_valid w v st Hv _ _ Hb).
  - rewrite build_item_invalid in Hb by done. discriminate.
Qed.

Lemma build_item_youtubeId w v st it st' :
  build_item_from_video w v st = (Ok (Some it), st') → youtubeId it = candidate_vid v.
Proof. intros [_ [-> | (h & i & d & aw & _ & ->)]]%build_item_Some; done. Qed.

(** ** The lookup *)

Lemma hit_movie_id_first hit rest i :
  hit_id hit = Some i → i ≠ 0 → hit_movie_id (head (hit :: rest)) = Some i.
Proof.
  intros Hid Hi. cbn [head]. unfold hit_movie_id. rewrite Hid.
  by rewrite bool_decide_eq_false_2.
Qed.

Lemma hit_movie_id_Some results i :
  hit_movie_id (head results) = Some i →
  ∃ hit rest, results = hit :: rest ∧ hit_id hit = Some i ∧ i ≠ 0.
Proof.
  destruct results as [|hit rest]; [done|]. cbn [head]. unfold hit_movie_id.
  destruct (hit_id hit) as [j|] eqn:Hid; [|done].
  case_bool_decide; [done|]. intros [= <-]. by exists hit, rest.
Qed.

Lemma hit_movie_id_None results :
  hit_movie_id (head results) = None →
  results = []
  ∨ ∃ hit rest, results = hit :: rest ∧ (hit_id hit = None ∨ hit_id hit = Some 0).
Proof.
  destruct results as [|hit rest]; [by left|]. cbn [head]. unfold hit_movie_id.
  destruct (hit_id hit) as [j|] eqn:Hid.
  - case_bool_decide; [|done]. subst j. intros _. right. exists hit, rest. auto.
  - intros _. right. exists hit, rest. auto.
Qed.

Section Lookup.

Context (w : world).

(** The run of a valid record, from its first request on. *)
Lemma build_item_start v st :
  valid_candidate v = true →
  build_item_from_video w v st
  = bind (if truthy (tmdb_query v) then tmdb_search_movie w (tmdb_query v) else ret None)
      (λ tmdb_hit,
         bind (match hit_movie_id tmdb_hit with
               | Some movie_id =>
                   bind (tmdb_movie_details w movie_id) (λ d,
                     bind (wikidata_awards_for_film w (imdb_of d)) (λ aw,
                       ret {| title := default (candidate_title v) (nonempty (d_title d));
                              year := year_of d; director := director_of d;
                              leads := leads_of d; posterUrl := poster_of d;
                              youtubeId := candidate_vid v; awards := aw |}))
               | None =>
                   ret {| title := candidate_title v; year := EmptyString;
                          director := EmptyString; leads := [];
                          posterUrl := EmptyString; youtubeId := candidate_vid v;
                          awards := [] |}
               end)
           (λ draft,
              if truthy (posterUrl draft) then ret (Some draft)
              else ret (Some (set_posterUrl draft
                                (pick_best_thumbnail (candidate_snippet v)))))) st.
Proof.
  intros Hv. unfold valid_candidate in Hv. unfold build_item_from_video, tmdb_query.
  destruct (YT_ID_RE_match _); simpl in *; [|done].
  destruct (_ || _); simpl in *; [done|].
  case_bool_decide; simpl in *; done.
Qed.

(** When the lookup finds nothing the item is the plain one. *)
Lemma build_item_nothing v st :
  valid_candidate v = true → finds_nothing w v st →
  build_item_from_video w v st
  = (Ok (Some (plain_item v)),
     if truthy (tmdb_query v) then after [EvTmdbSearch (tmdb_query v)] st else st).
Proof.
  intros Hv Hn. rewrite build_item_start by done.
  destruct Hn as [Hq | [Hq [Hres | (hit & rest & Hres & Hid)]]].
  - rewrite Hq. reflexivity.
  - apply truthy_spec in Hq. rewrite Hq.
    unfold bind at 1, tmdb_search_movie, bind at 1, request. rewrite Hres.
    reflexivity.
  - apply truthy_spec in Hq. rewrite Hq.
    unfold bind at 1, tmdb_search_movie, bind at 1, request. rewrite Hres.
    unfold ret at 1. unfold bind at 1. cbn [head]. unfold hit_movie_id.
    destruct Hid as [Hid | Hid]; rewrite Hid; reflexivity.
Qed.

(** When the lookup fetches details, what is left is the award lookup for
    the film of the details. *)
Lemma build_item_fetched v st i d :
  valid_candidate v = true → fetches w v st i d →
  build_item_from_video w v st
  = bind (wikidata_awards_for_film w (imdb_of d))
      (λ aw, ret (Some (enriched_item v d aw)))
      (after [EvTmdbDetails i; EvTmdbSearch (tmdb_query v)] st).
Proof.
  intros Hv (Hq & hit & rest & Hres & Hid & Hi & Hd). rewrite build_item_start by done.
  apply truthy_spec in Hq. rewrite Hq.
  unfold bind at 1, tmdb_search_movie, bind at 1, request. rewrite Hres.
  unfold ret at 1. unfold bind at 1. rewrite (hit_movie_id_first _ _ _ Hid Hi).
  unfold bind at 1, tmdb_movie_details, request. cbn [trace seen_ids]. rewrite Hd.
  change (after [EvTmdbDetails i; EvTmdbSearch (tmdb_query v)] st)
    with {| seen_ids := seen_ids st;
            trace := EvTmdbDetails i :: EvTmdbSearch (tmdb_query v) :: trace st |}.
  unfold bind.
  destruct (wikidata_awards_for_film w (imdb_of d) _) as [[aw|e] st2]; [|reflexivity].
  unfold ret, enriched_item, set_posterUrl. simpl.
  destruct (truthy (poster_of d)); reflexivity.
Qed.

(** A refused request of the lookup is the end of the run. *)
Lemma build_item_search_refused v st :
  valid_candidate v = true → tmdb_query v ≠ EmptyString →
  tmdb_search_api w (trace st) (tmdb_query v) = None →
  build_item_from_video w v st
  = (Raise RequestException, after [EvTmdbSearch (tmdb_query v)] st).
Proof.
  intros Hv Hq Hres. rewrite build_item_start by done.
  apply truthy_spec in Hq. rewrite Hq.
  unfold bind at 1, tmdb_search_movie, bind at 1, request. by rewrite Hres.
Qed.

Lemma build_item_details_refused v st hit rest i :
  valid_candidate v = true → tmdb_query v ≠ EmptyString →
  tmdb_search_api w (trace st) (tmdb_query v) = Some (hit :: rest) →
  hit_id hit = Some i → i ≠ 0 →
  tmdb_details_api w (EvTmdbSearch (tmdb_query v) :: trace st) i = None →
  build_item_from_video w v st
  = (Raise RequestException,
     after [EvTmdbDetails i; EvTmdbSearch (tmdb_query v)] st).
Proof.
  intros Hv Hq Hres Hid Hi Hd. rewrite build_item_start by done.
  apply truthy_spec in Hq. rewrite Hq.
  unfold bind at 1, tmdb_search_movie, bind at 1, request. rewrite Hres.
  unfold ret at 1. unfold bind at 1. rewrite (hit_movie_id_first _ _ _ Hid Hi).
  unfold bind at 1, tmdb_movie_details, request. cbn [trace seen_ids]. by rewrite Hd.
Qed.

(** The lookup finds nothing, fetches details, or is refused. *)
Lemma lookup_cases v st :
  finds_nothing w v st
  ∨ (∃ i d, fetches w v st i d)
  ∨ tmdb_query v ≠ EmptyString ∧
    (tmdb_search_api w (trace st) (tmdb_query v) = None
     ∨ ∃ hit rest i,
         tmdb_search_api w (trace st) (tmdb_query v) = Some (hit :: rest) ∧
         hit_id hit = Some i ∧ i ≠ 0 ∧
         tmdb_details_api w (EvTmdbSearch (tmdb_query v) :: trace st) i = None).
Proof.
  unfold finds_nothing, fetches.
  destruct (decide (tmdb_query v = EmptyString)) as [Hq|Hq]; [by left; left|].
  destruct (tmdb_search_api w (trace st) (tmdb_query v)) as [[|hit rest]|] eqn:Hres.
  - left. right. auto.
  - destruct (hit_id hit) as [i|] eqn:Hid; cycle 1.
    { left. right. split; [done|]. right. exists hit, rest. auto. }
    destruct (decide (i = 0)) as [->|Hi].
    { left. right. split; [done|]. right. exists hit, rest. auto. }
    destruct (tmdb_details_api w (EvTmdbSearch (tmdb_query v) :: trace st) i)
      as [d|] eqn:Hd.
    + right. left. exists i, d. split; [done|]. by exists hit, rest.
    + right. right. split; [done|]. right. by exists hit, rest, i.
  - right. right. auto.
Qed.

Lemma fetches_inj v st i d i' d' :
  fetches w v st i d → fetches w v st i' d' → i = i' ∧ d = d'.
Proof.
  intros (_ & hit & rest & Hres & Hid & _ & Hd) (_ & hit' & rest' & Hres' & Hid' & _ & Hd').
  rewrite Hres in Hres'. injection Hres' as <- <-.
  rewrite Hid in Hid'. injection Hid' as <-. rewrite Hd in Hd'. by injection Hd' as <-.
Qed.

Lemma fetches_something v st i d : fetches w v st i d → finds_nothing w v st → False.
Proof.
  intros (Hq & hit & rest & Hres & Hid & Hi & _) [Hq' | [_ [Hres' | Hres']]]; [done| |].
  - by rewrite Hres in Hres'.
  - destruct Hres' as (hit' & rest' & Hres' & Hid'). rewrite Hres in Hres'.
    injection Hres' as <- <-. rewrite Hid in Hid'. destruct Hid' as [?|[= ?]]; done.
Qed.

(** An item is the plain one when the lookup found nothing, and the one
    enriched from the details when the lookup fetched them. *)
Lemma build_item_lookup v st it st' :
  build_item_from_video w v st = (Ok (Some it), st') →
  (finds_nothing w v st → it = plain_item v) ∧
  (∀ i d, fetches w v st i d → ∃ aw, it = enriched_item v d aw) ∧
  (finds_nothing w v st ∨ ∃ i d, fetches w v st i d).
Proof.
  intros Hb. destruct (build_item_Some _ _ _ _ _ Hb) as [Hv _].
  split; [|split].
  - intros Hn. rewrite build_item_nothing in Hb by done. by injection Hb as <- _.
  - intros i d Hf. rewrite (build_item_fetched v st i d) in Hb by done.
    apply bind_Ok in Hb as (aw & st1 & _ & [= <- _]). by exists aw.
  - destruct (lookup_cases v st) as [Hn | [Hf | [Hq Href]]]; [by left | by right |].
    destruct Href as [Hres | (hit & rest & i & Hres & Hid & Hi & Hd)].
    + by rewrite build_item_search_refused in Hb.
    + by rewrite (build_item_details_refused v st hit rest i) in Hb.
Qed.

End Lookup.

Lemma metadata_world_fetches d r :
  fetches (Demo.metadata_world d r) Demo.bare_video Demo.st0 975 d.
Proof.
  split; [by vm_compute|]. exists {| hit_id := Some 975 |}, []. by repeat split.
Qed.

Lemma odd_fetches :
  fetches Demo.odd_world Demo.bare_video Demo.st0 975 Demo.odd_details.
Proof. apply metadata_world_fetches. Qed.

(** C10.  [pick_best_thumbnail] is a total function: it returns the URL of
    the first of the five variants maxres, standard, high, medium, default,
    in this order, that is present with a URL, and the empty string when
    there is none.  When the lookup finds nothing, or fetches details
    without a poster path, the poster of the item built is what
    [pick_best_thumbnail] returns for its record: the empty string when none
    of the five variants is present with a URL. *)
Theorem pick_best_thumbnail_spec :
  let variants := ["maxres"; "standard"; "high"; "medium"; "default"] in
  (∀ sn,
     (∃ pre k post u,
        variants = pre ++ k :: post ∧
        Forall (λ k', thumbnail_url sn k' = None) pre ∧
        thumbnail_url sn k = Some u ∧ pick_best_thumbnail sn = u)
     ∨ (Forall (λ k, thumbnail_url sn k = None) variants ∧
        pick_best_thumbnail sn = EmptyString)) ∧
  (∀ w v st it st',
     build_item_from_video w v st = (Ok (Some it), st') →
     (finds_nothing w v st
      ∨ ∃ i d, fetches w v st i d ∧
               (poster_path d = None ∨ poster_path d = Some EmptyString)) →
     posterUrl it = pick_best_thumbnail (candidate_snippet v) ∧
     (Forall (λ k, thumbnail_url (candidate_snippet v) k = None) variants →
      posterUrl it = EmptyString)).
Proof.
  intros variants. split; [intros sn; apply (first_thumbnail_spec THUMBNAIL_KEYS sn)|].
  intros w v st it st' Hb Hlook.
  assert (Hposter : posterUrl it = pick_best_thumbnail (candidate_snippet v)).
  { destruct (build_item_lookup w v st it st' Hb) as (Hplain & Hfetched & _).
    destruct Hlook as [Hn | (i & d & Hf & Hp)].
    - by rewrite (Hplain Hn).
    - destruct (Hfetched i d Hf) as [aw ->]. unfold enriched_item, poster_of.
      cbn [posterUrl]. by destruct Hp as [-> | ->]. }
  split; [done|]. intros Hnone. rewrite Hposter.
  destruct (first_thumbnail_spec THUMBNAIL_KEYS (candidate_snippet v))
    as [(pre & k & post & u & Hk & _ & Hu & _) | [_ Hr]]; [|done].
  rewrite Forall_forall in Hnone. rewrite Hnone in Hu; [done|].
  unfold variants. change (k ∈ THUMBNAIL_KEYS). rewrite Hk. apply elem_of_app. right. by left.
Qed.

Lemma pick_best_thumbnail_witness :
  posterUrl (plain_item Demo.bare_video) = pick_best_thumbnail (candidate_snippet Demo.bare_video) ∧
  (Forall (λ k, thumbnail_url (candidate_snippet Demo.bare_video) k = None)
     ["maxres"; "standard"; "high"; "medium"; "default"] →
   posterUrl (plain_item Demo.bare_video) = EmptyString).
Proof.
  apply (proj2 pick_best_thumbnail_spec
           (Demo.metadata_world missing_details Demo.no_awards) Demo.bare_video Demo.st0
           (plain_item Demo.bare_video)
           (after [EvTmdbDetails 975; EvTmdbSearch "Paths of Glory"] Demo.st0)).
  - vm_compute. reflexivity.
  - right. exists 975, missing_details. split; [|by left].
    split; [by vm_compute|]. exists {| hit_id := Some 975 |}, []. by repeat split.
Defined.

Example pick_high_thumbnail :
  pick_best_thumbnail {| sn_title := None; thumbnails := Some Demo.high_only |}
  = "https://i.ytimg.com/vi/x/hqdefault.jpg".
Proof. by vm_compute. Qed.

(** C8, as the code has it.  The leads of an item are empty when the
    lookup found nothing; when it fetched details they are the non-empty
    names among the first two cast entries of those details, in listed
    order: an entry without a name among the first two is dropped and no
    later entry takes its place.  When the first two entries both have a
    name, these are the first two named cast entries. *)
Theorem leads_of_first_two_entries w v st it st' :
  build_item_from_video w v st = (Ok (Some it), st') →
  (finds_nothing w v st → leads it = []) ∧
  (∀ i d, fetches w v st i d →
     leads it = omap (λ c, nonempty (cast_name c)) (take 2 (cast_list d)) ∧
     (Forall (λ c, is_Some (nonempty (cast_name c))) (take 2 (cast_list d)) →
      leads it = first_two_named (cast_list d))) ∧
  (finds_nothing w v st ∨ ∃ i d, fetches w v st i d).
Proof.
  intros Hb. destruct (build_item_lookup w v st it st' Hb) as (Hplain & Hfetched & Hcases).
  split; [|split; [|done]].
  - intros Hn. by rewrite (Hplain Hn).
  - intros i d Hf. destruct (Hfetched i d Hf) as [aw ->].
    cbn [leads enriched_item]. unfold leads_of, first_two_named. fold (cast_list d).
    generalize (cast_list d). intros cast.
    destruct cast as [|c1 [|c2 cast]]; simpl.
    + done.
    + by destruct (nonempty (cast_name c1)).
    + split.
      * by destruct (nonempty (cast_name c1)), (nonempty (cast_name c2)).
      * intros Hnamed. inversion Hnamed as [|? ? [n1 Hn1] Hrest]; subst.
        inversion Hrest as [|? ? [n2 Hn2] _]; subst.
        rewrite Hn1, Hn2. done.
Qed.

Lemma leads_of_first_two_entries_witness :
  leads Demo.odd_item = ["Kirk Douglas"].
Proof.
  destruct (leads_of_first_two_entries Demo.odd_world Demo.bare_video Demo.st0
              Demo.odd_item Demo.odd_state) as (_ & Hfetched & _).
  - vm_compute. reflexivity.
  - destruct (Hfetched 975 Demo.odd_details odd_fetches) as [Hleads _].
    exact Hleads.
Defined.

(** C8, as stated, fails: the first billed cast entry has no name, the next
    two are Kirk Douglas and Ralph Meeker; the item's leads are Kirk Douglas
    alone, where the first two named entries are both of them. *)
Lemma leads_skip_counterexample :
  match (build_item_from_video (Demo.metadata_world Demo.odd_details Demo.four_awards)
           Demo.bare_video Demo.st0).1 with
  | Ok (Some it) =>
      leads it = ["Kirk Douglas"] ∧
      first_two_named (cast_list Demo.odd_details) = ["Kirk Douglas"; "Ralph Meeker"] ∧
      leads it ≠ first_two_named (cast_list Demo.odd_details)
  | _ => False
  end.
Proof. vm_compute. repeat split; discriminate. Qed.

Lemma valid_candidate_title v :
  valid_candidate v = true →
  candidate_title v ≠ EmptyString ∧ EXCLUDE_TITLE_RE_search (candidate_title v) = false.
Proof.
  unfold valid_candidate.
  intros [[_ Ht]%andb_true_iff _]%andb_true_iff.
  apply negb_true_iff, orb_false_iff in Ht as [Ht He].
  by apply negb_false_iff, truthy_spec in Ht.
Qed.

(** C7, as the code has it.  Every item has a non-empty title.  The
    candidate's own stripped title is non-empty and does not match the
    exclusion pattern.  When the lookup found nothing, or fetched details
    without a title, the item carries the candidate's title; when it fetched
    details with a non-empty canonical title, the item carries that title,
    which replaces the candidate's without being tested against the
    exclusion pattern. *)
Theorem item_title_nonempty w v st it st' :
  build_item_from_video w v st = (Ok (Some it), st') →
  title it ≠ EmptyString ∧
  candidate_title v ≠ EmptyString ∧
  EXCLUDE_TITLE_RE_search (candidate_title v) = false ∧
  (finds_nothing w v st → title it = candidate_title v) ∧
  (∀ i d, fetches w v st i d →
     (∀ t, d_title d = Some t → t ≠ EmptyString → title it = t) ∧
     (d_title d = None ∨ d_title d = Some EmptyString → title it = candidate_title v)) ∧
  (finds_nothing w v st ∨ ∃ i d, fetches w v st i d).
Proof.
  intros Hb. destruct (build_item_Some _ _ _ _ _ Hb) as [[Hne Hex]%valid_candidate_title _].
  destruct (build_item_lookup w v st it st' Hb) as (Hplain & Hfetched & Hcases).
  assert (Hhere : ∀ i d, fetches w v st i d →
            (∀ t, d_title d = Some t → t ≠ EmptyString → title it = t) ∧
            (d_title d = None ∨ d_title d = Some EmptyString →
             title it = candidate_title v)).
  { intros i d Hf. destruct (Hfetched i d Hf) as [aw ->]. cbn [title enriched_item].
    split.
    - intros t Ht Hne'. rewrite Ht. destruct t; [done|]. reflexivity.
    - by intros [-> | ->]. }
  split.
  { destruct Hcases as [Hn | (i & d & Hf)]; [by rewrite (Hplain Hn)|].
    destruct (Hhere i d Hf) as [Hcanon Hraw].
    destruct (d_title d) as [[|c t]|] eqn:Ht.
    - rewrite Hraw; auto.
    - rewrite (Hcanon (String c t)); done.
    - rewrite Hraw; auto. }
  split; [done|]. split; [done|].
  split; [intros Hn; by rewrite (Hplain Hn)|].
  split; [exact Hhere | exact Hcases].
Qed.

Lemma item_title_nonempty_witness :
  title Demo.odd_item = "Paths of Glory: The Documentary".
Proof.
  destruct (item_title_nonempty Demo.odd_world Demo.bare_video Demo.st0
              Demo.odd_item Demo.odd_state) as (_ & _ & _ & _ & Hfetched & _).
  - vm_compute. reflexivity.
  - destruct (Hfetched 975 Demo.odd_details odd_fetches) as [Hcanon _].
    apply Hcanon; [reflexivity | discriminate].
Defined.

(** C7, as stated, fails: the candidate's title passes the exclusion test,
    the canonical title of the details contains the word, and the item
    carries the canonical title. *)
Lemma canonical_title_counterexample :
  match (build_item_from_video (Demo.metadata_world Demo.odd_details Demo.four_awards)
           Demo.bare_video Demo.st0).1 with
  | Ok (Some it) =>
      title it = "Paths of Glory: The Documentary" ∧
      EXCLUDE_TITLE_RE_search (title it) = true
  | _ => False
  end.
Proof. vm_compute. split; reflexivity. Qed.

(** ** Degraded enrichment *)

Lemma wikidata_awards_skipped w film st :
  film = EmptyString → wikidata_awards_for_film w film st = (Ok [], st).
Proof. by intros ->. Qed.

Lemma imdb_of_missing d : d_external_ids d = None → imdb_of d = EmptyString.
Proof. unfold imdb_of. by intros ->. Qed.

(** C6.  A valid candidate is never rejected.  When its sanitized title is
    empty no request is made, and when the metadata search has no match the
    search is the only request: the item has the candidate's title, an
    empty year, director, leads and awards and the candidate's own best
    thumbnail as its poster.  When details are fetched, whatever they are,
    an item is returned unless the knowledge-graph request itself fails:
    every field the details lack gives the empty value, a missing or empty
    title leaves the candidate's title, a missing or empty poster path
    gives the best thumbnail, a missing IMDb id gives no awards and no
    knowledge-graph request, and a knowledge-graph status other than 200
    gives no awards. *)
Theorem enrichment_degrades w v st :
  valid_candidate v = true →
  let query := clean_title_for_tmdb (candidate_title v) in
  let st1 := after [EvTmdbSearch query] st in
  let plain :=
    {| title := candidate_title v; year := EmptyString; director := EmptyString;
       leads := []; posterUrl := pick_best_thumbnail (candidate_snippet v);
       youtubeId := candidate_vid v; awards := [] |} in
  (build_item_from_video w v st).1 ≠ Ok None ∧
  (query = EmptyString → build_item_from_video w v st = (Ok (Some plain), st)) ∧
  (∀ results,
     query ≠ EmptyString → tmdb_search_api w (trace st) query = Some results →
     hit_movie_id (head results) = None →
     build_item_from_video w v st = (Ok (Some plain), st1)) ∧
  (∀ results i,
     query ≠ EmptyString → tmdb_search_api w (trace st) query = Some results →
     hit_movie_id (head results) = Some i →
     tmdb_details_api w (trace st1) i = Some missing_details →
     build_item_from_video w v st = (Ok (Some plain), after [EvTmdbDetails i] st1)) ∧
  (∀ results i d r,
     query ≠ EmptyString → tmdb_search_api w (trace st) query = Some results →
     hit_movie_id (head results) = Some i →
     tmdb_details_api w (trace st1) i = Some d →
     imdb_of d ≠ EmptyString →
     wikidata_api w (EvTmdbDetails i :: trace st1) (imdb_of d) = Some r →
     status_code r ≠ 200 →
     build_item_from_video w v st
     = (Ok (Some (enriched_item v d [])),
        after [EvWikidata (imdb_of d); EvTmdbDetails i] st1)) ∧
  (∀ results i d,
     query ≠ EmptyString → tmdb_search_api w (trace st) query = Some results →
     hit_movie_id (head results) = Some i →
     tmdb_details_api w (trace st1) i = Some d →
     imdb_of d = EmptyString
     ∨ is_Some (wikidata_api w (EvTmdbDetails i :: trace st1) (imdb_of d)) →
     ∃ it st',
       build_item_from_video w v st = (Ok (Some it), st') ∧
       youtubeId it = candidate_vid v ∧
       (d_title d = None ∨ d_title d = Some EmptyString →
        title it = candidate_title v) ∧
       (release_date d = None → year it = EmptyString) ∧
       (d_credits d = None → director it = EmptyString ∧ leads it = []) ∧
       (poster_path d = None ∨ poster_path d = Some EmptyString →
        posterUrl it = pick_best_thumbnail (candidate_snippet v)) ∧
       (d_external_ids d = None ∨ imdb_of d = EmptyString →
        awards it = [] ∧ st' = after [EvTmdbDetails i] st1)).
Proof.
  intros Hv query st1 plain.
  assert (Hfetch : ∀ results i d,
            query ≠ EmptyString → tmdb_search_api w (trace st) query = Some results →
            hit_movie_id (head results) = Some i →
            tmdb_details_api w (trace st1) i = Some d →
            build_item_from_video w v st
            = bind (wikidata_awards_for_film w (imdb_of d))
                (λ aw, ret (Some (enriched_item v d aw)))
                (after [EvTmdbDetails i] st1)).
  { intros results i d Hq Hres Hhit Hd.
    apply hit_movie_id_Some in Hhit as (hit & rest & -> & Hid & Hi).
    apply (build_item_fetched w v st i d Hv). split; [done|]. by exists hit, rest. }
  split; [|split; [|split; [|split; [|split]]]].
  - destruct (build_item_from_video w v st) as [r st'] eqn:Hb.
    pose proof (build_item_valid w v st Hv r st' Hb) as Hcases.
    simpl. by intros ->.
  - intros Hq. rewrite (build_item_nothing w v st Hv); [|by left].
    change (tmdb_query v) with query. by rewrite Hq.
  - intros results Hq Hres Hhit.
    rewrite (build_item_nothing w v st Hv).
    + change (tmdb_query v) with query. apply truthy_spec in Hq. by rewrite Hq.
    + right. split; [done|].
      apply hit_movie_id_None in Hhit as [-> | (hit & rest & -> & Hid)]; [by left|].
      right. by exists hit, rest.
  - intros results i Hq Hres Hhit Hd. by rewrite (Hfetch results i missing_details).
  - intros results i d r Hq Hres Hhit Hd Himdb Hr H200.
    rewrite (Hfetch results i d) by done. unfold bind.
    by rewrite (wikidata_awards_non_200 w (imdb_of d) _ r Himdb).
  - intros results i d Hq Hres Hhit Hd Hgraph.
    rewrite (Hfetch results i d) by done.
    assert (Haw : ∃ aw st',
              wikidata_awards_for_film w (imdb_of d) (after [EvTmdbDetails i] st1)
              = (Ok aw, st') ∧
              (imdb_of d = EmptyString → aw = [] ∧ st' = after [EvTmdbDetails i] st1)).
    { destruct (decide (imdb_of d = EmptyString)) as [Himdb|Himdb].
      - exists [], (after [EvTmdbDetails i] st1).
        by rewrite wikidata_awards_skipped.
      - destruct Hgraph as [?|[r Hr]]; [done|].
        unfold wikidata_awards_for_film. apply truthy_spec in Himdb as Ht. rewrite Ht.
        unfold bind, wikidata_get, request.
        change (trace (after [EvTmdbDetails i] st1)) with (EvTmdbDetails i :: trace st1).
        rewrite Hr. case_bool_decide; eexists _, _; (split; [reflexivity | done]). }
    destruct Haw as (aw & st' & Haw & Hskip).
    exists (enriched_item v d aw), st'. unfold bind. rewrite Haw.
    split; [done|]. split; [done|]. cbn [title year director leads posterUrl awards enriched_item].
    split; [by intros [-> | ->]|].
    split; [intros Hrel; unfold year_of; by rewrite Hrel|].
    split; [intros Hcr; unfold director_of, leads_of; by rewrite Hcr|].
    split; [unfold poster_of; by intros [-> | ->]|].
    intros [Hext | Himdb]; apply Hskip; [by apply imdb_of_missing | done].
Qed.

Lemma enrichment_degrades_witness :
  build_item_from_video Demo.plentiful Demo.junk_video Demo.st0
  = (Ok (Some (plain_item Demo.junk_video)), Demo.st0) ∧
  build_item_from_video Demo.plentiful Demo.bare_video Demo.st0
  = (Ok (Some (plain_item Demo.bare_video)),
     after [EvTmdbSearch "Paths of Glory"] Demo.st0) ∧
  build_item_from_video (Demo.metadata_world Demo.odd_details Demo.unavailable)
    Demo.bare_video Demo.st0
  = (Ok (Some (enriched_item Demo.bare_video Demo.odd_details [])),
     after [EvWikidata "tt0050825"; EvTmdbDetails 975; EvTmdbSearch "Paths of Glory"]
       Demo.st0) ∧
  ∃ it st',
    build_item_from_video (Demo.metadata_world Demo.titled_only Demo.no_awards)
      (Demo.paths_of_glory "abcdefghijk") Demo.st0 = (Ok (Some it), st') ∧
    year it = EmptyString ∧
    director it = EmptyString ∧ leads it = [] ∧ awards it = [] ∧
    posterUrl it = "https://i.ytimg.com/vi/x/hqdefault.jpg" ∧
    st' = after [EvTmdbDetails 975; EvTmdbSearch "Paths of Glory"] Demo.st0.
Proof.
  assert (Hjunk : valid_candidate Demo.junk_video = true) by (vm_compute; reflexivity).
  assert (Hbare : valid_candidate Demo.bare_video = true) by (vm_compute; reflexivity).
  assert (Hfilm : valid_candidate (Demo.paths_of_glory "abcdefghijk") = true)
    by (vm_compute; reflexivity).
  split; [|split; [|split]].
  - destruct (enrichment_degrades Demo.plentiful Demo.junk_video Demo.st0 Hjunk)
      as (_ & Hempty & _).
    apply Hempty. vm_compute. reflexivity.
  - destruct (enrichment_degrades Demo.plentiful Demo.bare_video Demo.st0 Hbare)
      as (_ & _ & Hnomatch & _).
    apply (Hnomatch []); [vm_compute; discriminate | reflexivity | reflexivity].
  - destruct (enrichment_degrades (Demo.metadata_world Demo.odd_details Demo.unavailable)
                Demo.bare_video Demo.st0 Hbare)
      as (_ & _ & _ & _ & Hdown & _).
    apply (Hdown [{| hit_id := Some 975 |}] 975 Demo.odd_details Demo.unavailable);
      [vm_compute; discriminate | reflexivity | reflexivity | reflexivity
      | vm_compute; discriminate | reflexivity | vm_compute; discriminate].
  - destruct (enrichment_degrades (Demo.metadata_world Demo.titled_only Demo.no_awards)
                (Demo.paths_of_glory "abcdefghijk") Demo.st0 Hfilm)
      as (_ & _ & _ & _ & _ & Hany).
    destruct (Hany [{| hit_id := Some 975 |}] 975 Demo.titled_only)
      as (it & st' & Hb & _ & _ & Hyear & Hcredits & Hposter & Hids);
      [vm_compute; discriminate | reflexivity | reflexivity | reflexivity
      | left; reflexivity |].
    exists it, st'. split; [exact Hb|].
    destruct (Hcredits eq_refl) as [Hdirector Hleads].
    destruct (Hids (or_introl eq_refl)) as [Hawards Hst].
    split; [exact (Hyear eq_refl)|]. split; [exact Hdirector|].
    split; [exact Hleads|]. split; [exact Hawards|].
    split; [|exact Hst].
    rewrite (Hposter (or_introl eq_refl)). vm_compute. reflexivity.
Defined.

(** ** The shuffle *)

Lemma swap_Permutation x i j : swap x i j ≡ₚ x.
Proof.
  unfold swap. destruct (x !! i) as [a|] eqn:Hi; [|done].
  destruct (x !! j) as [b|] eqn:Hj; [|done].
  by apply Permutation_insert_swap.
Qed.

Lemma selected_Permutation sel qs qs' : qs ≡ₚ qs' → selected sel qs = selected sel qs'.
Proof.
  unfold selected. induction 1 as [|q ? ? ? IH| |]; simpl; try done.
  - destruct (sel q); simpl; by rewrite IH.
  - by destruct (sel x), (sel y).
  - congruence.
Qed.

Section Shuffle.

Context (w : world).

Lemma shuffle_from_Ok i x st :
  ∃ qs st', shuffle_from w i x st = (Ok qs, st') ∧ qs ≡ₚ x.
Proof.
  revert x st. induction i as [|i IH]; intros x st; simpl.
  - by exists x, st.
  - unfold bind at 1, randbelow at 1.
    match goal with |- context [shuffle_from w i ?y ?s] =>
      destruct (IH y s) as (qs & st' & Hqs & Hperm) end.
    exists qs, st'. split; [done|]. by rewrite Hperm, swap_Permutation.
Qed.

Lemma shuffle_Ok x st : ∃ qs st', shuffle w x st = (Ok qs, st') ∧ qs ≡ₚ x.
Proof. apply shuffle_from_Ok. Qed.

Lemma shuffle_from_effects ok sel i x :
  (∀ n, ok (EvRandBelow n)) → effects ok sel 0 (shuffle_from w i x).
Proof.
  intros Hok. revert x. induction i as [|i IH]; intros x; simpl.
  - apply effects_ret.
  - apply (effects_bind _ _ 0 0); [by apply effects_randbelow | intros j; apply IH].
Qed.

Lemma shuffle_from_keeps_seen i x : keeps_seen (shuffle_from w i x).
Proof.
  revert x. induction i as [|i IH]; intros x; simpl; [apply keeps_seen_ret|].
  apply keeps_seen_bind; [by intros st | intros j; apply IH].
Qed.

End Shuffle.

(** ** Effects of filling a row *)

Lemma fill_event_search q order tok : fill_event order (EvSearch q order tok 25).
Proof. done. Qed.

Lemma each_query_cons w q qs order items :
  each_query w (q :: qs) order items
  = let* r := paginate w 4 q order None items in
    match r with
    | Return items => ret (Return items)
    | Next items =>
        if bool_decide (4 ≤ length items)%nat then ret (Next items)
        else each_query w qs order items
    end.
Proof. reflexivity. Qed.

Section RowEffects.

Context (w : world) (order : string) (sel : string → bool).

Local Abbreviation ok := (fill_event order).

Lemma build_item_fill_effects v : effects ok sel 0 (build_item_from_video w v).
Proof.
  eapply effects_weaken; [|apply build_item_effects].
  intros e. apply metadata_fill_event.
Qed.

Lemma scan_videos_effects vids items : effects ok sel 0 (scan_videos w vids items).
Proof.
  revert items. induction vids as [|v vids IH]; intros items; simpl.
  - apply effects_ret.
  - apply (effects_bind _ _ 0 0); [apply effects_get_seen|]. intros seen.
    case_bool_decide; [apply IH|].
    apply (effects_bind _ _ 0 0); [apply build_item_fill_effects|].
    intros [it|]; [|apply IH].
    apply (effects_bind _ _ 0 0); [by apply effects_seen_add|]. intros _.
    case_bool_decide; [apply effects_ret | apply IH].
Qed.

Lemma yt_search_effects q tok :
  effects ok sel (if sel q then 1 else 0) (yt_search w q order tok 25).
Proof. apply (effects_request ok sel (EvSearch q order (nonempty tok) 25)). done. Qed.

Lemma yt_videos_effects ids : effects ok sel 0 (yt_videos w ids).
Proof. by apply (effects_request ok sel (EvVideos ids)). Qed.

Lemma paginate_effects n q tok items :
  effects ok sel (n * if sel q then 1 else 0) (paginate w n q order tok items).
Proof.
  revert tok items. induction n as [|n IH]; intros tok items; simpl.
  - apply effects_ret.
  - set (c := if sel q then 1%nat else 0%nat) in *.
    apply (effects_bind _ _ c (n * c)); [apply yt_search_effects|]. intros data.
    apply (effects_bind _ _ 0 (n * c)); [apply effects_get_seen|]. intros seen.
    destruct (take 50 (new_ids seen data)) as [|vid ids].
    { destruct (nonempty (nextPageToken data)); [apply IH|].
      eapply effects_mono; [|apply effects_ret]. lia. }
    apply (effects_bind _ _ 0 (n * c)); [apply yt_videos_effects|]. intros vids.
    apply (effects_bind _ _ 0 (n * c)); [apply scan_videos_effects|].
    intros [its|its]; cycle 1.
    { eapply effects_mono; [|apply effects_ret]. lia. }
    destruct (nonempty (nextPageToken data)); cycle 1.
    { eapply effects_mono; [|apply effects_ret]. lia. }
    apply (effects_bind _ _ 0 (n * c)); [by apply (effects_emit ok sel EvSleep)|].
    intros _. apply IH.
Qed.

Lemma each_query_effects qs items :
  effects ok sel (4 * selected sel qs) (each_query w qs order items).
Proof.
  revert items. induction qs as [|q qs IH]; intros items.
  - apply effects_ret.
  - rewrite each_query_cons. eapply effects_mono; cycle 1.
    + apply (effects_bind _ _ (4 * if sel q then 1 else 0) (4 * selected sel qs));
        [apply paginate_effects|].
      intros [its|its]; cycle 1.
      { eapply effects_mono; [|apply effects_ret]. lia. }
      case_bool_decide; [|apply IH].
      eapply effects_mono; [|apply effects_ret]. lia.
    + unfold selected. simpl. destruct (sel q); simpl; lia.
Qed.

Lemma fill_row_effects row queries :
  ROW_QUERIES !! row = Some queries →
  effects ok sel (4 * selected sel queries) (fill_row w row order).
Proof.
  intros Hrow st. unfold fill_row. rewrite Hrow. unfold bind at 1.
  destruct (shuffle_Ok w queries st) as (qs & st1 & Hsh & Hperm).
  pose proof (shuffle_from_effects w ok sel (length queries - 1) queries
                (λ _, conj I I) st) as Hext1.
  fold (shuffle w queries) in Hext1. rewrite Hsh in *. simpl in Hext1.
  rewrite <- (selected_Permutation sel _ _ Hperm).
  eapply extends_mono;
    [|eapply (extends_trans _ _ 0 (4 * selected sel qs + 0)); [exact Hext1|]].
  { lia. }
  apply (effects_bind ok sel (4 * selected sel qs) 0); [apply each_query_effects|].
  intros r. apply effects_ret.
Qed.

Lemma fill_row_unknown row st :
  ROW_QUERIES !! row = None → fill_row w row order st = (Raise (KeyError row), st).
Proof. intros Hrow. unfold fill_row. by rewrite Hrow. Qed.

Lemma fallback_scan_effects vids items : effects ok sel 0 (fallback_scan w vids items).
Proof.
  revert items. induction vids as [|v vids IH]; intros items; simpl.
  - apply effects_ret.
  - case_bool_decide; [apply effects_ret|].
    apply (effects_bind _ _ 0 0); [apply effects_get_seen|]. intros seen.
    case_bool_decide; [apply IH|].
    apply (effects_bind _ _ 0 0); [apply build_item_fill_effects|].
    intros [it|]; [|apply IH].
    apply (effects_bind _ _ 0 0); [by apply effects_seen_add|]. intros _. apply IH.
Qed.

Lemma fallback_fill_effects pool items :
  effects ok sel (selected sel pool) (fallback_fill w pool order items).
Proof.
  revert items. induction pool as [|fb pool IH]; intros items; simpl.
  - apply effects_ret.
  - eapply effects_mono; cycle 1.
    + case_bool_decide.
      { eapply (effects_mono _ _ 0); [|apply effects_ret]. apply Nat.le_0_l. }
      apply (effects_bind _ _ (if sel fb then 1 else 0) (selected sel pool));
        [apply yt_search_effects|]. intros data.
      apply (effects_bind _ _ 0 (selected sel pool)); [apply effects_get_seen|].
      intros seen.
      apply (effects_bind _ _ 0 (selected sel pool)); [apply yt_videos_effects|].
      intros vids.
      apply (effects_bind _ _ 0 (selected sel pool)); [apply fallback_scan_effects|].
      intros its. apply IH.
    + unfold selected. simpl. destruct (sel fb); simpl; lia.
Qed.

End RowEffects.

(** ** Acceptance *)

Lemma youtube_ids_app l1 l2 : youtube_ids (l1 ++ l2) = youtube_ids l1 ++ youtube_ids l2.
Proof. apply fmap_app. Qed.

Lemma accepted_same st st' : seen_ids st' = seen_ids st → accepted st [] st'.
Proof.
  intros Hs. split; [|split].
  - rewrite Hs. simpl. set_solver.
  - constructor.
  - by intros vid ?%elem_of_nil.
Qed.

Lemma accepted_trans st1 a1 st2 a2 st3 :
  accepted st1 a1 st2 → accepted st2 a2 st3 → accepted st1 (a1 ++ a2) st3.
Proof.
  intros (Hs1 & Hn1 & Hf1) (Hs2 & Hn2 & Hf2). split; [|split].
  - rewrite Hs2, Hs1, youtube_ids_app, list_to_set_app_L. set_solver.
  - rewrite youtube_ids_app. apply NoDup_app. split; [done|]. split; [|done].
    intros vid Hin1 Hin2. apply (Hf2 vid Hin2). rewrite Hs1.
    apply elem_of_union. right. by apply elem_of_list_to_set.
  - intros vid. rewrite youtube_ids_app. intros [Hin | Hin]%elem_of_app; [by apply Hf1|].
    intros Hseen. apply (Hf2 vid Hin). rewrite Hs1. set_solver.
Qed.

Lemma accepted_one st it :
  youtubeId it ∉ seen_ids st →
  accepted st [it]
    {| seen_ids := {[ youtubeId it ]} ∪ seen_ids st;
       trace := EvSeenAdd (youtubeId it) :: trace st |}.
Proof.
  intros Hnew. split; [|split]; simpl.
  - set_solver.
  - apply NoDup_singleton.
  - by intros vid ->%list_elem_of_singleton.
Qed.

Lemma accepted_subseteq st added st' : accepted st added st' → seen_ids st ⊆ seen_ids st'.
Proof. intros (-> & _). set_solver. Qed.

Lemma row_progress_Next st items st' :
  (length items < 4)%nat → seen_ids st' = seen_ids st →
  row_progress st items (Next items) st'.
Proof.
  intros Hlen Hs. exists []. split; [by rewrite app_nil_r|].
  split; [by apply accepted_same | done].
Qed.

Lemma row_progress_step st items its1 st1 r st2 :
  row_progress st items (Next its1) st1 → row_progress st1 its1 r st2 →
  row_progress st items r st2.
Proof.
  intros (a1 & Hv1 & Ha1 & _) (a2 & Hv2 & Ha2 & Hr). simpl in Hv1. subst its1.
  exists (a1 ++ a2). split; [by rewrite Hv2, app_assoc|].
  split; [by eapply accepted_trans | done].
Qed.

Section RowResults.

Context (w : world).

Lemma scan_videos_Ok vids items st r st' :
  scan_videos w vids items st = (Ok r, st') → (length items < 4)%nat →
  row_progress st items r st'.
Proof.
  revert items st. induction vids as [|v vids IH]; intros items st; simpl.
  - intros [= <- <-] Hlen. by apply row_progress_Next.
  - unfold bind at 1, get_seen at 1. case_bool_decide as Hseen; [apply IH|].
    intros Hrun Hlen.
    apply bind_Ok in Hrun as (item & st1 & Hbuild & Hrun).
    pose proof (build_item_keeps_seen w v st) as Hkeep.
    rewrite Hbuild in Hkeep. simpl in Hkeep.
    destruct item as [it|]; cycle 1.
    { eapply row_progress_step; [|by eapply IH]. by apply row_progress_Next. }
    apply build_item_youtubeId in Hbuild as Hid.
    unfold bind at 1, seen_add at 1 in Hrun. rewrite <- Hid in *.
    assert (Hone : accepted st [it]
              {| seen_ids := {[ youtubeId it ]} ∪ seen_ids st1;
                 trace := EvSeenAdd (youtubeId it) :: trace st1 |}).
    { destruct (accepted_one st1 it) as (Hs & Hn & Hf); [by rewrite Hkeep|].
      split; [|split]; try done.
      - rewrite Hs, Hkeep. done.
      - intros vid Hin. rewrite <- Hkeep. by apply Hf. }
    case_bool_decide as Hfull.
    + injection Hrun as <- <-. exists [it]. split; [done|]. split; [done|].
      split; [rewrite length_app in *; simpl in *; lia | by eexists _, _].
    + eapply row_progress_step; [|eapply IH; [exact Hrun | lia]].
      exists [it]. split; [done|]. split; [done|]. simpl. lia.
Qed.

Lemma request_keeps st {A} e (answer : list event → option A) a st' :
  request e answer st = (Ok a, st') → seen_ids st' = seen_ids st.
Proof. by intros [_ ->]%request_Ok. Qed.

Lemma yt_search_seen q order tok m st data st' :
  yt_search w q order tok m st = (Ok data, st') → seen_ids st' = seen_ids st.
Proof. apply request_keeps. Qed.

Lemma yt_videos_seen ids st vids st' :
  yt_videos w ids st = (Ok vids, st') → seen_ids st' = seen_ids st.
Proof. apply request_keeps. Qed.

Lemma paginate_Ok n q order tok items st r st' :
  paginate w n q order tok items st = (Ok r, st') → (length items < 4)%nat →
  row_progress st items r st'.
Proof.
  revert tok items st. induction n as [|n IH]; intros tok items st; simpl.
  - intros [= <- <-] Hlen. by apply row_progress_Next.
  - intros Hrun Hlen.
    apply bind_Ok in Hrun as (data & st1 & Hsearch & Hrun).
    apply yt_search_seen in Hsearch as Hs1.
    unfold bind at 1, get_seen at 1 in Hrun.
    eapply row_progress_step; [by apply (row_progress_Next st items st1)|].
    destruct (take 50 (new_ids (seen_ids st1) data)) as [|vid ids].
    { destruct (nonempty (nextPageToken data)); [by eapply IH|].
      injection Hrun as <- <-. by apply row_progress_Next. }
    apply bind_Ok in Hrun as (vids & st2 & Hvids & Hrun).
    apply yt_videos_seen in Hvids as Hs2.
    eapply row_progress_step; [by apply (row_progress_Next st1 items st2)|].
    apply bind_Ok in Hrun as (r1 & st3 & Hscan & Hrun).
    apply scan_videos_Ok in Hscan as Hprog; [|done].
    destruct r1 as [its|its]; [|by injection Hrun as <- <-].
    eapply row_progress_step; [exact Hprog|].
    assert (Hlen' : (length its < 4)%nat) by (by destruct Hprog as (? & _ & _ & ?)).
    destruct (nonempty (nextPageToken data)); cycle 1.
    { injection Hrun as <- <-. by apply row_progress_Next. }
    unfold bind at 1, sleep, emit at 1 in Hrun.
    eapply row_progress_step; [|by eapply IH]. by apply row_progress_Next.
Qed.

Lemma each_query_Ok qs order items st r st' :
  each_query w qs order items st = (Ok r, st') → (length items < 4)%nat →
  row_progress st items r st'.
Proof.
  revert items st. induction qs as [|q qs IH]; intros items st.
  - intros [= <- <-] Hlen. by apply row_progress_Next.
  - rewrite each_query_cons. intros Hrun Hlen.
    apply bind_Ok in Hrun as (r1 & st1 & Hpage & Hrun).
    apply paginate_Ok in Hpage as Hprog; [|done].
    destruct r1 as [its|its]; [|by injection Hrun as <- <-].
    eapply row_progress_step; [exact Hprog|].
    assert (Hlen' : (length its < 4)%nat) by (by destruct Hprog as (? & _ & _ & ?)).
    case_bool_decide; [lia|]. by eapply IH.
Qed.

(** What [fill_row] returns: the items it accepted, at most 4, and when
    they are 4 nothing happened after the fourth was accepted. *)
Lemma fill_row_Ok row order st items st' :
  fill_row w row order st = (Ok items, st') →
  accepted st items st' ∧ (length items ≤ 4)%nat ∧
  (length items = 4%nat → just_accepted st').
Proof.
  unfold fill_row. destruct (ROW_QUERIES !! row) as [queries|]; [|done].
  intros Hrun. apply bind_Ok in Hrun as (qs & st1 & Hsh & Hrun).
  pose proof (shuffle_from_keeps_seen w (length queries - 1) queries st) as Hkeep.
  fold (shuffle w queries) in Hkeep. rewrite Hsh in Hkeep. simpl in Hkeep.
  apply bind_Ok in Hrun as (r & st2 & Hq & Hrun). injection Hrun as <- <-.
  apply each_query_Ok in Hq; [|simpl; lia].
  destruct Hq as (added & Hv & (Hs & Hn & Hf) & Hr). simpl in Hv. rewrite Hv.
  split; [|split].
  - split; [by rewrite Hs, Hkeep|]. split; [done|].
    intros vid Hin. rewrite <- Hkeep. by apply Hf.
  - rewrite <- Hv. destruct r; simpl in *; lia.
  - rewrite <- Hv. destruct r; simpl in *; [lia|]. intros _. apply Hr.
Qed.

End RowResults.

(** ** The fallback pass *)

Lemma fallback_progress_refl st row_items st' :
  seen_ids st' = seen_ids st → fallback_progress st row_items row_items st'.
Proof.
  intros Hs. exists []. split; [by rewrite app_nil_r|]. split; [by apply accepted_same | done].
Qed.

Lemma fallback_progress_trans st1 l1 l2 st2 l3 st3 :
  fallback_progress st1 l1 l2 st2 → fallback_progress st2 l2 l3 st3 →
  fallback_progress st1 l1 l3 st3.
Proof.
  intros (a1 & -> & Ha1 & Hl1) (a2 & -> & Ha2 & Hl2).
  exists (a1 ++ a2). split; [by rewrite app_assoc|].
  split; [by eapply accepted_trans | auto].
Qed.

Section FallbackResults.

Context (w : world).

Lemma fallback_scan_Ok vids row_items st its st' :
  fallback_scan w vids row_items st = (Ok its, st') →
  fallback_progress st row_items its st'.
Proof.
  revert row_items st. induction vids as [|v vids IH]; intros row_items st; simpl.
  - intros [= <- <-]. by apply fallback_progress_refl.
  - case_bool_decide as Hfull; [intros [= <- <-]; by apply fallback_progress_refl|].
    unfold bind at 1, get_seen at 1. case_bool_decide as Hseen; [apply IH|].
    intros Hrun.
    apply bind_Ok in Hrun as (item & st1 & Hbuild & Hrun).
    pose proof (build_item_keeps_seen w v st) as Hkeep.
    rewrite Hbuild in Hkeep. simpl in Hkeep.
    destruct item as [it|]; cycle 1.
    { eapply fallback_progress_trans; [|by eapply IH]. by apply fallback_progress_refl. }
    apply build_item_youtubeId in Hbuild as Hid.
    unfold bind at 1, seen_add at 1 in Hrun. rewrite <- Hid in *.
    eapply fallback_progress_trans; [|eapply IH; exact Hrun].
    exists [it]. split; [done|]. split.
    + destruct (accepted_one st1 it) as (Hs & Hn & Hf); [by rewrite Hkeep|].
      split; [|split]; try done.
      * rewrite Hs, Hkeep. done.
      * intros vid Hin. rewrite <- Hkeep. by apply Hf.
    + intros _. rewrite length_app. simpl. lia.
Qed.

Lemma fallback_fill_Ok pool order row_items st its st' :
  fallback_fill w pool order row_items st = (Ok its, st') →
  fallback_progress st row_items its st'.
Proof.
  revert row_items st. induction pool as [|fb pool IH]; intros row_items st; simpl.
  - intros [= <- <-]. by apply fallback_progress_refl.
  - case_bool_decide as Hfull; [intros [= <- <-]; by apply fallback_progress_refl|].
    intros Hrun.
    apply bind_Ok in Hrun as (data & st1 & Hsearch & Hrun).
    apply yt_search_seen in Hsearch as Hs1.
    unfold bind at 1, get_seen at 1 in Hrun.
    apply bind_Ok in Hrun as (vids & st2 & Hvids & Hrun).
    apply yt_videos_seen in Hvids as Hs2.
    apply bind_Ok in Hrun as (its1 & st3 & Hscan & Hrun).
    apply fallback_scan_Ok in Hscan. apply IH in Hrun.
    eapply fallback_progress_trans; [|exact Hrun].
    eapply fallback_progress_trans; [|exact Hscan].
    apply fallback_progress_refl. congruence.
Qed.

(** A row after the primary fill and the fallback pass: the items accepted
    for it, at most 4. *)
Lemma fill_with_fallback_Ok row st its st' :
  fill_with_fallback w row st = (Ok its, st') →
  accepted st its st' ∧ (length its ≤ 4)%nat.
Proof.
  unfold fill_with_fallback. intros Hrun.
  apply bind_Ok in Hrun as (its0 & st1 & Hfill & Hrun).
  apply fill_row_Ok in Hfill as (Hacc & Hlen & _).
  case_bool_decide; [|by injection Hrun as <- <-].
  apply fallback_fill_Ok in Hrun as (added & -> & Hacc' & Hlen').
  split; [by eapply accepted_trans | apply Hlen'; lia].
Qed.

End FallbackResults.

(** ** Exceptions *)

Section Raises.

Context (P : exn → Prop) (HP : P RequestException).

Lemma raises_only_ret {A} (a : A) : raises_only P (ret a).
Proof. by intros st e st'. Qed.

Lemma raises_only_bind {A B} (m : M A) (k : A → M B) :
  raises_only P m → (∀ a, raises_only P (k a)) → raises_only P (bind m k).
Proof.
  intros Hm Hk st e st' [Hr | (a & st1 & _ & Hr)]%bind_Raise; [by eapply Hm | by eapply Hk].
Qed.

Lemma raises_only_request {A} ev (answer : list event → option A) :
  raises_only P (request ev answer).
Proof.
  intros st e st'. unfold request. destruct (answer (trace st)); [done|].
  by intros [= <- _].
Qed.

Lemma raises_only_total {A} (m : M A) :
  (∀ st, ∃ a st', m st = (Ok a, st')) → raises_only P m.
Proof. intros Hm st e st' Hr. destruct (Hm st) as (a & st1 & Ha). congruence. Qed.

Context (w : world).

Lemma wikidata_raises film : raises_only P (wikidata_awards_for_film w film).
Proof.
  unfold wikidata_awards_for_film. destruct (truthy film); [|apply raises_only_ret].
  apply raises_only_bind; [apply raises_only_request|].
  intros r. case_bool_decide; apply raises_only_ret.
Qed.

Lemma build_item_raises v : raises_only P (build_item_from_video w v).
Proof.
  unfold build_item_from_video.
  destruct (negb _); [apply raises_only_ret|].
  destruct (_ || _); [apply raises_only_ret|].
  case_bool_decide; [apply raises_only_ret|].
  apply raises_only_bind.
  { destruct (truthy _); [|apply raises_only_ret].
    apply raises_only_bind; [apply raises_only_request|intros; apply raises_only_ret]. }
  intros hit. apply raises_only_bind.
  - destruct (hit_movie_id hit) as [i|]; [|apply raises_only_ret].
    apply raises_only_bind; [apply raises_only_request|].
    intros d. apply raises_only_bind; [apply wikidata_raises|].
    intros aw. apply raises_only_ret.
  - intros draft. destruct (truthy _); apply raises_only_ret.
Qed.

Lemma scan_videos_raises vids items : raises_only P (scan_videos w vids items).
Proof.
  revert items. induction vids as [|v vids IH]; intros items; simpl.
  - apply raises_only_ret.
  - apply raises_only_bind; [by intros st e st'|]. intros seen.
    case_bool_decide; [apply IH|].
    apply raises_only_bind; [apply build_item_raises|].
    intros [it|]; [|apply IH].
    apply raises_only_bind; [by intros st e st'|]. intros _.
    case_bool_decide; [apply raises_only_ret | apply IH].
Qed.

Lemma paginate_raises n q order tok items : raises_only P (paginate w n q order tok items).
Proof.
  revert tok items. induction n as [|n IH]; intros tok items; simpl.
  - apply raises_only_ret.
  - apply raises_only_bind; [apply raises_only_request|]. intros data.
    apply raises_only_bind; [by intros st e st'|]. intros seen.
    destruct (take 50 (new_ids seen data)) as [|vid ids].
    { destruct (nonempty (nextPageToken data)); [apply IH | apply raises_only_ret]. }
    apply raises_only_bind; [apply raises_only_request|]. intros vids.
    apply raises_only_bind; [apply scan_videos_raises|].
    intros [its|its]; [|apply raises_only_ret].
    destruct (nonempty (nextPageToken data)); [|apply raises_only_ret].
    apply raises_only_bind; [by intros st e st' | intros _; apply IH].
Qed.

Lemma each_query_raises qs order items : raises_only P (each_query w qs order items).
Proof.
  revert items. induction qs as [|q qs IH]; intros items.
  - apply raises_only_ret.
  - rewrite each_query_cons. apply raises_only_bind; [apply paginate_raises|].
    intros [its|its]; [|apply raises_only_ret].
    case_bool_decide; [apply raises_only_ret | apply IH].
Qed.

Lemma fill_row_raises row order :
  is_Some (ROW_QUERIES !! row) → raises_only P (fill_row w row order).
Proof.
  intros [queries Hrow]. unfold fill_row. rewrite Hrow.
  apply raises_only_bind.
  - apply raises_only_total. intros st.
    destruct (shuffle_Ok w queries st) as (qs & st' & Hsh & _). eauto.
  - intros qs. apply raises_only_bind; [apply each_query_raises|].
    intros r. apply raises_only_ret.
Qed.

Lemma fallback_scan_raises vids items : raises_only P (fallback_scan w vids items).
Proof.
  revert items. induction vids as [|v vids IH]; intros items; simpl.
  - apply raises_only_ret.
  - case_bool_decide; [apply raises_only_ret|].
    apply raises_only_bind; [by intros st e st'|]. intros seen.
    case_bool_decide; [apply IH|].
    apply raises_only_bind; [apply build_item_raises|].
    intros [it|]; [|apply IH].
    apply raises_only_bind; [by intros st e st' | intros _; apply IH].
Qed.

Lemma fallback_fill_raises pool order items :
  raises_only P (fallback_fill w pool order items).
Proof.
  revert items. induction pool as [|fb pool IH]; intros items; simpl.
  - apply raises_only_ret.
  - case_bool_decide; [apply raises_only_ret|].
    apply raises_only_bind; [apply raises_only_request|]. intros data.
    apply raises_only_bind; [by intros st e st'|]. intros seen.
    apply raises_only_bind; [apply raises_only_request|]. intros vids.
    apply raises_only_bind; [apply fallback_scan_raises | intros its; apply IH].
Qed.

Lemma fill_with_fallback_raises row :
  is_Some (ROW_QUERIES !! row) → raises_only P (fill_with_fallback w row).
Proof.
  intros Hrow. unfold fill_with_fallback.
  apply raises_only_bind; [by apply fill_row_raises|]. intros its.
  case_bool_decide; [apply fallback_fill_raises | apply raises_only_ret].
Qed.

End Raises.

(** ** The run *)

Lemma written_app new t : written (new ++ t) = written t ++ written new.
Proof. unfold written. by rewrite reverse_app, omap_app. Qed.

Lemma written_cons e t :
  written (e :: t)
  = written t ++ match e with EvWrite _ p => [p] | _ => [] end.
Proof. unfold written. rewrite reverse_cons, omap_app. by destruct e. Qed.

Lemma written_quiet new : Forall quiet new → written new = [].
Proof.
  unfold written. induction 1 as [|e new He _ IH]; [done|].
  rewrite reverse_cons, omap_app, IH. by destruct e.
Qed.

Lemma effects_uncounted {A} ok sel n (m : M A) :
  effects ok sel n m → effects ok (λ _, false) 0 m.
Proof.
  intros Hm st. destruct (Hm st) as [Hs (new & Ht & Hok & _)].
  split; [done|]. exists new. split; [done|]. split; [done|].
  unfold search_count. clear. induction new as [|e new IH]; [done|].
  simpl. by destruct e.
Qed.

Lemma ROW_TITLES_known row : row ∈ ROW_TITLES → is_Some (ROW_QUERIES !! row).
Proof.
  unfold ROW_TITLES. rewrite !elem_of_cons, elem_of_nil.
  intros [-> | [-> | [-> | [-> | [-> | []]]]]]; eexists; vm_compute; reflexivity.
Qed.

Section Run.

Context (w : world).

Lemma fill_with_fallback_effects sel row :
  effects (fill_event (order_of row)) sel
    (4 * selected sel (default [] (ROW_QUERIES !! row)) + selected sel FALLBACK_POOL)
    (fill_with_fallback w row).
Proof.
  unfold fill_with_fallback. apply effects_bind.
  - destruct (ROW_QUERIES !! row) as [queries|] eqn:Hrow; [by apply fill_row_effects|].
    intros st. rewrite fill_row_unknown by done. apply extends_refl.
  - intros its. case_bool_decide; [apply fallback_fill_effects|].
    eapply effects_mono; [|apply effects_ret]. lia.
Qed.

Lemma each_row_quiet rows all : effects quiet (λ _, false) 0 (each_row w rows all).
Proof.
  revert all. induction rows as [|row rows IH]; intros all; simpl.
  - apply effects_ret.
  - apply (effects_bind _ _ 0 0).
    + eapply effects_uncounted, effects_weaken; [|apply (fill_with_fallback_effects (λ _, false))].
      intros e. apply fill_event_quiet.
    + intros its. case_bool_decide; [apply effects_raise | apply IH].
Qed.

Lemma each_row_Ok rows all st all' st' :
  each_row w rows all st = (Ok all', st') →
  ∃ per_row,
    all' = all ++ concat per_row ∧ Forall2 (row_filled w) rows per_row ∧
    accepted st (concat per_row) st'.
Proof.
  revert all st. induction rows as [|row rows IH]; intros all st; simpl.
  - intros [= <- <-]. exists []. split; [by rewrite app_nil_r|].
    split; [constructor | by apply accepted_same].
  - intros Hrun. apply bind_Ok in Hrun as (its & st1 & Hfill & Hrun).
    case_bool_decide as Hshort; [done|].
    apply fill_with_fallback_Ok in Hfill as Hits. destruct Hits as [Hacc Hlen].
    apply IH in Hrun as (per_row & -> & Hall & Hacc').
    exists (its :: per_row). split; [by rewrite <- app_assoc|]. split.
    + constructor; [|done]. split; [lia | by eexists _, _].
    + simpl. by eapply accepted_trans.
Qed.

Lemma each_row_Raise rows all st e st' :
  each_row w rows all st = (Raise e, st') →
  (∀ row, row ∈ rows → is_Some (ROW_QUERIES !! row)) →
  e = RequestException
  ∨ ∃ row n, row ∈ rows ∧ (n < 4)%nat ∧ e = SystemExit (shortfall_message row n).
Proof.
  revert all st. induction rows as [|row rows IH]; intros all st; simpl; [done|].
  intros Hrun Hknown.
  apply bind_Raise in Hrun as [Hfill | (its & st1 & Hfill & Hrun)].
  - left. eapply (fill_with_fallback_raises (λ e, e = RequestException)); [done| |exact Hfill].
    apply Hknown. by left.
  - case_bool_decide as Hshort.
    + injection Hrun as <- <-. right. exists row, (length its).
      split; [by left | done].
    + apply IH in Hrun as [-> | (row' & n & Hin & Hn & ->)]; [by left| |].
      * right. exists row', n. split; [by right | done].
      * intros row' Hin. apply Hknown. by right.
Qed.

Lemma each_row_app rows1 rows2 all st :
  each_row w (rows1 ++ rows2) all st = bind (each_row w rows1 all) (each_row w rows2) st.
Proof.
  revert all st. induction rows1 as [|row rows1 IH]; intros all st; [done|].
  simpl. unfold bind in IH |- *.
  destruct (fill_with_fallback w row st) as [[its|e] st1]; [|done].
  case_bool_decide; [done|]. apply IH.
Qed.

(** A row that is short after both passes ends the run. *)
Lemma each_row_short row rows all st its st' :
  fill_with_fallback w row st = (Ok its, st') → (length its < 4)%nat →
  each_row w (row :: rows) all st
  = (Raise (SystemExit (shortfall_message row (length its))), st').
Proof.
  intros Hfill Hshort. simpl. unfold bind. rewrite Hfill.
  by rewrite bool_decide_eq_true_2.
Qed.

Lemma main_unfold st :
  main w st
  = match each_row w ROW_TITLES [] (started st) with
    | (Ok all_items, st1) =>
        (Ok tt,
         after [EvPrint ("Wrote " +:+ OUT_PATH +:+ " with "
                           +:+ str_of_nat (length all_items) +:+ " items.");
                EvWrite OUT_PATH
                  {| date := utc_today w (trace st1); criteria := CRITERIA;
                     row_titles := ROW_TITLES; items := all_items |}] st1)
    | (Raise e, st1) => (Raise e, st1)
    end.
Proof.
  unfold main, bind, emit, seen_reset. simpl.
  fold (started st). by destruct (each_row w ROW_TITLES [] (started st)) as [[all|e] st1].
Qed.

End Run.

(** ** The three properties of a run *)

Lemma ROW_QUERIES_shape row queries :
  ROW_QUERIES !! row = Some queries → length queries = 4%nat ∧ NoDup queries.
Proof.
  assert (Hall : map_Forall (λ (_ : string) (qs : list string),
                              length qs = 4%nat ∧ NoDup qs) ROW_QUERIES).
  { apply map_Forall_to_list. vm_compute map_to_list.
    repeat (apply Forall_cons; split;
            [split; [reflexivity | by apply (bool_decide_unpack _)]|]).
    apply Forall_nil_2. }
  intros Hrow. exact (Hall row queries Hrow).
Qed.

Lemma selected_all qs : selected (λ _, true) qs = length qs.
Proof. unfold selected. induction qs; simpl; auto. Qed.

Lemma selected_one q qs :
  NoDup qs → (selected (λ q', bool_decide (q' = q)) qs ≤ 1)%nat.
Proof.
  unfold selected. induction 1 as [|q' qs Hnotin _ IH]; simpl; [lia|].
  case_bool_decide as Heq; simpl; [|done]. subst q'.
  assert (Hnone : List.filter (λ q', bool_decide (q' = q)) qs = []).
  { clear IH. induction qs as [|q' qs IH]; simpl; [done|].
    apply not_elem_of_cons in Hnotin as [Hne Hnotin].
    rewrite bool_decide_eq_false_2 by done. auto. }
  rewrite Hnone. simpl. lia.
Qed.

Lemma selected_none q qs :
  q ∉ qs → selected (λ q', bool_decide (q' = q)) qs = 0%nat.
Proof.
  unfold selected. induction qs as [|q' qs IH]; simpl; [done|].
  intros [Hne Hnotin]%not_elem_of_cons.
  rewrite bool_decide_eq_false_2 by done. auto.
Qed.

(** A page without a new identifier and without a continuation token ends
    the work on its query term. *)
Lemma paginate_abandon w n q order tok items st data st1 :
  yt_search w q order tok 25 st = (Ok data, st1) →
  new_ids (seen_ids st) data = [] →
  nonempty (nextPageToken data) = None →
  paginate w (S n) q order tok items st = (Ok (Next items), st1).
Proof.
  intros Hsearch Hnew Htok. simpl. unfold bind at 1. rewrite Hsearch.
  unfold bind at 1, get_seen at 1.
  rewrite (yt_search_seen _ _ _ _ _ _ _ _ Hsearch), Hnew. simpl. by rewrite Htok.
Qed.

(** C3.  [fill_row] is a total function.  Whatever the environment answers,
    and whether it returns or raises, the events it adds to the trace are
    those of filling a row: every search is made in the row's sort order
    for 25 results, there are at most 16 searches, at most 4 for any one
    query term, and none for a term outside the row's pool of 4 terms.  A
    page with no new identifier and no continuation token ends the work on
    its query term after that one search.  The list returned has at most 4
    items, and when it has 4 the acceptance of the fourth is the last event:
    no further page is fetched and no further term is tried. *)
Theorem fill_row_bounded w row order st :
  let queries := default [] (ROW_QUERIES !! row) in
  let st' := (fill_row w row order st).2 in
  (length queries ≤ 4)%nat ∧
  (∃ new,
     trace st' = new ++ trace st ∧ Forall (fill_event order) new ∧
     (search_count (λ _, true) new ≤ 16)%nat ∧
     (∀ q, (search_count (λ q', bool_decide (q' = q)) new ≤ 4)%nat) ∧
     (∀ q, q ∉ queries → search_count (λ q', bool_decide (q' = q)) new = 0%nat)) ∧
  (∀ items,
     (fill_row w row order st).1 = Ok items →
     (length items ≤ 4)%nat ∧ (length items = 4%nat → just_accepted st')) ∧
  (∀ n q tok items st0 data st1,
     yt_search w q order tok 25 st0 = (Ok data, st1) →
     new_ids (seen_ids st0) data = [] →
     nonempty (nextPageToken data) = None →
     paginate w (S n) q order tok items st0 = (Ok (Next items), st1)).
Proof.
  intros queries st'. split; [|split; [|split]].
  - subst queries. destruct (ROW_QUERIES !! row) as [qs|] eqn:Hrow; simpl; [|lia].
    apply ROW_QUERIES_shape in Hrow as [-> _]. done.
  - subst queries st'. destruct (ROW_QUERIES !! row) as [qs|] eqn:Hrow; simpl; cycle 1.
    { rewrite fill_row_unknown by done. exists []. unfold search_count. simpl.
      split; [done|]. split; [constructor|]. split; [lia|]. split; intros; [lia|done]. }
    destruct (ROW_QUERIES_shape _ _ Hrow) as [Hlen Hnodup].
    destruct (fill_row_effects w order (λ _, true) row qs Hrow st)
      as [_ (new & Htrace & Hok & Hall)].
    exists new. split; [done|]. split; [done|]. split; [|split].
    + rewrite selected_all, Hlen in Hall. done.
    + intros q.
      destruct (fill_row_effects w order (λ q', bool_decide (q' = q)) row qs Hrow st)
        as [_ (new' & Htrace' & _ & Hq)].
      rewrite Htrace in Htrace'. apply app_inv_tail in Htrace' as <-.
      pose proof (selected_one q qs Hnodup). lia.
    + intros q Hq.
      destruct (fill_row_effects w order (λ q', bool_decide (q' = q)) row qs Hrow st)
        as [_ (new' & Htrace' & _ & Hc)].
      rewrite Htrace in Htrace'. apply app_inv_tail in Htrace' as <-.
      rewrite selected_none in Hc by done. lia.
  - intros items Hr. subst st'.
    destruct (fill_row w row order st) as [r st1] eqn:Hrun. simpl in *. subst r.
    apply fill_row_Ok in Hrun as (_ & Hlen & Hlast). done.
  - intros n q tok items st0 data st1. apply paginate_abandon.
Qed.

Lemma fill_row_bounded_witness :
  (length (Demo.items_of (fill_row Demo.plentiful "War" "relevance" Demo.st0).1) ≤ 4)%nat ∧
  just_accepted (fill_row Demo.plentiful "War" "relevance" Demo.st0).2 ∧
  paginate Demo.barren 4 "war full movie" "relevance" None [] Demo.st0
  = (Ok (Next []), after [EvSearch "war full movie" "relevance" None 25] Demo.st0).
Proof.
  destruct (fill_row_bounded Demo.plentiful "War" "relevance" Demo.st0)
    as (_ & _ & Hres & _).
  destruct (Hres (Demo.items_of (fill_row Demo.plentiful "War" "relevance" Demo.st0).1))
    as [Hlen Hlast]; [vm_compute; reflexivity|].
  split; [exact Hlen|]. split; [apply Hlast; vm_compute; reflexivity|].
  destruct (fill_row_bounded Demo.barren "War" "relevance" Demo.st0)
    as (_ & _ & _ & Habandon).
  apply (Habandon 3%nat "war full movie" None [] Demo.st0 (Demo.page_of [] None));
    [vm_compute; reflexivity | vm_compute; reflexivity | reflexivity].
Defined.

Lemma row_filled_length w rows per_row :
  Forall2 (row_filled w) rows per_row →
  length (concat per_row) = (4 * length rows)%nat.
Proof.
  induction 1 as [|row its rows per_row [Hfour _] _ IH]; [done|].
  simpl. rewrite length_app, IH, Hfour. lia.
Qed.

Lemma shortfall_message_text row n :
  (n < 4)%nat →
  shortfall_message row n
  = "Could not fill row '" +:+ row +:+ "' with 4 valid movies. Found "
      +:+ String (ascii_of_nat (48 + n)) ".".
Proof. intros Hn. destruct n as [|[|[|[|n]]]]; [reflexivity..|lia]. Qed.

(** C1.  A run that succeeds writes one payload, whose items are the
    concatenation of five lists, one for each row title in order, each of
    exactly 4 items returned by the primary fill and the fallback pass of
    its row: 20 items.  A run that raises has written nothing, and raises
    either the failure of a request or [SystemExit] with the message
    [Could not fill row '<row>' with 4 valid movies. Found <n>.], where the
    row is one of the five and the count a digit below 4.  Whenever a row is
    reached and is still short after both passes, the run raises
    [SystemExit] with that message for that row and the count achieved. *)
Theorem row_cardinality w st :
  (∀ st',
     main w st = (Ok tt, st') →
     ∃ p per_row,
       written (trace st') = written (trace st) ++ [p] ∧
       items p = concat per_row ∧ Forall2 (row_filled w) ROW_TITLES per_row ∧
       length (items p) = 20%nat) ∧
  (∀ e st',
     main w st = (Raise e, st') →
     written (trace st') = written (trace st) ∧
     (e = RequestException
      ∨ ∃ row n, row ∈ ROW_TITLES ∧ (n < 4)%nat ∧
                 e = SystemExit
                       ("Could not fill row '" +:+ row
                          +:+ "' with 4 valid movies. Found "
                          +:+ String (ascii_of_nat (48 + n)) "."))) ∧
  (∀ filled row rest all_items st1 its st2,
     ROW_TITLES = filled ++ row :: rest →
     each_row w filled [] (started st) = (Ok all_items, st1) →
     fill_with_fallback w row st1 = (Ok its, st2) →
     (length its < 4)%nat →
     main w st
     = (Raise (SystemExit
                 ("Could not fill row '" +:+ row
                    +:+ "' with 4 valid movies. Found "
                    +:+ String (ascii_of_nat (48 + length its)) ".")), st2)).
Proof.
  split; [|split].
  - intros st'. rewrite main_unfold.
    destruct (each_row w ROW_TITLES [] (started st)) as [[all|e] st1] eqn:Hrows; [|done].
    intros [= <-].
    pose proof (each_row_quiet w ROW_TITLES [] (started st)) as [_ (new & Htrace & Hq & _)].
    rewrite Hrows in Htrace. simpl in Htrace.
    apply each_row_Ok in Hrows as (per_row & Hall & Hrows & _). simpl in Hall. subst all.
    exists {| date := utc_today w (trace st1); criteria := CRITERIA;
              row_titles := ROW_TITLES; items := concat per_row |}, per_row.
    split; [|split; [reflexivity|split; [done|]]].
    + unfold after. cbn [trace app]. rewrite !written_cons, Htrace.
      rewrite written_app, written_cons, (written_quiet new) by done.
      by rewrite !app_nil_r.
    + simpl. by rewrite (row_filled_length w _ _ Hrows).
  - intros e st'. rewrite main_unfold.
    destruct (each_row w ROW_TITLES [] (started st)) as [[all|e'] st1] eqn:Hrows; [done|].
    intros [= <- <-]. split.
    + pose proof (each_row_quiet w ROW_TITLES [] (started st)) as [_ (new & Htrace & Hq & _)].
      rewrite Hrows in Htrace. simpl in Htrace. rewrite Htrace.
      rewrite written_app, written_cons, (written_quiet new) by done.
      by rewrite !app_nil_r.
    + destruct (each_row_Raise w ROW_TITLES [] (started st) e' st1) as [He | He];
        [exact Hrows | apply ROW_TITLES_known | by left |].
      destruct He as (row & n & Hrow & Hn & ->). right. exists row, n.
      by rewrite shortfall_message_text.
  - intros filled row rest all st1 its st2 Hsplit Hfilled Hfill Hshort.
    rewrite main_unfold, Hsplit, each_row_app. unfold bind at 1. rewrite Hfilled.
    rewrite (each_row_short w row rest all st1 its st2) by done.
    by rewrite shortfall_message_text.
Qed.

Lemma row_cardinality_witness :
  (∃ p per_row,
     written (trace (main Demo.plentiful Demo.st0).2) = written (trace Demo.st0) ++ [p] ∧
     items p = concat per_row ∧ Forall2 (row_filled Demo.plentiful) ROW_TITLES per_row ∧
     length (items p) = 20%nat) ∧
  (written (trace (main Demo.barren Demo.st0).2) = written (trace Demo.st0) ∧
   (SystemExit "Could not fill row 'Recently Uploaded' with 4 valid movies. Found 0."
    = RequestException
    ∨ ∃ row n, row ∈ ROW_TITLES ∧ (n < 4)%nat ∧
               SystemExit "Could not fill row 'Recently Uploaded' with 4 valid movies. Found 0."
               = SystemExit
                   ("Could not fill row '" +:+ row
                      +:+ "' with 4 valid movies. Found "
                      +:+ String (ascii_of_nat (48 + n)) "."))) ∧
  main Demo.barren Demo.st0
  = (Raise (SystemExit "Could not fill row 'Recently Uploaded' with 4 valid movies. Found 0."),
     (fill_with_fallback Demo.barren "Recently Uploaded" (started Demo.st0)).2).
Proof.
  split; [|split].
  - apply (proj1 (row_cardinality Demo.plentiful Demo.st0)). vm_compute. reflexivity.
  - apply (proj1 (proj2 (row_cardinality Demo.barren Demo.st0))). vm_compute. reflexivity.
  - apply (proj2 (proj2 (row_cardinality Demo.barren Demo.st0))
             [] "Recently Uploaded" ["Popular"; "Political"; "War"; "History"]
             [] (started Demo.st0) []).
    + reflexivity.
    + reflexivity.
    + vm_compute. reflexivity.
    + simpl. lia.
Defined.

(** C2.  The payload written by a run that succeeds has no identifier
    twice.  The primary filler and the fallback pass accept an item only
    when its identifier is not in the seen set, and the seen set gains
    exactly the identifiers of the items accepted; whatever happens, the
    seen set loses no element. *)
Theorem no_duplicate_identifiers w :
  (∀ st st',
     main w st = (Ok tt, st') →
     ∃ p, written (trace st') = written (trace st) ++ [p] ∧
          NoDup (youtube_ids (items p))) ∧
  (∀ row order st its st',
     fill_row w row order st = (Ok its, st') → accepted st its st') ∧
  (∀ pool order row_items st its st',
     fallback_fill w pool order row_items st = (Ok its, st') →
     ∃ added, its = row_items ++ added ∧ accepted st added st') ∧
  (∀ row order st, seen_ids st ⊆ seen_ids (fill_row w row order st).2) ∧
  (∀ pool order row_items st,
     seen_ids st ⊆ seen_ids (fallback_fill w pool order row_items st).2).
Proof.
  split; [|split; [|split; [|split]]].
  - intros st st'. rewrite main_unfold.
    destruct (each_row w ROW_TITLES [] (started st)) as [[all|e] st1] eqn:Hrows; [|done].
    intros [= <-].
    pose proof (each_row_quiet w ROW_TITLES [] (started st)) as [_ (new & Htrace & Hq & _)].
    rewrite Hrows in Htrace. simpl in Htrace.
    apply each_row_Ok in Hrows as (per_row & Hall & _ & (_ & Hnodup & _)).
    simpl in Hall. subst all.
    exists {| date := utc_today w (trace st1); criteria := CRITERIA;
              row_titles := ROW_TITLES; items := concat per_row |}.
    split; [|exact Hnodup].
    unfold after. cbn [trace app]. rewrite !written_cons, Htrace.
    rewrite written_app, written_cons, (written_quiet new) by done.
    by rewrite !app_nil_r.
  - intros row order st its st' Hrun. by apply fill_row_Ok in Hrun as (Hacc & _).
  - intros pool order row_items st its st' Hrun.
    apply fallback_fill_Ok in Hrun as (added & -> & Hacc & _). by exists added.
  - intros row order st. destruct (ROW_QUERIES !! row) as [queries|] eqn:Hrow.
    + apply (fill_row_effects w order (λ _, true) row queries Hrow st).
    + by rewrite fill_row_unknown.
  - intros pool order row_items st.
    apply (fallback_fill_effects w order (λ _, true) pool row_items st).
Qed.

Lemma no_duplicate_identifiers_witness :
  (∃ p, written (trace (main Demo.plentiful Demo.st0).2) = written (trace Demo.st0) ++ [p] ∧
        NoDup (youtube_ids (items p))) ∧
  accepted Demo.st0
    (Demo.items_of (fill_row Demo.plentiful "War" "relevance" Demo.st0).1)
    (fill_row Demo.plentiful "War" "relevance" Demo.st0).2 ∧
  (∃ added,
     Demo.items_of (fallback_fill Demo.plentiful FALLBACK_POOL "date" [] Demo.st0).1
     = [] ++ added ∧
     accepted Demo.st0 added
       (fallback_fill Demo.plentiful FALLBACK_POOL "date" [] Demo.st0).2).
Proof.
  destruct (no_duplicate_identifiers Demo.plentiful) as (Hmain & Hfill & Hfallback & _).
  split; [|split].
  - apply Hmain. vm_compute. reflexivity.
  - apply (Hfill "War" "relevance"). vm_compute. reflexivity.
  - apply (Hfallback FALLBACK_POOL "date"). vm_compute. reflexivity.
Defined.

(** * Further properties of the script *)

(** ** The duration parser, continued *)

Lemma digit_value_range c : isdecimal c = true → 0 ≤ digit_value c ≤ 9.
Proof.
  unfold isdecimal, in_range, digit_value.
  intros [Hlo Hhi]%andb_true_iff. apply N.leb_le in Hlo, Hhi. lia.
Qed.

Lemma int_acc_nonneg ds acc :
  all_chars isdecimal ds = true → 0 ≤ acc → 0 ≤ int_acc acc ds.
Proof.
  revert acc. induction ds as [|c ds IH]; intros acc; simpl; [done|].
  intros [Hc Hds]%andb_true_iff Hacc. apply IH; [done|].
  pose proof (digit_value_range c Hc). lia.
Qed.

Lemma group_value_nonneg g :
  (∀ n, g = Some n → digits n) → 0 ≤ from_option int 0 g.
Proof.
  destruct g as [n|]; simpl; [|lia]. intros Hg.
  destruct (Hg n eq_refl) as [_ Hn]. by apply int_acc_nonneg.
Qed.

(** X2.  The duration parser never returns a negative number, and returns
    0 for every input that does not begin with the letters [PT] in upper
    case. *)
Theorem iso8601_nonneg d :
  0 ≤ iso8601_duration_to_minutes d ∧
  (iso8601_duration_to_minutes d ≠ 0 → ∃ rest, d = "PT" +:+ rest).
Proof.
  unfold iso8601_duration_to_minutes.
  destruct (DURATION_RE_match d) as [[[h m] s]|] eqn:Hm; [|split; [lia|done]].
  apply DURATION_RE_match_inv in Hm as (tail & _ & Hd & ->). split.
  - pose proof (group_value_nonneg h) as Hh. pose proof (group_value_nonneg m) as Hmin.
    assert (0 ≤ from_option int 0 h) by (apply Hh; intros; apply Hd; auto).
    assert (0 ≤ from_option int 0 m) by (apply Hmin; intros; apply Hd; auto).
    case_bool_decide; lia.
  - intros _. unfold compact_duration. rewrite str_app_assoc. by eexists.
Qed.

Lemma iso8601_nonneg_witness : ∃ rest, "PT1H0M45S" = "PT" +:+ rest.
Proof. apply (proj2 (iso8601_nonneg "PT1H0M45S")). vm_compute. discriminate. Defined.

(** ** The title sanitizer, continued *)

Lemma sub_spaces_spaced b s : single_spaced b (sub_spaces b s) = true.
Proof.
  revert b. induction s as [|c s IH]; intros b; simpl; [done|].
  destruct (isspace c) eqn:Hc.
  - destruct b; [apply IH|]. simpl. by rewrite IH.
  - simpl. rewrite Hc. apply IH.
Qed.

Lemma single_spaced_weaken s : single_spaced true s = true → single_spaced false s = true.
Proof.
  destruct s as [|c s]; simpl; [done|]. destruct (isspace c); [|done].
  by rewrite andb_false_r.
Qed.

Lemma lstrip_spaced b s : single_spaced b s = true → single_spaced false (lstrip s) = true.
Proof.
  revert b. induction s as [|c s IH]; intros b; simpl; [done|].
  destruct (isspace c) eqn:Hc.
  - intros [_ Hs]%andb_true_iff. by eapply IH.
  - intros Hs. simpl. by rewrite Hc.
Qed.

Lemma lstrip_first s : space_char (first_char (lstrip s)) = false.
Proof.
  induction s as [|c s IH]; simpl; [done|].
  destruct (isspace c) eqn:Hc; [done|]. simpl. done.
Qed.

Lemma rstrip_spaced b s : single_spaced b s = true → single_spaced b (rstrip s) = true.
Proof.
  revert b. induction s as [|c s IH]; intros b; [done|].
  change (rstrip (String c s)) with
    (match rstrip s with
     | EmptyString => if isspace c then EmptyString else String c EmptyString
     | r => String c r
     end).
  simpl single_spaced at 1. destruct (isspace c) eqn:Hc.
  - intros [Hhead Hs]%andb_true_iff. apply IH in Hs.
    destruct (rstrip s) as [|c2 r]; [done|].
    cbn [single_spaced]. rewrite Hc, Hhead. exact Hs.
  - intros Hs. apply IH in Hs.
    destruct (rstrip s) as [|c2 r]; cbn [single_spaced]; rewrite Hc; [done | exact Hs].
Qed.

Lemma rstrip_first s :
  space_char (first_char s) = false → space_char (first_char (rstrip s)) = false.
Proof.
  destruct s as [|c s]; [done|]. simpl. intros Hc.
  destruct (rstrip s); [by rewrite Hc|]; simpl; done.
Qed.

Lemma rstrip_last s : space_char (last_char (rstrip s)) = false.
Proof.
  induction s as [|c s IH]; [done|].
  change (rstrip (String c s)) with
    (match rstrip s with
     | EmptyString => if isspace c then EmptyString else String c EmptyString
     | r => String c r
     end).
  destruct (rstrip s) as [|c2 r].
  - destruct (isspace c) eqn:Hc; simpl; [done | by rewrite Hc].
  - exact IH.
Qed.

Lemma slice_to_spaced n b s : single_spaced b s = true → single_spaced b (slice_to n s) = true.
Proof.
  revert b s. induction n as [|n IH]; intros b [|c s]; simpl; try done.
  destruct (isspace c).
  - intros [Hhead Hs]%andb_true_iff. rewrite Hhead. by apply IH.
  - apply IH.
Qed.

Lemma slice_to_first n s :
  space_char (first_char s) = false → space_char (first_char (slice_to n s)) = false.
Proof. destruct n, s; simpl; done. Qed.

Lemma slice_to_short n s : (String.length (slice_to n s) < n)%nat → slice_to n s = s.
Proof.
  revert s. induction n as [|n IH]; intros [|c s]; simpl; try lia; try done.
  intros Hlen. f_equal. apply IH. lia.
Qed.

(** X5.  The sanitized title has at most 120 characters; its only
    whitespace is single spaces between other characters: no tab or line
    feed, no two spaces in a row, no space in front; and no space at the
    end unless the title was cut at 120 characters. *)
Theorem clean_title_normal_form title :
  let t := clean_title_for_tmdb title in
  (String.length t ≤ 120)%nat ∧
  single_spaced false t = true ∧
  space_char (first_char t) = false ∧
  ((String.length t < 120)%nat → space_char (last_char t) = false).
Proof.
  intros t. subst t. unfold clean_title_for_tmdb.
  set (u := sub_spaces false (sub_brackets 0 (sub_junk 0 None title))).
  assert (Hu : single_spaced false u = true) by apply sub_spaces_spaced.
  split; [apply slice_to_length|]. split; [|split].
  - apply slice_to_spaced. unfold strip. apply rstrip_spaced. by eapply lstrip_spaced.
  - apply slice_to_first. unfold strip. apply rstrip_first, lstrip_first.
  - intros Hshort. rewrite slice_to_short by done. apply rstrip_last.
Qed.

Lemma clean_title_normal_form_witness :
  space_char (last_char (clean_title_for_tmdb "War Movie (2020) FULL MOVIE HD [1080p]"))
  = false.
Proof.
  apply (clean_title_normal_form "War Movie (2020) FULL MOVIE HD [1080p]").
  vm_compute. lia.
Defined.

(** ** Items, continued *)

Lemma odd_run :
  build_item_from_video Demo.odd_world Demo.bare_video Demo.st0
  = (Ok (Some Demo.odd_item), Demo.odd_state).
Proof. vm_compute. reflexivity. Qed.

Lemma wikidata_awards_Ok w film st aw st' :
  wikidata_awards_for_film w film st = (Ok aw, st') →
  StronglySorted String.le aw ∧ NoDup aw ∧
  ∀ l, l ∈ aw → ∃ qid, WIKIDATA_AWARD_QIDS !! qid = Some l.
Proof.
  assert (Hnil : StronglySorted String.le [] ∧ NoDup (A:=string) [] ∧
                 ∀ l : string, l ∈ [] → ∃ qid, WIKIDATA_AWARD_QIDS !! qid = Some l).
  { split; [constructor|]. split; [constructor|]. by intros l ?%elem_of_nil. }
  unfold wikidata_awards_for_film. destruct (truthy film); [|by intros [= <- _]].
  intros (r & st1 & _ & Hrun)%bind_Ok.
  case_bool_decide; injection Hrun as <- _; [|done].
  destruct (sorted_fromkeys_spec (award_labels (bindings r))) as (Hs & Hn & He).
  split; [done|]. split; [done|].
  intros l (b & _ & Hl)%He%award_labels_elem. eauto.
Qed.

Lemma build_item_Some_awards w v st it st' :
  build_item_from_video w v st = (Ok (Some it), st') →
  it = plain_item v
  ∨ ∃ h i d aw s1 s2,
      tmdb_details_api w h i = Some d ∧
      wikidata_awards_for_film w (imdb_of d) s1 = (Ok aw, s2) ∧
      it = enriched_item v d aw.
Proof.
  intros Hb. destruct (build_item_Some _ _ _ _ _ Hb) as [Hv _]. revert Hb.
  unfold valid_candidate in Hv. unfold build_item_from_video.
  destruct (YT_ID_RE_match _); simpl in *; [|done].
  destruct (_ || _); simpl in *; [done|].
  case_bool_decide; simpl in *; [done|]. clear Hv.
  intros (hit & st1 & _ & Hb)%bind_Ok.
  apply bind_Ok in Hb as (draft & st2 & Hdraft & Hb).
  destruct (hit_movie_id hit) as [i|]; cycle 1.
  { injection Hdraft as <- <-. simpl in Hb. injection Hb as <- _. by left. }
  apply bind_Ok in Hdraft as (d & st3 & Hd & Hdraft).
  unfold tmdb_movie_details in Hd. apply request_Ok in Hd as [Hd _].
  apply bind_Ok in Hdraft as (aw & st4 & Haw & Hdraft). injection Hdraft as <- <-.
  right. exists (trace st1), i, d, aw, st3, st4. split; [done|]. split; [done|].
  unfold enriched_item. simpl in Hb.
  destruct (truthy (poster_of d)); by injection Hb as <- _.
Qed.

Lemma AWARD_LABELS_elem l :
  l ∈ AWARD_LABELS ↔ ∃ qid, WIKIDATA_AWARD_QIDS !! qid = Some l.
Proof.
  unfold AWARD_LABELS. rewrite list_elem_of_fmap. split.
  - intros ([qid l'] & -> & Hin%elem_of_map_to_list). by exists qid.
  - intros (qid & Hl). exists (qid, l). split; [done|]. by apply elem_of_map_to_list.
Qed.

(** X7.  The awards of an item are labels of the allow-list, in ascending
    order and without repetition; there are at most 8 of them. *)
Theorem item_awards w v st it st' :
  build_item_from_video w v st = (Ok (Some it), st') →
  StronglySorted String.le (awards it) ∧ NoDup (awards it) ∧
  (∀ l, l ∈ awards it → ∃ qid, WIKIDATA_AWARD_QIDS !! qid = Some l) ∧
  (length (awards it) ≤ 8)%nat.
Proof.
  intros Hb.
  assert (Haw : StronglySorted String.le (awards it) ∧ NoDup (awards it) ∧
                ∀ l, l ∈ awards it → ∃ qid, WIKIDATA_AWARD_QIDS !! qid = Some l).
  { apply build_item_Some_awards in Hb
      as [-> | (h & i & d & aw & s1 & s2 & _ & Haw & ->)]; simpl.
    - split; [constructor|]. split; [constructor|]. by intros l ?%elem_of_nil.
    - by eapply wikidata_awards_Ok. }
  destruct Haw as (Hs & Hn & Hl). repeat split; try done.
  change 8%nat with (length AWARD_LABELS).
  apply submseteq_length, NoDup_submseteq; [done|].
  intros l Hin. apply AWARD_LABELS_elem. auto.
Qed.

Lemma item_awards_witness :
  StronglySorted String.le (awards Demo.odd_item) ∧ NoDup (awards Demo.odd_item) ∧
  (∀ l, l ∈ awards Demo.odd_item → ∃ qid, WIKIDATA_AWARD_QIDS !! qid = Some l) ∧
  (length (awards Demo.odd_item) ≤ 8)%nat.
Proof. exact (item_awards _ _ _ _ _ odd_run). Defined.

(** X6.  An item carries the identifier of the record it is made of; that
    identifier matches the identifier pattern and the record lasts at least
    75 minutes. *)
Theorem item_of_valid_record w v st it st' :
  build_item_from_video w v st = (Ok (Some it), st') →
  youtubeId it = candidate_vid v ∧
  YT_ID_RE_match (youtubeId it) = true ∧
  MIN_MINUTES ≤ candidate_minutes v.
Proof.
  intros Hb. pose proof (build_item_youtubeId _ _ _ _ _ Hb) as Hid.
  apply build_item_Some in Hb as [Hv _]. unfold valid_candidate in Hv.
  apply andb_true_iff in Hv as [[Hre _]%andb_true_iff Hmin].
  apply negb_true_iff, bool_decide_eq_false in Hmin.
  rewrite Hid. split; [done|]. split; [done|]. lia.
Qed.

Lemma item_of_valid_record_witness :
  youtubeId Demo.odd_item = candidate_vid Demo.bare_video ∧
  YT_ID_RE_match (youtubeId Demo.odd_item) = true ∧
  MIN_MINUTES ≤ candidate_minutes Demo.bare_video.
Proof. exact (item_of_valid_record _ _ _ _ _ odd_run). Defined.

Lemma slice_to_truthy_length n s :
  truthy (slice_to n s) = true → (1 ≤ String.length (slice_to n s))%nat.
Proof. destruct (slice_to n s); simpl; [done | lia]. Qed.

(** X8.  The year of an item is empty when the lookup found nothing.
    When it fetched details, the year is the first four characters of their
    release date, or all of it when it is shorter, if that is at least one
    character and digits only; it is empty otherwise.  So a year is empty,
    or has between 1 and 4 characters, all digits. *)
Theorem item_year w v st it st' :
  build_item_from_video w v st = (Ok (Some it), st') →
  (finds_nothing w v st → year it = EmptyString) ∧
  (∀ i d, fetches w v st i d →
     let y := slice_to 4 (default EmptyString (release_date d)) in
     (y ≠ EmptyString → all_chars isdigit_char y = true → year it = y) ∧
     (y = EmptyString ∨ all_chars isdigit_char y = false → year it = EmptyString)) ∧
  (year it = EmptyString
   ∨ (1 ≤ String.length (year it) ≤ 4)%nat ∧ all_chars isdigit_char (year it) = true).
Proof.
  intros Hb. destruct (build_item_lookup w v st it st' Hb) as (Hplain & Hfetched & Hcases).
  split; [|split].
  - intros Hn. by rewrite (Hplain Hn).
  - intros i d Hf y. destruct (Hfetched i d Hf) as [aw ->].
    cbn [year enriched_item]. unfold year_of, isdigit. fold y. split.
    + intros Hne%truthy_spec Hall. by rewrite Hne, Hall.
    + intros [Hy | Hall]; [by rewrite Hy|]. rewrite Hall. by destruct (truthy y).
  - destruct Hcases as [Hn | (i & d & Hf)]; [left; by rewrite (Hplain Hn)|].
    destruct (Hfetched i d Hf) as [aw ->]. cbn [year enriched_item]. unfold year_of.
    destruct (isdigit _) eqn:Hdig; [|by left]. right.
    apply andb_true_iff in Hdig as [Hne Hall]. split; [|done].
    split; [by apply slice_to_truthy_length | apply slice_to_length].
Qed.

Lemma item_year_witness :
  year (enriched_item Demo.bare_video Demo.short_release []) = "195".
Proof.
  destruct (item_year (Demo.metadata_world Demo.short_release Demo.no_awards)
              Demo.bare_video Demo.st0
              (enriched_item Demo.bare_video Demo.short_release [])
              (after [EvTmdbDetails 975; EvTmdbSearch "Paths of Glory"] Demo.st0))
    as (_ & Hfetched & _).
  - vm_compute. reflexivity.
  - destruct (Hfetched 975 Demo.short_release (metadata_world_fetches _ _)) as [Hyear _].
    apply Hyear; [discriminate | reflexivity].
Defined.

Example short_release_date :
  year_of {| release_date := Some "195"; d_credits := None; poster_path := None;
             d_external_ids := None; d_title := None |} = "195".
Proof. reflexivity. Qed.

Lemma filter_first {A} (f : A → bool) (l : list A) :
  (List.filter f l = [] ∧ Forall (λ x, f x = false) l)
  ∨ ∃ pre x post,
      l = pre ++ x :: post ∧ Forall (λ y, f y = false) pre ∧ f x = true ∧
      head (List.filter f l) = Some x.
Proof.
  induction l as [|a l IH]; [left; by split|]. simpl.
  destruct (f a) eqn:Ha.
  - right. by exists [], a, l.
  - destruct IH as [[Hnil Hall] | (pre & x & post & -> & Hpre & Hx & Hhead)].
    + left. split; [done | by constructor].
    + right. exists (a :: pre), x, post. repeat split; try done. by constructor.
Qed.

Lemma is_director_false c :
  is_director c = false →
  job c ≠ Some "Director" ∨ crew_name c = None ∨ crew_name c = Some EmptyString.
Proof.
  unfold is_director. intros [Hjob | Hname]%andb_false_iff.
  - left. by apply bool_decide_eq_false in Hjob.
  - right. apply bool_decide_eq_false in Hname.
    destruct (crew_name c) as [[|a name]|]; auto.
    exfalso. apply Hname. by eexists.
Qed.

(** X9.  The director of an item is empty when the lookup found nothing.
    When it fetched details, the director is the name of the first crew
    entry of those details whose job is exactly [Director] and whose name
    is not empty: entries with another job, and [Director] entries without
    a name, are passed over.  When no crew entry qualifies the director is
    empty. *)
Theorem item_director w v st it st' :
  build_item_from_video w v st = (Ok (Some it), st') →
  let passed_over := λ c : crew_member,
    job c ≠ Some "Director" ∨ crew_name c = None ∨ crew_name c = Some EmptyString in
  (finds_nothing w v st → director it = EmptyString) ∧
  (∀ i d, fetches w v st i d →
     (∃ pre c post,
        crew_list d = pre ++ c :: post ∧ Forall passed_over pre ∧
        job c = Some "Director" ∧ crew_name c = Some (director it) ∧
        director it ≠ EmptyString)
     ∨ (Forall passed_over (crew_list d) ∧ director it = EmptyString)).
Proof.
  intros Hb passed_over.
  destruct (build_item_lookup w v st it st' Hb) as (Hplain & Hfetched & _).
  split.
  - intros Hn. by rewrite (Hplain Hn).
  - intros i d Hf. destruct (Hfetched i d Hf) as [aw ->].
    cbn [director enriched_item]. unfold director_of. fold (crew_list d).
    destruct (filter_first is_director (crew_list d))
      as [[-> Hall] | (pre & c & post & Hsplit & Hpre & Hc & Hhead)].
    { right. split; [|done]. eapply Forall_impl; [exact Hall|].
      intros c. apply is_director_false. }
    destruct (List.filter is_director (crew_list d)) as [|c' rest]; [done|].
    injection Hhead as ->. left. exists pre, c, post.
    unfold is_director in Hc. apply andb_true_iff in Hc as [Hjob Hname].
    apply bool_decide_eq_true in Hjob, Hname. destruct Hname as [name Hname].
    apply nonempty_Some in Hname as [Hname Hne]. rewrite Hname. simpl.
    split; [done|]. split; [|done].
    eapply Forall_impl; [exact Hpre|]. intros c'. apply is_director_false.
Qed.

Lemma item_director_witness :
  ∃ pre c post,
    crew_list Demo.short_release = pre ++ c :: post ∧ length pre = 2%nat ∧
    crew_name c = Some "Stanley Kubrick" ∧
    director (enriched_item Demo.bare_video Demo.short_release []) = "Stanley Kubrick".
Proof.
  destruct (item_director (Demo.metadata_world Demo.short_release Demo.no_awards)
              Demo.bare_video Demo.st0
              (enriched_item Demo.bare_video Demo.short_release [])
              (after [EvTmdbDetails 975; EvTmdbSearch "Paths of Glory"] Demo.st0))
    as (_ & Hfetched).
  - vm_compute. reflexivity.
  - destruct (Hfetched 975 Demo.short_release (metadata_world_fetches _ _))
      as [(pre & c & post & Hsplit & Hpre & Hjob & Hname & Hne) | [_ Hnone]];
      [|discriminate Hnone].
    exists pre, c, post. split; [exact Hsplit|]. split; [|split; [exact Hname | reflexivity]].
    destruct pre as [|c1 [|c2 [|c3 pre]]]; [| |reflexivity|].
    + injection Hsplit as <- _. discriminate Hjob.
    + injection Hsplit as _ <- _. discriminate Hname.
    + injection Hsplit as _ _ _ Hnil. by destruct pre.
Defined.

(** X10.  An item has at most two leads, and none of them is empty. *)
Theorem item_leads_bound w v st it st' :
  build_item_from_video w v st = (Ok (Some it), st') →
  (length (leads it) ≤ 2)%nat ∧ Forall (λ name, name ≠ EmptyString) (leads it).
Proof.
  intros [_ [-> | (h & i & d & aw & Hd & ->)]]%build_item_Some; simpl.
  { split; [lia | constructor]. }
  unfold leads_of. split; [rewrite length_take; lia|].
  apply Forall_take, Forall_forall. intros name (c & _ & Hname)%list_elem_of_omap.
  by apply nonempty_Some in Hname as [_ Hne].
Qed.

Lemma item_leads_bound_witness :
  (length (leads Demo.odd_item) ≤ 2)%nat ∧
  Forall (λ name, name ≠ EmptyString) (leads Demo.odd_item).
Proof. exact (item_leads_bound _ _ _ _ _ odd_run). Defined.

Lemma film_fetches d r :
  fetches (Demo.metadata_world d r) (Demo.paths_of_glory "abcdefghijk") Demo.st0 975 d.
Proof.
  split; [by vm_compute|]. exists {| hit_id := Some 975 |}, []. by repeat split.
Qed.

(** X11.  The poster of an item is the best thumbnail of its record when
    the lookup found nothing, and when it fetched details without a poster
    path.  When the fetched details have a non-empty poster path, the
    poster is [https://image.tmdb.org/t/p/w500] followed by that path,
    whatever thumbnails the record has. *)
Theorem item_poster w v st it st' :
  build_item_from_video w v st = (Ok (Some it), st') →
  (finds_nothing w v st → posterUrl it = pick_best_thumbnail (candidate_snippet v)) ∧
  (∀ i d, fetches w v st i d →
     (∀ path, poster_path d = Some path → path ≠ EmptyString →
        posterUrl it = "https://image.tmdb.org/t/p/w500" +:+ path) ∧
     (poster_path d = None ∨ poster_path d = Some EmptyString →
      posterUrl it = pick_best_thumbnail (candidate_snippet v))).
Proof.
  intros Hb. destruct (build_item_lookup w v st it st' Hb) as (Hplain & Hfetched & _).
  split.
  - intros Hn. by rewrite (Hplain Hn).
  - intros i d Hf. destruct (Hfetched i d Hf) as [aw ->].
    cbn [posterUrl enriched_item]. unfold poster_of. split.
    + intros path -> Hne. by destruct path.
    + by intros [-> | ->].
Qed.

Lemma item_poster_witness :
  pick_best_thumbnail (candidate_snippet (Demo.paths_of_glory "abcdefghijk"))
  = "https://i.ytimg.com/vi/x/hqdefault.jpg" ∧
  posterUrl (enriched_item (Demo.paths_of_glory "abcdefghijk") Demo.odd_details
               ["Oscar Best Director"; "Oscar Best Picture"])
  = "https://image.tmdb.org/t/p/w500/paths.jpg".
Proof.
  split; [vm_compute; reflexivity|].
  destruct (item_poster Demo.odd_world (Demo.paths_of_glory "abcdefghijk") Demo.st0
              (enriched_item (Demo.paths_of_glory "abcdefghijk") Demo.odd_details
                 ["Oscar Best Director"; "Oscar Best Picture"])
              Demo.odd_state)
    as (_ & Hfetched).
  - vm_compute. reflexivity.
  - destruct (Hfetched 975 Demo.odd_details (film_fetches _ _)) as [Hpath _].
    apply (Hpath "/paths.jpg"); [reflexivity | discriminate].
Defined.

Lemma bind_ext {A B} (m1 m2 : M A) (k1 k2 : A → M B) st :
  m1 st = m2 st → (∀ a st1, k1 a st1 = k2 a st1) →
  bind m1 k1 st = bind m2 k2 st.
Proof. intros Hm Hk. unfold bind. rewrite Hm. by destruct (m2 st) as [[a|e] st1]. Qed.

Lemma wikidata_awards_ext w1 w2 film st :
  (∀ h f, wikidata_api w1 h f = wikidata_api w2 h f) →
  wikidata_awards_for_film w1 film st = wikidata_awards_for_film w2 film st.
Proof.
  intros Hw. unfold wikidata_awards_for_film. destruct (truthy film); [|done].
  unfold bind, wikidata_get, request. by rewrite Hw.
Qed.

(** X12.  Only the first result of the metadata search counts: two
    environments that agree on the first result of every metadata search,
    on the details and on the knowledge graph make
    [build_item_from_video] return the same thing in the same state. *)
Theorem first_result_wins w1 w2 v st :
  (∀ h q, head <$> tmdb_search_api w1 h q = head <$> tmdb_search_api w2 h q) →
  (∀ h i, tmdb_details_api w1 h i = tmdb_details_api w2 h i) →
  (∀ h f, wikidata_api w1 h f = wikidata_api w2 h f) →
  build_item_from_video w1 v st = build_item_from_video w2 v st.
Proof.
  intros Hsearch Hdetails Hwiki. unfold build_item_from_video.
  destruct (negb _); [done|]. destruct (_ || _); [done|].
  case_bool_decide; [done|].
  set (q := clean_title_for_tmdb (candidate_title v)).
  assert (Hhit : (if truthy q then tmdb_search_movie w1 q else ret None) st
                 = (if truthy q then tmdb_search_movie w2 q else ret None) st).
  { destruct (truthy q); [|done].
    unfold tmdb_search_movie, bind, request. specialize (Hsearch (trace st) q).
    destruct (tmdb_search_api w1 (trace st) q), (tmdb_search_api w2 (trace st) q);
      simpl in Hsearch; try done.
    injection Hsearch as Hhead. unfold ret. by rewrite Hhead. }
  apply bind_ext; [exact Hhit|]. intros hit st1.
  apply bind_ext; [|done].
  destruct (hit_movie_id hit) as [i|]; [|done].
  apply bind_ext.
  - unfold tmdb_movie_details, request. by rewrite Hdetails.
  - intros d st2. apply bind_ext; [by apply wikidata_awards_ext | done].
Qed.

Lemma first_result_wins_witness :
  build_item_from_video Demo.odd_world Demo.bare_video Demo.st0
  = build_item_from_video Demo.two_hits_world Demo.bare_video Demo.st0.
Proof. apply first_result_wins; reflexivity. Defined.

(** ** Where the items of a run come from *)

Section Built.

Context (w : world).

Lemma scan_videos_built vids items st r st' :
  scan_videos w vids items st = (Ok r, st') →
  Forall (built w) items → Forall (built w) (flow_value r).
Proof.
  revert items st. induction vids as [|v vids IH]; intros items st; simpl.
  - by intros [= <- <-].
  - unfold bind at 1, get_seen at 1. case_bool_decide; [apply IH|].
    intros (item & st1 & Hbuild & Hrun)%bind_Ok Hitems.
    destruct item as [it|]; [|by eapply IH].
    unfold bind at 1, seen_add at 1 in Hrun.
    assert (Hall : Forall (built w) (items ++ [it])).
    { apply Forall_app. split; [done|]. constructor; [|done]. by exists v, st, st1. }
    case_bool_decide; [by injection Hrun as <- <- | by eapply IH].
Qed.

Lemma paginate_built n q order tok items st r st' :
  paginate w n q order tok items st = (Ok r, st') →
  Forall (built w) items → Forall (built w) (flow_value r).
Proof.
  revert tok items st. induction n as [|n IH]; intros tok items st; simpl.
  - by intros [= <- <-].
  - intros (data & st1 & _ & Hrun)%bind_Ok Hitems.
    unfold bind at 1, get_seen at 1 in Hrun.
    destruct (take 50 (new_ids (seen_ids st1) data)) as [|vid ids].
    { destruct (nonempty (nextPageToken data)); [by eapply IH|].
      by injection Hrun as <- <-. }
    apply bind_Ok in Hrun as (vids & st2 & _ & Hrun).
    apply bind_Ok in Hrun as (r1 & st3 & Hscan & Hrun).
    apply scan_videos_built in Hscan; [|done].
    destruct r1 as [its|its]; [|by injection Hrun as <- <-].
    destruct (nonempty (nextPageToken data)); [|by injection Hrun as <- <-].
    unfold bind at 1, sleep, emit at 1 in Hrun. by eapply IH.
Qed.

Lemma each_query_built qs order items st r st' :
  each_query w qs order items st = (Ok r, st') →
  Forall (built w) items → Forall (built w) (flow_value r).
Proof.
  revert items st. induction qs as [|q qs IH]; intros items st.
  - by intros [= <- <-].
  - rewrite each_query_cons. intros (r1 & st1 & Hpage & Hrun)%bind_Ok Hitems.
    apply paginate_built in Hpage; [|done].
    destruct r1 as [its|its]; [|by injection Hrun as <- <-].
    case_bool_decide; [by injection Hrun as <- <- | by eapply IH].
Qed.

Lemma fill_row_built row order st its st' :
  fill_row w row order st = (Ok its, st') → Forall (built w) its.
Proof.
  unfold fill_row. destruct (ROW_QUERIES !! row) as [queries|]; [|done].
  intros (qs & st1 & _ & Hrun)%bind_Ok.
  apply bind_Ok in Hrun as (r & st2 & Hq & Hrun). injection Hrun as <- <-.
  by apply each_query_built in Hq.
Qed.

Lemma fallback_scan_built vids items st its st' :
  fallback_scan w vids items st = (Ok its, st') →
  Forall (built w) items → Forall (built w) its.
Proof.
  revert items st. induction vids as [|v vids IH]; intros items st; simpl.
  - by intros [= <- <-].
  - case_bool_decide; [by intros [= <- <-]|].
    unfold bind at 1, get_seen at 1. case_bool_decide; [apply IH|].
    intros (item & st1 & Hbuild & Hrun)%bind_Ok Hitems.
    destruct item as [it|]; [|by eapply IH].
    unfold bind at 1, seen_add at 1 in Hrun. eapply IH; [exact Hrun|].
    apply Forall_app. split; [done|]. constructor; [|done]. by exists v, st, st1.
Qed.

Lemma fallback_fill_built pool order items st its st' :
  fallback_fill w pool order items st = (Ok its, st') →
  Forall (built w) items → Forall (built w) its.
Proof.
  revert items st. induction pool as [|fb pool IH]; intros items st; simpl.
  - by intros [= <- <-].
  - case_bool_decide; [by intros [= <- <-]|].
    intros (data & st1 & _ & Hrun)%bind_Ok Hitems.
    unfold bind at 1, get_seen at 1 in Hrun.
    apply bind_Ok in Hrun as (vids & st2 & _ & Hrun).
    apply bind_Ok in Hrun as (its1 & st3 & Hscan & Hrun).
    apply fallback_scan_built in Hscan; [|done]. by eapply IH.
Qed.

Lemma fill_with_fallback_built row st its st' :
  fill_with_fallback w row st = (Ok its, st') → Forall (built w) its.
Proof.
  unfold fill_with_fallback. intros (its0 & st1 & Hfill & Hrun)%bind_Ok.
  apply fill_row_built in Hfill.
  case_bool_decide; [by eapply fallback_fill_built | by injection Hrun as <- <-].
Qed.

Lemma each_row_built rows all st all' st' :
  each_row w rows all st = (Ok all', st') →
  Forall (built w) all → Forall (built w) all'.
Proof.
  revert all st. induction rows as [|row rows IH]; intros all st; simpl.
  - by intros [= <- <-].
  - intros (its & st1 & Hfill & Hrun)%bind_Ok Hall.
    case_bool_decide; [done|]. eapply IH; [exact Hrun|].
    apply Forall_app. split; [done | by eapply fill_with_fallback_built].
Qed.

Lemma built_title it : built w it → title it ≠ EmptyString.
Proof.
  intros (v & st & st' & [Hv Hit]%build_item_Some).
  apply valid_candidate_title in Hv as [Hne _].
  destruct Hit as [-> | (h & i & d & aw & _ & ->)]; simpl; [done|].
  destruct (nonempty (d_title d)) as [t|] eqn:Ht; simpl; [|done].
  by apply nonempty_Some in Ht as [_ Hne'].
Qed.

Lemma built_id it : built w it → YT_ID_RE_match (youtubeId it) = true.
Proof.
  intros (v & st & st' & Hb). rewrite (build_item_youtubeId _ _ _ _ _ Hb).
  apply build_item_Some in Hb as [Hv _]. unfold valid_candidate in Hv.
  by apply andb_true_iff in Hv as [[Hre _]%andb_true_iff _].
Qed.

End Built.

(** X13.  Every item of the payload a run writes is what
    [build_item_from_video] returned for some record, in the primary fill
    or in the fallback pass: it has a non-empty title and an identifier
    that matches the identifier pattern. *)
Theorem written_items_built w st st' :
  main w st = (Ok tt, st') →
  ∃ p, written (trace st') = written (trace st) ++ [p] ∧
       Forall (λ it, built w it ∧ title it ≠ EmptyString ∧
                     YT_ID_RE_match (youtubeId it) = true) (items p).
Proof.
  rewrite main_unfold.
  destruct (each_row w ROW_TITLES [] (started st)) as [[all|e] st1] eqn:Hrows; [|done].
  intros [= <-].
  pose proof (each_row_quiet w ROW_TITLES [] (started st)) as [_ (new & Htrace & Hq & _)].
  rewrite Hrows in Htrace. simpl in Htrace.
  apply each_row_built in Hrows; [|constructor].
  exists {| date := utc_today w (trace st1); criteria := CRITERIA;
            row_titles := ROW_TITLES; items := all |}.
  split.
  - unfold after. cbn [trace app]. rewrite !written_cons, Htrace.
    rewrite written_app, written_cons, (written_quiet new) by done.
    by rewrite !app_nil_r.
  - simpl. eapply Forall_impl; [exact Hrows|]. intros it Hit.
    split; [done|]. split; [by apply (built_title w) | by apply (built_id w)].
Qed.

Lemma written_items_built_witness :
  ∃ p, written (trace (main Demo.plentiful Demo.st0).2) = written (trace Demo.st0) ++ [p] ∧
       Forall (λ it, built Demo.plentiful it ∧ title it ≠ EmptyString ∧
                     YT_ID_RE_match (youtubeId it) = true) (items p).
Proof. apply written_items_built. vm_compute. reflexivity. Defined.

(** X14.  A run that succeeds ends with two events: the payload is written
    to [data/today.json], then the line reporting 20 items is printed.
    Nothing was written before; the payload carries the five row titles
    and the fixed criteria. *)
Theorem run_ends_with_write w st st' :
  main w st = (Ok tt, st') →
  ∃ p new,
    trace st'
    = EvPrint "Wrote data/today.json with 20 items."
        :: EvWrite "data/today.json" p :: new ++ EvMakedirs "data" :: trace st ∧
    Forall quiet new ∧
    row_titles p = ROW_TITLES ∧ criteria p = CRITERIA ∧ length (items p) = 20%nat.
Proof.
  rewrite main_unfold.
  destruct (each_row w ROW_TITLES [] (started st)) as [[all|e] st1] eqn:Hrows; [|done].
  intros [= <-].
  pose proof (each_row_quiet w ROW_TITLES [] (started st)) as [_ (new & Htrace & Hq & _)].
  rewrite Hrows in Htrace. simpl in Htrace.
  apply each_row_Ok in Hrows as (per_row & Hall & Hrows & _). simpl in Hall. subst all.
  pose proof (row_filled_length w _ _ Hrows) as Hlen. simpl in Hlen.
  exists {| date := utc_today w (trace st1); criteria := CRITERIA;
            row_titles := ROW_TITLES; items := concat per_row |}, new.
  split; [|by repeat split].
  unfold after. cbn [trace app]. by rewrite Hlen, Htrace.
Qed.

Lemma run_ends_with_write_witness :
  ∃ p new,
    trace (main Demo.plentiful Demo.st0).2
    = EvPrint "Wrote data/today.json with 20 items."
        :: EvWrite "data/today.json" p :: new ++ EvMakedirs "data" :: trace Demo.st0 ∧
    Forall quiet new ∧
    row_titles p = ROW_TITLES ∧ criteria p = CRITERIA ∧ length (items p) = 20%nat.
Proof.
  apply (run_ends_with_write Demo.plentiful Demo.st0). vm_compute. reflexivity.
Defined.

(** ** The search budget of a run *)

Lemma fill_with_fallback_searches w row :
  effects quiet (λ _, true) 20 (fill_with_fallback w row).
Proof.
  eapply effects_mono;
    [|eapply effects_weaken; [|apply (fill_with_fallback_effects w (λ _, true) row)]].
  - rewrite !selected_all. change (length FALLBACK_POOL) with 4%nat.
    destruct (ROW_QUERIES !! row) as [qs|] eqn:Hrow; simpl; [|lia].
    apply ROW_QUERIES_shape in Hrow as [-> _]. lia.
  - intros e. apply fill_event_quiet.
Qed.

Lemma each_row_searches w rows all :
  effects quiet (λ _, true) (20 * length rows) (each_row w rows all).
Proof.
  revert all. induction rows as [|row rows IH]; intros all; simpl length.
  - apply effects_ret.
  - eapply effects_mono; cycle 1.
    + simpl each_row.
      apply (effects_bind _ _ 20 (20 * length rows)); [apply fill_with_fallback_searches|].
      intros its. case_bool_decide; [|apply IH].
      eapply effects_mono; [|apply effects_raise]. lia.
    + lia.
Qed.

(** X15.  Whatever the environment answers, the primary fill and the
    fallback pass of one row make at most 20 search requests, and a whole
    run makes at most 100. *)
Theorem run_search_budget w st :
  (∀ row, ∃ new,
     trace (fill_with_fallback w row st).2 = new ++ trace st ∧
     (search_count (λ _, true) new ≤ 20)%nat) ∧
  ∃ new,
    trace (main w st).2 = new ++ trace st ∧
    (search_count (λ _, true) new ≤ 100)%nat.
Proof.
  split.
  - intros row.
    destruct (fill_with_fallback_searches w row st) as [_ (new & Ht & _ & Hn)]. eauto.
  - destruct (each_row_searches w ROW_TITLES [] (started st)) as [_ (new & Ht & _ & Hn)].
    change (20 * length ROW_TITLES)%nat with 100%nat in Hn.
    assert (Hbase : search_count (λ _, true) (new ++ [EvMakedirs "data"])
                    = search_count (λ _, true) new).
    { rewrite search_count_app. unfold search_count at 2. simpl. lia. }
    rewrite main_unfold.
    destruct (each_row w ROW_TITLES [] (started st)) as [[all|e] st1];
      cbn [snd started trace after] in Ht |- *.
    + eexists (_ :: _ :: new ++ [EvMakedirs "data"]). split.
      * rewrite Ht. cbn [app]. by rewrite <- app_assoc.
      * rewrite !search_count_cons, Hbase. simpl. lia.
    + exists (new ++ [EvMakedirs "data"]). split.
      * rewrite Ht. by rewrite <- app_assoc.
      * by rewrite Hbase.
Qed.

(** ** Failing fast *)

Section FailFast.

Context (w : world).

Lemma all_answered_app base t1 t2 :
  all_answered w base t1 → all_answered w (t1 ++ base) t2 →
  all_answered w base (t2 ++ t1).
Proof.
  intros H1. induction t2 as [|e t2 IH]; simpl; [done|].
  intros [He H2]. split; [by rewrite <- app_assoc | by apply IH].
Qed.

Lemma ff_ret {A} (a : A) : fails_fast w (ret a).
Proof. intros st. by exists []. Qed.

Lemma ff_raise {A} e : e ≠ RequestException → fails_fast w (raise (A:=A) e).
Proof. intros He st. exists []. split; [done|]. simpl. by destruct e. Qed.

Lemma ff_bind {A B} (m : M A) (k : A → M B) :
  fails_fast w m → (∀ a, fails_fast w (k a)) → fails_fast w (bind m k).
Proof.
  intros Hm Hk st. unfold bind. destruct (Hm st) as (new1 & Ht1 & H1).
  destruct (m st) as [[a|e1] st1]; simpl in Ht1, H1; [|by exists new1].
  destruct (Hk a st1) as (new2 & Ht2 & H2). rewrite Ht1 in Ht2, H2.
  exists (new2 ++ new1). split; [by rewrite Ht2, app_assoc|].
  destruct (k a st1) as [[b|e2] st2]; simpl in H2 |- *; [by apply all_answered_app|].
  destruct e2; try by apply all_answered_app.
  destruct H2 as (e & t & -> & Href & Ht). exists e, (t ++ new1).
  split; [done|]. split; [by rewrite <- app_assoc | by apply all_answered_app].
Qed.

Lemma ff_request {A} e (answer : list event → option A) :
  (∀ t, answer t = None ↔ refused w t e) → fails_fast w (request e answer).
Proof.
  intros He st. exists [e]. unfold request.
  destruct (answer (trace st)) as [a|] eqn:Ha; simpl.
  - split; [done|]. split; [|done]. intros Hr%He. congruence.
  - split; [done|]. exists e, []. split; [done|]. split; [by apply He | done].
Qed.

Lemma ff_emit e : (∀ t, ¬ refused w t e) → fails_fast w (emit e).
Proof. intros He st. exists [e]. split; [done|]. simpl. split; [apply He | done]. Qed.

Lemma ff_get_seen : fails_fast w get_seen.
Proof. intros st. by exists []. Qed.

Lemma ff_seen_add vid : fails_fast w (seen_add vid).
Proof. intros st. exists [EvSeenAdd vid]. split; [done|]. simpl. by split; [intros []|]. Qed.

Lemma ff_randbelow n : fails_fast w (randbelow w n).
Proof. intros st. exists [EvRandBelow n]. split; [done|]. simpl. by split; [intros []|]. Qed.

Lemma ff_shuffle_from i x : fails_fast w (shuffle_from w i x).
Proof.
  revert x. induction i as [|i IH]; intros x; simpl; [apply ff_ret|].
  apply ff_bind; [apply ff_randbelow | intros j; apply IH].
Qed.

Lemma ff_yt_search q order tok m : fails_fast w (yt_search w q order tok m).
Proof. by apply ff_request. Qed.

Lemma ff_yt_videos ids : fails_fast w (yt_videos w ids).
Proof. by apply ff_request. Qed.

Lemma ff_wikidata film : fails_fast w (wikidata_awards_for_film w film).
Proof.
  unfold wikidata_awards_for_film. destruct (truthy film); [|apply ff_ret].
  apply ff_bind; [by apply ff_request|].
  intros r. case_bool_decide; apply ff_ret.
Qed.

Lemma ff_build_item v : fails_fast w (build_item_from_video w v).
Proof.
  unfold build_item_from_video.
  destruct (negb _); [apply ff_ret|].
  destruct (_ || _); [apply ff_ret|].
  case_bool_decide; [apply ff_ret|].
  apply ff_bind.
  { destruct (truthy _); [|apply ff_ret].
    apply ff_bind; [by apply ff_request | intros; apply ff_ret]. }
  intros hit. apply ff_bind.
  - destruct (hit_movie_id hit) as [i|]; [|apply ff_ret].
    apply ff_bind; [by apply ff_request|].
    intros d. apply ff_bind; [apply ff_wikidata|].
    intros aw. apply ff_ret.
  - intros draft. destruct (truthy _); apply ff_ret.
Qed.

Lemma ff_scan_videos vids items : fails_fast w (scan_videos w vids items).
Proof.
  revert items. induction vids as [|v vids IH]; intros items; simpl.
  - apply ff_ret.
  - apply ff_bind; [apply ff_get_seen|]. intros seen.
    case_bool_decide; [apply IH|].
    apply ff_bind; [apply ff_build_item|].
    intros [it|]; [|apply IH].
    apply ff_bind; [apply ff_seen_add|]. intros _.
    case_bool_decide; [apply ff_ret | apply IH].
Qed.

Lemma ff_paginate n q order tok items : fails_fast w (paginate w n q order tok items).
Proof.
  revert tok items. induction n as [|n IH]; intros tok items; simpl.
  - apply ff_ret.
  - apply ff_bind; [apply ff_yt_search|]. intros data.
    apply ff_bind; [apply ff_get_seen|]. intros seen.
    destruct (take 50 (new_ids seen data)) as [|vid ids].
    { destruct (nonempty (nextPageToken data)); [apply IH | apply ff_ret]. }
    apply ff_bind; [apply ff_yt_videos|]. intros vids.
    apply ff_bind; [apply ff_scan_videos|].
    intros [its|its]; [|apply ff_ret].
    destruct (nonempty (nextPageToken data)); [|apply ff_ret].
    apply ff_bind; [apply (ff_emit EvSleep); intros t [] | intros _; apply IH].
Qed.

Lemma ff_each_query qs order items : fails_fast w (each_query w qs order items).
Proof.
  revert items. induction qs as [|q qs IH]; intros items.
  - apply ff_ret.
  - rewrite each_query_cons. apply ff_bind; [apply ff_paginate|].
    intros [its|its]; [|apply ff_ret].
    case_bool_decide; [apply ff_ret | apply IH].
Qed.

Lemma ff_fill_row row order : fails_fast w (fill_row w row order).
Proof.
  unfold fill_row. destruct (ROW_QUERIES !! row) as [queries|]; [|by apply ff_raise].
  apply ff_bind; [apply ff_shuffle_from|].
  intros qs. apply ff_bind; [apply ff_each_query|]. intros r. apply ff_ret.
Qed.

Lemma ff_fallback_scan vids items : fails_fast w (fallback_scan w vids items).
Proof.
  revert items. induction vids as [|v vids IH]; intros items; simpl.
  - apply ff_ret.
  - case_bool_decide; [apply ff_ret|].
    apply ff_bind; [apply ff_get_seen|]. intros seen.
    case_bool_decide; [apply IH|].
    apply ff_bind; [apply ff_build_item|].
    intros [it|]; [|apply IH].
    apply ff_bind; [apply ff_seen_add | intros _; apply IH].
Qed.

Lemma ff_fallback_fill pool order items :
  fails_fast w (fallback_fill w pool order items).
Proof.
  revert items. induction pool as [|fb pool IH]; intros items; simpl.
  - apply ff_ret.
  - case_bool_decide; [apply ff_ret|].
    apply ff_bind; [apply ff_yt_search|]. intros data.
    apply ff_bind; [apply ff_get_seen|]. intros seen.
    apply ff_bind; [apply ff_yt_videos|]. intros vids.
    apply ff_bind; [apply ff_fallback_scan | intros its; apply IH].
Qed.

Lemma ff_each_row rows all : fails_fast w (each_row w rows all).
Proof.
  revert all. induction rows as [|row rows IH]; intros all; simpl.
  - apply ff_ret.
  - apply ff_bind.
    + unfold fill_with_fallback. apply ff_bind; [apply ff_fill_row|]. intros its.
      case_bool_decide; [apply ff_fallback_fill | apply ff_ret].
    + intros its. case_bool_decide; [by apply ff_raise | apply IH].
Qed.

Lemma ff_main : fails_fast w (main w).
Proof.
  unfold main. apply ff_bind; [apply ff_emit; intros t []|]. intros _.
  apply ff_bind; [intros st; by exists []|]. intros _.
  apply ff_bind; [apply ff_each_row|]. intros all.
  apply ff_bind; [intros st; by exists []|]. intros today.
  apply ff_bind; [apply ff_emit; intros t []|]. intros _.
  apply ff_emit. intros t [].
Qed.

End FailFast.

Lemma all_answered_at w base later e earlier :
  all_answered w base (later ++ e :: earlier) → ¬ refused w (earlier ++ base) e.
Proof.
  induction later as [|x later IH]; simpl.
  - intros [He _]. exact He.
  - intros [_ Hrest]. by apply IH.
Qed.

(** X16.  A run stops at the first request that the environment refuses.
    Whenever a request of the run is refused, it is the last event of the
    run and the run raises the failure of a request: nothing is retried,
    and no failure is passed over.  Conversely a run raises the failure of
    a request only when its last event is a request that was refused. *)
Theorem run_fails_fast w st :
  ∃ new,
    trace (main w st).2 = new ++ trace st ∧
    (∀ later e earlier,
       new = later ++ e :: earlier → refused w (earlier ++ trace st) e →
       later = [] ∧ (main w st).1 = Raise RequestException) ∧
    ((main w st).1 = Raise RequestException →
     ∃ e t, new = e :: t ∧ refused w (t ++ trace st) e).
Proof.
  destruct (ff_main w st) as (new & Ht & Hnew). exists new. split; [exact Ht|].
  assert (Hclean : all_answered w (trace st) new →
            ∀ later e earlier,
              new = later ++ e :: earlier → refused w (earlier ++ trace st) e → False).
  { intros Hall later e earlier -> Href. by eapply all_answered_at. }
  destruct (main w st).1 as [[]|[| |]]; simpl in Hnew.
  - split; [|done]. intros later e earlier Hsplit Href. by destruct (Hclean Hnew later e earlier).
  - destruct Hnew as (e & t & -> & Href & Hall). split; [|by exists e, t].
    intros later e' earlier Hsplit Href'. split; [|done].
    destruct later as [|x later]; [done|]. injection Hsplit as _ ->.
    by destruct (all_answered_at w (trace st) later e' earlier).
  - split; [|done]. intros later e earlier Hsplit Href. by destruct (Hclean Hnew later e earlier).
  - split; [|done]. intros later e earlier Hsplit Href. by destruct (Hclean Hnew later e earlier).
Qed.

Lemma run_fails_fast_witness :
  ∃ e t, trace (main Demo.offline Demo.st0).2 = e :: t ∧ refused Demo.offline t e.
Proof.
  destruct (run_fails_fast Demo.offline Demo.st0) as (new & Ht & _ & Hraise).
  destruct Hraise as (e & t & -> & Href); [vm_compute; reflexivity|].
  exists e, (t ++ trace Demo.st0). split; [exact Ht | exact Href].
Defined.

Example offline_run_stops :
  main Demo.offline Demo.st0
  = (Raise RequestException,
     after [EvSearch "war full movie" "date" None 25;
            EvRandBelow 2; EvRandBelow 3; EvRandBelow 4; EvMakedirs "data"] Demo.st0).
Proof. vm_compute. reflexivity. Qed.

(** ** The shape of the requests *)

Lemma new_ids_nonempty seen data :
  Forall (λ vid, vid ≠ EmptyString) (new_ids seen data).
Proof.
  unfold new_ids. apply Forall_forall. intros vid [[Ht _] _]%list_elem_of_filter.
  apply truthy_spec. by apply Is_true_true.
Qed.

Section Shaped.

Context (w : world) (token_ok : option string → Prop) (batch_ok : list string → Prop).

Local Abbreviation ok := (shaped token_ok batch_ok).
Local Abbreviation none := (λ _ : string, false).

Lemma build_item_shaped v : effects ok none 0 (build_item_from_video w v).
Proof.
  eapply effects_weaken; [|apply build_item_effects]. by intros [].
Qed.

Lemma scan_videos_shaped vids items : effects ok none 0 (scan_videos w vids items).
Proof.
  revert items. induction vids as [|v vids IH]; intros items; simpl.
  - apply effects_ret.
  - apply (effects_bind _ _ 0 0); [apply effects_get_seen|]. intros seen.
    case_bool_decide; [apply IH|].
    apply (effects_bind _ _ 0 0); [apply build_item_shaped|].
    intros [it|]; [|apply IH].
    apply (effects_bind _ _ 0 0); [by apply effects_seen_add|]. intros _.
    case_bool_decide; [apply effects_ret | apply IH].
Qed.

Lemma fallback_scan_shaped vids items : effects ok none 0 (fallback_scan w vids items).
Proof.
  revert items. induction vids as [|v vids IH]; intros items; simpl.
  - apply effects_ret.
  - case_bool_decide; [apply effects_ret|].
    apply (effects_bind _ _ 0 0); [apply effects_get_seen|]. intros seen.
    case_bool_decide; [apply IH|].
    apply (effects_bind _ _ 0 0); [apply build_item_shaped|].
    intros [it|]; [|apply IH].
    apply (effects_bind _ _ 0 0); [by apply effects_seen_add|]. intros _. apply IH.
Qed.

Lemma paginate_shaped n q order tok items :
  (∀ tok, token_ok (nonempty tok)) → (∀ ids, full_batch ids → batch_ok ids) →
  effects ok none 0 (paginate w n q order tok items).
Proof.
  intros Htok Hbatch. revert tok items.
  induction n as [|n IH]; intros tok items; simpl.
  - apply effects_ret.
  - apply (effects_bind _ _ 0 0).
    { apply (effects_request ok none (EvSearch q order (nonempty tok) 25)). by split. }
    intros data. apply (effects_bind _ _ 0 0); [apply effects_get_seen|]. intros seen.
    destruct (take 50 (new_ids seen data)) as [|vid ids] eqn:Hids.
    { destruct (nonempty (nextPageToken data)); [apply IH | apply effects_ret]. }
    apply (effects_bind _ _ 0 0).
    { apply (effects_request ok none (EvVideos (vid :: ids))). apply Hbatch.
      rewrite <- Hids. split.
      - split; [rewrite Hids; simpl; lia | rewrite length_take; lia].
      - apply Forall_take, new_ids_nonempty. }
    intros vids. apply (effects_bind _ _ 0 0); [apply scan_videos_shaped|].
    intros [its|its]; [|apply effects_ret].
    destruct (nonempty (nextPageToken data)); [|apply effects_ret].
    apply (effects_bind _ _ 0 0); [by apply (effects_emit ok none EvSleep)|].
    intros _. apply IH.
Qed.

Lemma fill_row_shaped row order :
  (∀ tok, token_ok (nonempty tok)) → (∀ ids, full_batch ids → batch_ok ids) →
  effects ok none 0 (fill_row w row order).
Proof.
  intros Htok Hbatch. unfold fill_row.
  destruct (ROW_QUERIES !! row) as [queries|]; [|apply effects_raise].
  apply (effects_bind _ _ 0 0); [by apply shuffle_from_effects|]. intros qs.
  apply (effects_bind _ _ 0 0); [|intros r; apply effects_ret].
  generalize (@nil item). induction qs as [|q qs IH]; intros items.
  - apply effects_ret.
  - rewrite each_query_cons.
    apply (effects_bind _ _ 0 0); [by apply paginate_shaped|].
    intros [its|its]; [|apply effects_ret].
    case_bool_decide; [apply effects_ret | apply IH].
Qed.

Lemma fallback_fill_shaped pool order items :
  token_ok None → (∀ ids, capped_batch ids → batch_ok ids) →
  effects ok none 0 (fallback_fill w pool order items).
Proof.
  intros Htok Hbatch. revert items.
  induction pool as [|fb pool IH]; intros items; simpl.
  - apply effects_ret.
  - case_bool_decide; [apply effects_ret|].
    apply (effects_bind _ _ 0 0).
    { apply (effects_request ok none (EvSearch fb order None 25)). by split. }
    intros data. apply (effects_bind _ _ 0 0); [apply effects_get_seen|]. intros seen.
    apply (effects_bind _ _ 0 0).
    { apply (effects_request ok none (EvVideos (take 50 (new_ids seen data)))).
      apply Hbatch. split; [rewrite length_take; lia|].
      apply Forall_take, new_ids_nonempty. }
    intros vids. apply (effects_bind _ _ 0 0); [apply fallback_scan_shaped|].
    intros its. apply IH.
Qed.

End Shaped.

(** X18.  Whatever the environment answers, the primary fill never sends an
    empty page token, and each of its detail requests asks for between 1
    and 50 identifiers, none of them empty: a page without a new identifier
    costs no detail request. *)
Theorem fill_row_requests w row order st :
  ∃ new,
    trace (fill_row w row order st).2 = new ++ trace st ∧
    Forall (shaped (λ tok, tok ≠ Some EmptyString) full_batch) new.
Proof.
  destruct (fill_row_shaped w (λ tok, tok ≠ Some EmptyString) full_batch row order)
    with (st := st) as [_ (new & Ht & Hok & _)]; [|done|by exists new].
  intros tok Hempty. by apply nonempty_Some in Hempty as [_ Hne].
Qed.

(** X17.  The fallback pass fetches first pages only: each of its searches
    is sent without a page token, each term of the fallback pool is
    searched at most once, so at most 4 searches in all, and a detail
    request asks for at most 50 identifiers, none of them empty. *)
Theorem fallback_requests w order items st :
  ∃ new,
    trace (fallback_fill w FALLBACK_POOL order items st).2 = new ++ trace st ∧
    Forall (shaped (λ tok, tok = None) capped_batch) new ∧
    (search_count (λ _, true) new ≤ 4)%nat ∧
    (∀ q, (search_count (λ q', bool_decide (q' = q)) new ≤ 1)%nat).
Proof.
  destruct (fallback_fill_shaped w (λ tok, tok = None) capped_batch FALLBACK_POOL order
              items) with (st := st) as [_ (new & Ht & Hok & _)]; [done..|].
  exists new. split; [done|]. split; [done|]. split.
  - destruct (fallback_fill_effects w order (λ _, true) FALLBACK_POOL items st)
      as [_ (new' & Ht' & _ & Hn)].
    rewrite Ht in Ht'. apply app_inv_tail in Ht' as <-. exact Hn.
  - intros q.
    destruct (fallback_fill_effects w order (λ q', bool_decide (q' = q)) FALLBACK_POOL
                items st) as [_ (new' & Ht' & _ & Hn)].
    rewrite Ht in Ht'. apply app_inv_tail in Ht' as <-.
    etrans; [exact Hn|]. apply selected_one. by apply (bool_decide_unpack _).
Qed.

(** ** The exclusion pattern *)

Lemma str_app_cons c (s t : string) : String c s +:+ t = String c (s +:+ t).
Proof. reflexivity. Qed.

Lemma str_app_nil_l (s : string) : EmptyString +:+ s = s.
Proof. reflexivity. Qed.

Lemma last_char_cons c s : ∃ c', last_char (String c s) = Some c'.
Proof.
  revert c. induction s as [|c2 s IH]; intros c; [by exists c|].
  destruct (IH c2) as [c' Hc']. exists c'. by rewrite <- Hc'.
Qed.

Lemma last_or_cons prev c s : last_or prev (String c s) = last_or (Some c) s.
Proof.
  unfold last_or. destruct s as [|c2 s]; [done|].
  change (last_char (String c (String c2 s))) with (last_char (String c2 s)).
  by destruct (last_char_cons c2 s) as [c' ->].
Qed.

Lemma prefix_nocase_spec p prev s last rest :
  prefix_nocase p prev s = Some (last, rest) ↔
  ∃ mid, s = mid +:+ rest ∧ same_nocase p mid = true ∧ last = last_or prev mid.
Proof.
  revert prev s. induction p as [|a p IH]; intros prev s; simpl.
  - split.
    + intros [= <- <-]. by exists EmptyString.
    + intros (mid & -> & Hmid & ->). by destruct mid.
  - destruct s as [|c s].
    { split; [done|]. intros ([|c mid] & Hs & Hmid & _); done. }
    destruct (eq_nocase a c) eqn:Hac.
    + rewrite IH. split.
      * intros (mid & -> & Hmid & ->). exists (String c mid).
        rewrite str_app_cons, last_or_cons. simpl. by rewrite Hac.
      * intros ([|c' mid] & Hs & Hmid & ->); [done|].
        rewrite str_app_cons in Hs. injection Hs as <- ->.
        simpl in Hmid. rewrite Hac in Hmid. exists mid. by rewrite last_or_cons.
    + split; [done|]. intros ([|c' mid] & Hs & Hmid & _); [done|].
      rewrite str_app_cons in Hs. injection Hs as <- ->.
      simpl in Hmid. by rewrite Hac in Hmid.
Qed.

Lemma nocase_d c : eq_nocase "d" c = true → is_word c = true.
Proof. destruct c as [[] [] [] [] [] [] [] []]; vm_compute; congruence. Qed.

Lemma nocase_y c : eq_nocase "y" c = true → is_word c = true.
Proof. destruct c as [[] [] [] [] [] [] [] []]; vm_compute; congruence. Qed.

Lemma documentary_ends prev mid :
  same_nocase "documentary" mid = true →
  word_char (first_char mid) = true ∧ word_char (last_or prev mid) = true.
Proof.
  destruct mid as [|c1 [|c2 [|c3 [|c4 [|c5 [|c6 [|c7 [|c8 [|c9 [|c10 [|c11 [|c12 mid]]]]]]]]]]]];
    simpl; rewrite ?andb_false_r; try done.
  intros Hall. repeat (apply andb_true_iff in Hall as [? Hall]).
  split; [by apply nocase_d|]. apply nocase_y.
  by repeat match goal with H : _ && _ = true |- _ => apply andb_true_iff in H as [? H] end.
Qed.

Lemma word_at_documentary prev s rest :
  word_at "documentary" prev s = Some rest ↔
  word_char prev = false ∧
  ∃ mid, s = mid +:+ rest ∧ same_nocase "documentary" mid = true ∧
         word_char (first_char rest) = false.
Proof.
  unfold word_at, boundary. fold (word_char prev) (word_char (first_char s)). split.
  - destruct (xorb (word_char prev) (word_char (first_char s))) eqn:Hb; [|done].
    destruct (prefix_nocase "documentary" prev s) as [[last rest']|] eqn:Hp; [|done].
    apply prefix_nocase_spec in Hp as (mid & -> & Hmid & ->).
    destruct (documentary_ends prev mid Hmid) as [Hfirst Hlast].
    fold (word_char (last_or prev mid)) (word_char (first_char rest')).
    rewrite Hlast. destruct (word_char (first_char rest')) eqn:Hrest; [done|].
    intros [= <-]. split; [|by exists mid].
    assert (Hs : word_char (first_char (mid +:+ rest')) = true).
    { destruct mid; [done|]. exact Hfirst. }
    rewrite Hs in Hb. by destruct (word_char prev).
  - intros (Hprev & mid & -> & Hmid & Hrest).
    destruct (documentary_ends prev mid Hmid) as [Hfirst Hlast].
    assert (Hs : word_char (first_char (mid +:+ rest)) = true).
    { destruct mid; [done|]. exact Hfirst. }
    rewrite Hprev, Hs. change (xorb false true) with true. cbv iota.
    assert (Hp : prefix_nocase "documentary" prev (mid +:+ rest)
                 = Some (last_or prev mid, rest)).
    { apply prefix_nocase_spec. by exists mid. }
    rewrite Hp. fold (word_char (last_or prev mid)) (word_char (first_char rest)).
    by rewrite Hlast, Hrest.
Qed.

Lemma search_word_spec w prev s :
  search_word w prev s = true ↔
  ∃ pre rest, s = pre +:+ rest ∧ is_Some (word_at w (last_or prev pre) rest).
Proof.
  revert prev. induction s as [|c s IH]; intros prev; simpl.
  - destruct (word_at w prev EmptyString) as [r|] eqn:Hw.
    + split; [|done]. intros _. exists EmptyString, EmptyString. split; [done|].
      unfold last_or. simpl. rewrite Hw. eauto.
    + split; [done|]. intros ([|c pre] & rest & Hs & Hsome); [|done].
      rewrite str_app_nil_l in Hs. subst rest. unfold last_or in Hsome. simpl in Hsome.
      rewrite Hw in Hsome. by destruct Hsome.
  - destruct (word_at w prev (String c s)) as [r|] eqn:Hw.
    + split; [|done]. intros _. exists EmptyString, (String c s). split; [done|].
      unfold last_or. simpl. rewrite Hw. eauto.
    + rewrite IH. split.
      * intros (pre & rest & -> & Hsome). exists (String c pre), rest.
        split; [done|]. by rewrite last_or_cons.
      * intros ([|c' pre] & rest & Hs & Hsome).
        { rewrite str_app_nil_l in Hs. subst rest. unfold last_or in Hsome.
          simpl in Hsome. rewrite Hw in Hsome. by destruct Hsome. }
        rewrite str_app_cons in Hs. injection Hs as <- ->.
        exists pre, rest. split; [done|]. by rewrite last_or_cons in Hsome.
Qed.

(** X19.  A title matches the exclusion pattern exactly when it contains
    the word [documentary], in any mix of upper and lower case, that is
    neither preceded nor followed by a word character (a letter, a digit or
    an underscore). *)
Theorem excluded_title_iff title :
  EXCLUDE_TITLE_RE_search title = true ↔
  ∃ pre mid post,
    title = pre +:+ mid +:+ post ∧ same_nocase "documentary" mid = true ∧
    word_char (last_char pre) = false ∧ word_char (first_char post) = false.
Proof.
  unfold EXCLUDE_TITLE_RE_search. rewrite search_word_spec. split.
  - intros (pre & rest & -> & [post Hat]).
    apply word_at_documentary in Hat as (Hprev & mid & -> & Hmid & Hpost).
    exists pre, mid, post. split; [done|]. split; [done|]. split; [|done].
    unfold last_or in Hprev. by destruct (last_char pre).
  - intros (pre & mid & post & -> & Hmid & Hpre & Hpost).
    exists pre, (mid +:+ post). split; [done|]. exists post.
    apply word_at_documentary. split; [|by exists mid].
    unfold last_or. by destruct (last_char pre).
Qed.

Example documentaries_not_excluded :
  EXCLUDE_TITLE_RE_search "Great War Documentaries" = false.
Proof. reflexivity. Qed.

Example documentary_hyphen_excluded :
  EXCLUDE_TITLE_RE_search "A war-DOCUMENTARY, 1944" = true.
Proof. reflexivity. Qed.

(** ** The sanitizer never lengthens a title *)

Lemma sub_junk_length skip prev s :
  (String.length (sub_junk skip prev s) ≤ String.length s)%nat.
Proof.
  revert skip prev. induction s as [|c s IH]; intros skip prev; [done|].
  cbn [sub_junk]. destruct skip as [|k].
  - destruct (first_alt JUNK prev (String c s)) as [[|k]|]; simpl;
      try (specialize (IH 0%nat (Some c)); lia).
    specialize (IH k (Some c)). lia.
  - specialize (IH k (Some c)). simpl. lia.
Qed.

Lemma sub_brackets_length skip s :
  (String.length (sub_brackets skip s) ≤ String.length s)%nat.
Proof.
  revert skip. induction s as [|c s IH]; intros skip; [done|].
  cbn [sub_brackets]. destruct skip as [|k].
  - destruct (is_delim c); [destruct (lazy_close s) as [k|]|]; simpl;
      try (specialize (IH 0%nat); lia).
    specialize (IH k). lia.
  - specialize (IH k). simpl. lia.
Qed.

Lemma sub_spaces_length b s :
  (String.length (sub_spaces b s) ≤ String.length s)%nat.
Proof.
  revert b. induction s as [|c s IH]; intros b; [done|]. simpl.
  destruct (isspace c); [destruct b|]; simpl;
    try (specialize (IH true); lia). specialize (IH false). lia.
Qed.

Lemma lstrip_length s : (String.length (lstrip s) ≤ String.length s)%nat.
Proof. induction s as [|c s IH]; simpl; [done|]. destruct (isspace c); simpl; lia. Qed.

Lemma rstrip_length s : (String.length (rstrip s) ≤ String.length s)%nat.
Proof.
  induction s as [|c s IH]; [done|].
  change (rstrip (String c s)) with
    (match rstrip s with
     | EmptyString => if isspace c then EmptyString else String c EmptyString
     | r => String c r
     end).
  destruct (rstrip s) as [|c2 r]; [destruct (isspace c)|]; simpl in *; lia.
Qed.

Lemma slice_to_le n s : (String.length (slice_to n s) ≤ String.length s)%nat.
Proof.
  revert s. induction n as [|n IH]; intros [|c s]; simpl; try lia.
  specialize (IH s). lia.
Qed.

(** X20.  The sanitized title is never longer than the title. *)
Theorem clean_title_shrinks title :
  (String.length (clean_title_for_tmdb title) ≤ String.length title)%nat.
Proof.
  unfold clean_title_for_tmdb, strip.
  etrans; [apply slice_to_le|]. etrans; [apply rstrip_length|].
  etrans; [apply lstrip_length|]. etrans; [apply sub_spaces_length|].
  etrans; [apply sub_brackets_length|]. apply sub_junk_length.
Qed.

(** ** The identifier of an award *)

Lemma after_last_slashless s : slashless s = true → after_last "/" s = None.
Proof.
  unfold slashless. induction s as [|c s IH]; simpl; [done|].
  intros [Hc Hs]%andb_true_iff. rewrite IH by done.
  apply negb_true_iff in Hc. by rewrite Hc.
Qed.

Lemma after_last_app pre suf :
  slashless suf = true → after_last "/" (pre +:+ String "/" suf) = Some suf.
Proof.
  intros Hsuf. induction pre as [|c pre IH].
  - rewrite str_app_nil_l. simpl. by rewrite after_last_slashless.
  - rewrite str_app_cons. simpl. by rewrite IH.
Qed.

(** X21.  The identifier of an award is the last segment of its URI: for
    an identifier without a slash, whatever comes before the last slash is
    ignored, and the identifier alone is read as itself. *)
Theorem award_qid_last_segment prefix qid :
  slashless qid = true →
  award_qid {| award_value := Some (prefix +:+ String "/" qid) |} = qid ∧
  award_qid {| award_value := Some qid |} = qid.
Proof.
  intros Hq. unfold award_qid, rsplit_last. simpl.
  by rewrite after_last_app, after_last_slashless.
Qed.

Lemma award_qid_last_segment_witness :
  award_qid {| award_value := Some ("http://www.wikidata.org/entity" +:+ String "/" "Q103360") |}
  = "Q103360" ∧
  award_qid {| award_value := Some "Q103360" |} = "Q103360".
Proof. apply award_qid_last_segment. reflexivity. Defined.

(** ** The requests made for one record *)

(** X22.  What [build_item_from_video] requests for one record, in the
    order of the requests: nothing for a record it rejects, and nothing
    when the sanitized title is empty.  Otherwise it searches the metadata
    service for the sanitized title; when the search is refused or finds
    nothing that is all.  Otherwise it asks for the details of the
    identifier of the first result, and when these are fetched and have a
    non-empty IMDb id, it queries the knowledge graph for that id.  At most
    three requests are made. *)
Theorem build_item_requests w v st :
  let q := clean_title_for_tmdb (candidate_title v) in
  let t1 := EvTmdbSearch q :: trace st in
  let t := trace (build_item_from_video w v st).2 in
  (valid_candidate v = false ∨ q = EmptyString → t = trace st) ∧
  (valid_candidate v = true → q ≠ EmptyString →
   (tmdb_search_api w (trace st) q = None → t = t1) ∧
   (tmdb_search_api w (trace st) q = Some [] → t = t1) ∧
   (∀ hit rest,
      tmdb_search_api w (trace st) q = Some (hit :: rest) →
      (hit_id hit = None ∨ hit_id hit = Some 0 → t = t1) ∧
      (∀ i, hit_id hit = Some i → i ≠ 0 →
         (tmdb_details_api w t1 i = None → t = EvTmdbDetails i :: t1) ∧
         (∀ d, tmdb_details_api w t1 i = Some d →
            (imdb_of d = EmptyString → t = EvTmdbDetails i :: t1) ∧
            (imdb_of d ≠ EmptyString →
             t = EvWikidata (imdb_of d) :: EvTmdbDetails i :: t1))))) ∧
  (∃ new, t = new ++ trace st ∧ (length new ≤ 3)%nat).
Proof.
  intros q t1 t.
  assert (Hnothing : valid_candidate v = true → q ≠ EmptyString →
            finds_nothing w v st → t = t1).
  { intros Hv Hq Hn. unfold t. rewrite build_item_nothing by done.
    change (tmdb_query v) with q. apply truthy_spec in Hq. by rewrite Hq. }
  assert (Hfetched : ∀ hit rest i d,
            valid_candidate v = true → q ≠ EmptyString →
            tmdb_search_api w (trace st) q = Some (hit :: rest) →
            hit_id hit = Some i → i ≠ 0 → tmdb_details_api w t1 i = Some d →
            (imdb_of d = EmptyString → t = EvTmdbDetails i :: t1) ∧
            (imdb_of d ≠ EmptyString →
             t = EvWikidata (imdb_of d) :: EvTmdbDetails i :: t1)).
  { intros hit rest i d Hv Hq Hres Hid Hi Hd. unfold t.
    rewrite (build_item_fetched w v st i d Hv); [|split; [done | by exists hit, rest]].
    unfold bind, wikidata_awards_for_film. split.
    - by intros ->.
    - intros Himdb%truthy_spec. rewrite Himdb. unfold bind, wikidata_get, request.
      destruct (wikidata_api w _ (imdb_of d)) as [r|]; [|done].
      by case_bool_decide. }
  split; [|split].
  - intros [Hv | Hq].
    + unfold t. by rewrite build_item_invalid.
    + destruct (valid_candidate v) eqn:Hv; [|unfold t; by rewrite build_item_invalid].
      unfold t. rewrite build_item_nothing by (done || by left).
      change (tmdb_query v) with q. by rewrite Hq.
  - intros Hv Hq. split; [|split].
    + intros Hres. unfold t. by rewrite build_item_search_refused.
    + intros Hres. apply Hnothing; try done. right. split; [done | by left].
    + intros hit rest Hres. split.
      * intros Hid. apply Hnothing; try done. right. split; [done|].
        right. by exists hit, rest.
      * intros i Hid Hi. split.
        -- intros Hd. unfold t.
           by rewrite (build_item_details_refused w v st hit rest i).
        -- intros d Hd. by apply (Hfetched hit rest i d).
  - destruct (decide (valid_candidate v = true)) as [Hv|Hv%not_true_is_false].
    2: { exists []. unfold t. rewrite build_item_invalid by done.
         split; [done | simpl; lia]. }
    destruct (decide (q = EmptyString)) as [Hq|Hq].
    { exists []. unfold t. rewrite build_item_nothing by (done || by left).
      change (tmdb_query v) with q. rewrite Hq. split; [done | simpl; lia]. }
    destruct (lookup_cases w v st) as [Hn | [(i & d & Hf) | [_ Href]]].
    + exists [EvTmdbSearch q]. split; [by apply Hnothing | simpl; lia].
    + destruct Hf as (_ & hit & rest & Hres & Hid & Hi & Hd).
      destruct (Hfetched hit rest i d Hv Hq Hres Hid Hi Hd) as [Hnone Hsome].
      destruct (decide (imdb_of d = EmptyString)) as [Himdb|Himdb].
      * exists [EvTmdbDetails i; EvTmdbSearch q]. split; [by apply Hnone | simpl; lia].
      * exists [EvWikidata (imdb_of d); EvTmdbDetails i; EvTmdbSearch q].
        split; [by apply Hsome | simpl; lia].
    + destruct Href as [Hres | (hit & rest & i & Hres & Hid & Hi & Hd)].
      * exists [EvTmdbSearch q]. unfold t.
        rewrite build_item_search_refused by done. split; [done | simpl; lia].
      * exists [EvTmdbDetails i; EvTmdbSearch q]. unfold t.
        rewrite (build_item_details_refused w v st hit rest i) by done.
        split; [done | simpl; lia].
Qed.

(** ** The terms and the sort orders of a run *)

Lemma search_count_none sel new :
  search_count sel new = 0%nat → Forall (λ e, is_search sel e = false) new.
Proof.
  induction new as [|e new IH]; [constructor|].
  rewrite search_count_cons. destruct (is_search sel e) eqn:He; [done|].
  intros Hn. constructor; [done | by apply IH].
Qed.

Lemma selected_within (known : list string) qs :
  qs ⊆ known → selected (λ q, negb (bool_decide (q ∈ known))) qs = 0%nat.
Proof.
  unfold selected. induction qs as [|q qs IH]; simpl; [done|].
  intros Hsub. rewrite bool_decide_eq_true_2 by set_solver. simpl.
  apply IH. set_solver.
Qed.

Lemma fill_with_fallback_terms w row :
  effects (row_search row) (λ _, false) 0 (fill_with_fallback w row).
Proof.
  set (known := default [] (ROW_QUERIES !! row) ++ FALLBACK_POOL).
  set (sel := λ q, negb (bool_decide (q ∈ known))).
  eapply effects_uncounted with (sel := sel) (n := 0%nat). intros st.
  destruct (fill_with_fallback_effects w sel row st) as [Hs (new & Ht & Hok & Hn)].
  unfold sel in Hn. rewrite !selected_within in Hn by set_solver.
  split; [done|]. exists new. split; [done|]. split; [|done].
  assert (Hzero : search_count sel new = 0%nat) by (unfold sel; lia).
  apply search_count_none in Hzero.
  rewrite Forall_forall in Hok, Hzero. apply Forall_forall. intros e He.
  specialize (Hok e He). specialize (Hzero e He).
  destruct e as [| |q o tok m| | | | | | | |]; try done.
  destruct Hok as [_ ->]. split; [done|].
  unfold is_search, sel in Hzero.
  apply negb_false_iff, bool_decide_eq_true in Hzero.
  by apply elem_of_app in Hzero.
Qed.

Lemma each_row_terms w rows all :
  rows ⊆ ROW_TITLES → effects run_search (λ _, false) 0 (each_row w rows all).
Proof.
  revert all. induction rows as [|row rows IH]; intros all Hsub; simpl.
  - apply effects_ret.
  - apply (effects_bind _ _ 0 0).
    + eapply effects_weaken; [|apply fill_with_fallback_terms].
      intros e He. destruct e; try done. exists row. split; [set_solver | done].
    + intros its. case_bool_decide; [apply effects_raise | apply IH; set_solver].
Qed.

(** X23.  Whatever the environment answers, every search of a run belongs
    to one of the five rows: it is sorted in the order of that row, and it
    is for one of the four terms of that row or for a term of the fallback
    pool.  Hence its sort order is [date], [viewCount] or [relevance]. *)
Theorem run_search_terms w st :
  ∃ new,
    trace (main w st).2 = new ++ trace st ∧
    Forall run_search new ∧
    ∀ q o tok m, EvSearch q o tok m ∈ new →
      o = "date" ∨ o = "viewCount" ∨ o = "relevance".
Proof.
  assert (Hmain : ∃ new, trace (main w st).2 = new ++ trace st ∧ Forall run_search new).
  { destruct (each_row_terms w ROW_TITLES [] (reflexivity _) (started st))
      as [_ (new & Ht & Hok & _)].
    rewrite main_unfold.
    destruct (each_row w ROW_TITLES [] (started st)) as [[all|e] st1];
      cbn [snd started trace after] in Ht |- *.
    - eexists (_ :: _ :: new ++ [EvMakedirs "data"]). split.
      + rewrite Ht. cbn [app]. by rewrite <- app_assoc.
      + repeat constructor. apply Forall_app. split; [done | by repeat constructor].
    - exists (new ++ [EvMakedirs "data"]). split.
      + rewrite Ht. by rewrite <- app_assoc.
      + apply Forall_app. split; [done | by repeat constructor]. }
  destruct Hmain as (new & Ht & Hok). exists new. split; [done|]. split; [done|].
  intros q o tok m He. rewrite Forall_forall in Hok.
  destruct (Hok _ He) as (row & _ & -> & _). unfold order_of.
  repeat case_bool_decide; auto.
Qed.
